(** * MediBridge: the API routes over the relational store

    A shallow embedding of the route handlers of the MediBridge application
    (Next.js route handlers over a Prisma store):

    - [app/api/mdts/[id]/messages/route.ts]  ([GET_messages], [POST_message]),
    - [app/api/mdts/route.ts]                ([POST_mdt]),
    - [app/api/mdt/invitations/[id]/route.ts] ([GET_invitation],
      [PATCH_invitation], [DELETE_invitation]),
    - [app/api/mdt/invitations/route.ts]     ([POST_invitation],
      [PATCH_invitations]),
    - [app/api/auth/signup/route.ts]         ([POST_signup],
      [generateUniqueReferralCode]),
    - [app/api/auth/validate-referral/route.ts] ([GET_validate_referral]),
    - the listings [GET_mdts] and [GET_invitations] of the routes above,
    - [app/api/mdts/[id]/route.ts]            ([GET_mdt], [PUT_mdt]),
    - [app/api/users/local/route.ts]          ([GET_users_local]),
    - [prisma/seed.ts] ([main]), [middleware.ts] ([authorized]) and the
      handlers of the pages that call the routes.

    A handler is a function from the store (and the request) to the store
    after the request and the HTTP response.  Tables are finite maps keyed by
    their primary key; a Prisma interactive transaction is a computation in
    an error monad over the store that is committed only when it returns. *)

From Stdlib Require Import ZArith NArith Lia.
From stdpp Require Import gmap strings list fin_maps sorting.

Open Scope string_scope.

(** ** JavaScript values *)

(** A JavaScript string is a sequence of UTF-16 code units; [length] is the
    [.length] of the source. *)
Abbreviation jsstring := (list N).

(** The code units of an ASCII literal. *)
Definition js (s : string) : jsstring :=
  Ascii.N_of_ascii <$> String.list_ascii_of_string s.

(** A parsed JSON field.  [JUndefined] is an absent field; numbers are the
    integers (every other number is truthy and is not a string, like a
    non-zero integer); [JObj] stands for arrays and objects. *)
Inductive jsvalue :=
  | JUndefined
  | JNull
  | JBool (b : bool)
  | JNum (n : Z)
  | JStr (s : jsstring)
  | JObj.

#[global] Instance jsvalue_eq_dec : EqDecision jsvalue.
Proof. solve_decision. Defined.

(** [!v] is [negb (truthy v)]. *)
Definition truthy (v : jsvalue) : bool :=
  match v with
  | JUndefined | JNull => false
  | JBool b => b
  | JNum n => negb (n =? 0)%Z
  | JStr s => negb (List.length s =? 0)%nat
  | JObj => true
  end.

(** [typeof v === 'string'] *)
Definition is_string (v : jsvalue) : bool :=
  match v with JStr _ => true | _ => false end.

(** WhiteSpace and LineTerminator code points of ECMAScript, the ones
    [String.prototype.trim] strips. *)
Definition is_js_whitespace (c : N) : bool :=
  ((c =? 0x09) || (c =? 0x0A) || (c =? 0x0B) || (c =? 0x0C) || (c =? 0x0D)
   || (c =? 0x20) || (c =? 0xA0) || (c =? 0x1680)
   || ((0x2000 <=? c) && (c <=? 0x200A))
   || (c =? 0x2028) || (c =? 0x2029) || (c =? 0x202F) || (c =? 0x205F)
   || (c =? 0x3000) || (c =? 0xFEFF))%N.

Fixpoint trimStart (s : jsstring) : jsstring :=
  match s with
  | c :: s' => if is_js_whitespace c then trimStart s' else s
  | [] => []
  end.

Definition trimEnd (s : jsstring) : jsstring :=
  reverse (trimStart (reverse s)).

(** [s.trim()] *)
Definition trim (s : jsstring) : jsstring := trimEnd (trimStart s).

(** Surrogate code units. *)
Definition is_high_surrogate (c : N) : bool :=
  ((0xD800 <=? c) && (c <=? 0xDBFF))%N.
Definition is_low_surrogate (c : N) : bool :=
  ((0xDC00 <=? c) && (c <=? 0xDFFF))%N.

(** [s.toWellFormed()]: every surrogate that is not half of a pair becomes
    U+FFFD.  A text column holds text, not code units: what the store keeps
    and gives back for a string is the string its UTF-8 encoding decodes
    to, and the encoding of a lone surrogate is that of U+FFFD. *)
Fixpoint toWellFormed (s : jsstring) : jsstring :=
  match s with
  | [] => []
  | c :: s' =>
      if is_high_surrogate c then
        match s' with
        | d :: s'' =>
            if is_low_surrogate d then c :: d :: toWellFormed s''
            else 0xFFFD%N :: toWellFormed s'
        | [] => [0xFFFD%N]
        end
      else if is_low_surrogate c then 0xFFFD%N :: toWellFormed s'
      else c :: toWellFormed s'
  end.

(** [s.isWellFormed()]: no lone surrogate. *)
Definition isWellFormed (s : jsstring) : bool :=
  bool_decide (toWellFormed s = s).

(** ** The store *)

Inductive UserType := LOCAL | EXTERNAL.
Inductive MDTStatus := ACTIVE | COMPLETED | ARCHIVED.
Inductive InvitationStatus := PENDING | ACCEPTED | DECLINED | CANCELLED.
Inductive Gender := MALE | FEMALE.

#[global] Instance UserType_eq_dec : EqDecision UserType.
Proof. solve_decision. Defined.
#[global] Instance MDTStatus_eq_dec : EqDecision MDTStatus.
Proof. solve_decision. Defined.
#[global] Instance InvitationStatus_eq_dec : EqDecision InvitationStatus.
Proof. solve_decision. Defined.

(** Modelled from the spec: the Prisma schema (prisma/schema.prisma) is not
    among the sources; the rows below carry the columns the handlers read
    and write, with the types the handlers and section 3 of the
    specification give them.  Row ids of users, MDTs, invitations, profiles
    and messages are strings, specialty ids are numbers.  [userSpecialties]
    lists the specialty ids of a user in the order in which
    [include: { specialties: true }] returns them.  An invitation created
    without [status] is PENDING, one created without [specialtyId] has
    none, and [createdAt] of a message is the time of its insert. *)
Record User := {
  firstName : string;
  lastName : string;
  email : string;
  userType : UserType;
  userSpecialties : list Z
}.

Record MDT := {
  mdtName : string;
  creatorId : string;
  mdtStatus : MDTStatus;
  members : gset string
}.

Record Medication := { medName : string; dosage : string }.

Record PatientProfile := {
  age : Z;
  gender : Gender;
  uniqueId : string;
  medicalHistory : string;
  caseSummary : string;
  profileMdtId : string;
  medications : list Medication
}.

(** One [MDTSpecialty] row per key [(mdtId, specialtyId)] (the compound
    unique key [mdtId_specialtyId] of the source); the value is [filled]. *)
Record MDTSpecialty := {
  rs_mdtId : string;
  rs_specialtyId : Z;
  rs_filled : bool
}.

Record MDTInvitation := {
  inv_mdtId : string;
  senderId : string;
  receiverId : string;
  inv_specialtyId : option Z;
  inv_status : InvitationStatus
}.

Record Message := {
  content : jsstring;
  msg_userId : string;
  msg_mdtId : string;
  createdAt : Z
}.

Record DB := {
  users : gmap string User;
  specialties : gmap Z string;
  mdts : gmap string MDT;
  patientProfiles : gmap string PatientProfile;
  mdtSpecialties : gmap (string * Z) bool;
  invitations : gmap string MDTInvitation;
  messages : gmap string Message
}.

Definition set_mdts (f : gmap string MDT → gmap string MDT) (db : DB) : DB :=
  {| users := users db; specialties := specialties db; mdts := f (mdts db);
     patientProfiles := patientProfiles db;
     mdtSpecialties := mdtSpecialties db; invitations := invitations db;
     messages := messages db |}.

Definition set_patientProfiles
    (f : gmap string PatientProfile → gmap string PatientProfile) (db : DB) : DB :=
  {| users := users db; specialties := specialties db; mdts := mdts db;
     patientProfiles := f (patientProfiles db);
     mdtSpecialties := mdtSpecialties db; invitations := invitations db;
     messages := messages db |}.

Definition set_mdtSpecialties
    (f : gmap (string * Z) bool → gmap (string * Z) bool) (db : DB) : DB :=
  {| users := users db; specialties := specialties db; mdts := mdts db;
     patientProfiles := patientProfiles db;
     mdtSpecialties := f (mdtSpecialties db); invitations := invitations db;
     messages := messages db |}.

Definition set_invitations
    (f : gmap string MDTInvitation → gmap string MDTInvitation) (db : DB) : DB :=
  {| users := users db; specialties := specialties db; mdts := mdts db;
     patientProfiles := patientProfiles db;
     mdtSpecialties := mdtSpecialties db; invitations := f (invitations db);
     messages := messages db |}.

Definition set_messages
    (f : gmap string Message → gmap string Message) (db : DB) : DB :=
  {| users := users db; specialties := specialties db; mdts := mdts db;
     patientProfiles := patientProfiles db;
     mdtSpecialties := mdtSpecialties db; invitations := invitations db;
     messages := f (messages db) |}.

(** ** Responses *)

(** [NextResponse.json(body, { status })] and
    [NextResponse.json({ error: msg }, { status })]. *)
Inductive response (A : Type) :=
  | Json (status : Z) (body : A)
  | Error (status : Z) (msg : string).
Arguments Json {A} status body.
Arguments Error {A} status msg.

Definition is_json {A} (r : response A) : bool :=
  match r with Json _ _ => true | Error _ _ => false end.

Definition status_of {A} (r : response A) : Z :=
  match r with Json s _ | Error s _ => s end.

(** The guards of a handler up to its first write: a value, or the response
    the handler returns early. *)
Definition guard (A : Type) := (A + (Z * string))%type.

Definition pass {A} (a : A) : guard A := inl a.
Definition reject {A} (status : Z) (msg : string) : guard A := inr (status, msg).

#[global] Instance guard_bind : MBind guard := λ A B f g,
  match g with inl a => f a | inr e => inr e end.

(** [getServerSession(authOptions)] resolved to [session?.user?.email];
    [None] when there is no session. *)
Definition require_session (session : option string) : guard string :=
  match session with
  | Some e => if bool_decide (e = "") then reject 401 "Unauthorized" else pass e
  | None => reject 401 "Unauthorized"
  end.

(** [prisma.user.findUnique({ where: { email } })] *)
Definition user_by_email (db : DB) (e : string) : option (string * User) :=
  snd <$> list_find (λ p, email p.2 = e) (map_to_list (users db)).

Definition require_user (db : DB) (e : string) (msg : string)
    : guard (string * User) :=
  match user_by_email db e with
  | Some u => pass u
  | None => reject 404 msg
  end.

(** ** Messaging log: app/api/mdts/[id]/messages/route.ts *)

(** [mdt.members.some(member => member.id === user.id)] *)
Definition isMember (m : MDT) (uid : string) : bool :=
  bool_decide (uid ∈ members m).

Definition createdAt_le (a b : string * Message) : Prop :=
  (createdAt a.2 ≤ createdAt b.2)%Z.

#[global] Instance createdAt_le_dec a b : Decision (createdAt_le a b).
Proof. unfold createdAt_le. apply _. Defined.

(** [prisma.message.findMany({ where: { mdtId }, orderBy: { createdAt: 'asc' } })] *)
Definition findMany_messages (db : DB) (id : string) : list (string * Message) :=
  merge_sort createdAt_le
    (filter (λ p, msg_mdtId p.2 = id) (map_to_list (messages db))).

Definition GET_messages (db : DB) (session : option string) (id : string)
    : response (list (string * Message)) :=
  let checks : guard unit :=
    e ← require_session session;
    u ← require_user db e "User not found";
    match mdts db !! id with
    | None => reject 404 "MDT not found"
    | Some m =>
        if isMember m u.1 then pass ()
        else reject 403 "Not authorized to view messages for this MDT"
    end in
  match checks with
  | inl _ => Json 200 (findMany_messages db id)
  | inr (st, msg) => Error st msg
  end.

(** The guards of [POST]: the trimmed content and the author's id. *)
Definition POST_message_checks (db : DB) (session : option string)
    (id : string) (content : jsvalue) : guard (jsstring * string) :=
  e ← require_session session;
  u ← require_user db e "User not found";
  match content with
  | JStr s =>
      if negb (truthy content) || (List.length (trim s) =? 0)%nat then
        reject 400 "Message content is required"
      else if (2000 <? List.length (trim s))%nat then
        reject 400 "Message content is too long (max 2000 characters)"
      else
        match mdts db !! id with
        | None => reject 404 "MDT not found"
        | Some m =>
            if isMember m u.1 then pass (trim s, u.1)
            else reject 403 "Not authorized to send messages to this MDT"
        end
  | _ => reject 400 "Message content is required"
  end.

(** [POST]: [now] is the store's clock at the insert ([createdAt] defaults
    to it), the new row gets an unused id.  The row the store keeps, and
    the handler answers, holds the content as text. *)
Definition POST_message (db : DB) (now : Z) (session : option string)
    (id : string) (content : jsvalue) : DB * response (string * Message) :=
  match POST_message_checks db session id content with
  | inl (c, uid) =>
      let mid := fresh (dom (messages db)) in
      let msg := {| content := toWellFormed c; msg_userId := uid;
                    msg_mdtId := id; createdAt := now |} in
      (set_messages (insert mid msg) db, Json 201 (mid, msg))
  | inr (st, m) => (db, Error st m)
  end.

(** ** Interactive transactions *)

(** The callback of [prisma.$transaction(async (tx) => ...)]: every [tx.*]
    call reads and writes the transaction's view of the store; a rejected
    promise aborts the callback with the error's message. *)
Inductive txresult (A : Type) :=
  | Done (db : DB) (a : A)
  | Throw (e : string).
Arguments Done {A} db a.
Arguments Throw {A} e.

Definition tx (A : Type) := DB → txresult A.

Definition tx_ret {A} (a : A) : tx A := λ db, Done db a.
Definition tx_throw {A} (e : string) : tx A := λ _, Throw e.
Definition tx_bind {A B} (m : tx A) (k : A → tx B) : tx B := λ db,
  match m db with
  | Done db' a => k a db'
  | Throw e => Throw e
  end.
Definition tx_get : tx DB := λ db, Done db db.
Definition tx_modify (f : DB → DB) : tx unit := λ db, Done (f db) ().

Notation "x ←ₜ m ;; k" := (tx_bind m (λ x, k))
  (at level 100, m at next level, right associativity).
Notation "m ;;ₜ k" := (tx_bind m (λ _, k))
  (at level 100, right associativity).

(** [for (const x of xs) await f(x)] inside the callback; [Promise.all] over
    [tx.*] calls issues them in this order on the transaction's connection
    and rejects when one of them does. *)
Fixpoint tx_forM {A} (f : A → tx unit) (xs : list A) : tx unit :=
  match xs with
  | [] => tx_ret ()
  | x :: xs' => f x ;;ₜ tx_forM f xs'
  end.

(** [prisma.$transaction(body)]: the writes of [body] are committed when it
    returns and discarded when it throws. *)
Definition transaction {A} (body : tx A) (db : DB) : DB * (A + string) :=
  match body db with
  | Done db' a => (db', inl a)
  | Throw e => (db, inr e)
  end.

(** ** MDT creation: app/api/mdts/route.ts *)

Record PatientProfileInput := {
  in_age : Z;
  in_gender : Gender;
  in_uniqueId : string;
  in_medicalHistory : string;
  in_caseSummary : string;
  in_medications : list Medication
}.

Record CreateMDTBody := {
  name : string;
  patientProfile : PatientProfileInput;
  localDoctors : list string;
  requiredSpecialties : list Z
}.

(** What [tx.mDT.findUnique({ include: ... })] returns for the new MDT. *)
Record MDTView := {
  view_id : string;
  view_mdt : MDT;
  view_patientProfile : list (string * PatientProfile);
  view_requiredSpecialties : list MDTSpecialty;
  view_invitations : list (string * MDTInvitation)
}.

(** [tx.mDT.create({ data: { name, creatorId, status: 'ACTIVE' } })] *)
Definition tx_create_mdt (nm : string) (creator : string) : tx string := λ db,
  let id := fresh (dom (mdts db)) in
  match users db !! creator with
  | None => Throw "Foreign key constraint failed"
  | Some _ =>
      Done (set_mdts (insert id {| mdtName := nm; creatorId := creator;
                                   mdtStatus := ACTIVE; members := ∅ |}) db) id
  end.

(** [tx.mDT.update({ where: { id }, data: { members: { connect: ids } } })]:
    throws when the MDT or one of the connected users does not exist. *)
Definition tx_connect_members (id : string) (ids : list string) : tx unit := λ db,
  match mdts db !! id with
  | None => Throw "Record to update not found"
  | Some m =>
      if forallb (λ u, bool_decide (is_Some (users db !! u))) ids then
        Done (set_mdts (insert id
               {| mdtName := mdtName m; creatorId := creatorId m;
                  mdtStatus := mdtStatus m;
                  members := members m ∪ list_to_set ids |}) db) ()
      else Throw "Record to connect not found"
  end.

(** [tx.patientProfile.create({ data: { ..., mdtId, medications: { create } } })] *)
Definition tx_create_patientProfile (id : string) (p : PatientProfileInput)
    : tx unit := λ db,
  match mdts db !! id with
  | None => Throw "Foreign key constraint failed"
  | Some _ =>
      let pid := fresh (dom (patientProfiles db)) in
      Done (set_patientProfiles (insert pid
             {| age := in_age p; gender := in_gender p;
                uniqueId := in_uniqueId p;
                medicalHistory := in_medicalHistory p;
                caseSummary := in_caseSummary p; profileMdtId := id;
                medications :=
                  (λ med, {| medName := medName med; dosage := dosage med |})
                    <$> in_medications p |}) db) ()
  end.

(** [tx.mDTSpecialty.create({ data: { mdtId, specialtyId, filled: false } })]:
    throws on an unknown specialty and on a second row for the same
    [(mdtId, specialtyId)]. *)
Definition tx_create_mdtSpecialty (id : string) (sid : Z) : tx unit := λ db,
  match specialties db !! sid with
  | None => Throw "Foreign key constraint failed"
  | Some _ =>
      match mdtSpecialties db !! (id, sid) with
      | Some _ => Throw "Unique constraint failed"
      | None => Done (set_mdtSpecialties (insert (id, sid) false) db) ()
      end
  end.

(** [where: { userType: 'EXTERNAL',
              specialties: { some: { id: { in: required } } } }] *)
Definition matches_required (required : list Z) (u : User) : bool :=
  bool_decide (userType u = EXTERNAL)
  && existsb (λ s, bool_decide (s ∈ required)) (userSpecialties u).

(** [tx.user.findMany({ where: ..., include: { specialties: true } })] *)
Definition findMany_externalDoctors (db : DB) (required : list Z)
    : list (string * User) :=
  filter (λ p, matches_required required p.2 = true) (map_to_list (users db)).

(** [doctor.specialties.find(specialty =>
       requiredSpecialties.includes(specialty.id))] *)
Definition matchingSpecialty (required : list Z) (u : User) : option Z :=
  List.find (λ s, bool_decide (s ∈ required)) (userSpecialties u).

(** [matchingSpecialty?.id || null]: the id 0 is falsy. *)
Definition specialtyId_or_null (o : option Z) : option Z :=
  match o with
  | Some s => if (s =? 0)%Z then None else Some s
  | None => None
  end.

(** [tx.mDTInvitation.create({ data })] *)
Definition tx_create_invitation (inv : MDTInvitation) : tx unit := λ db,
  match mdts db !! inv_mdtId inv with
  | None => Throw "Foreign key constraint failed"
  | Some _ =>
      Done (set_invitations (insert (fresh (dom (invitations db))) inv) db) ()
  end.

Definition invitation_for (id sender : string) (required : list Z)
    (doctor : string * User) : MDTInvitation :=
  {| inv_mdtId := id; senderId := sender; receiverId := doctor.1;
     inv_specialtyId := specialtyId_or_null (matchingSpecialty required doctor.2);
     inv_status := PENDING |}.

Definition mdtSpecialties_of (db : DB) (id : string) : list MDTSpecialty :=
  (λ p, {| rs_mdtId := p.1.1; rs_specialtyId := p.1.2; rs_filled := p.2 |})
    <$> filter (λ p, p.1.1 = id) (map_to_list (mdtSpecialties db)).

Definition invitations_of (db : DB) (id : string)
    : list (string * MDTInvitation) :=
  filter (λ p, inv_mdtId p.2 = id) (map_to_list (invitations db)).

Definition patientProfile_of (db : DB) (id : string)
    : list (string * PatientProfile) :=
  filter (λ p, profileMdtId p.2 = id) (map_to_list (patientProfiles db)).

Definition tx_findUnique_mdt (id : string) : tx (option MDTView) := λ db,
  Done db
    ((λ m, {| view_id := id; view_mdt := m;
              view_patientProfile := patientProfile_of db id;
              view_requiredSpecialties := mdtSpecialties_of db id;
              view_invitations := invitations_of db id |}) <$> mdts db !! id).

(** The callback of the transaction of [POST]. *)
Definition create_mdt_tx (creator : string) (body : CreateMDTBody)
    : tx (option MDTView) :=
  id ←ₜ tx_create_mdt (name body) creator ;;
  tx_connect_members id (creator :: localDoctors body) ;;ₜ
  tx_create_patientProfile id (patientProfile body) ;;ₜ
  tx_forM (tx_create_mdtSpecialty id) (requiredSpecialties body) ;;ₜ
  db ←ₜ tx_get ;;
  tx_forM (λ doctor,
      tx_create_invitation
        (invitation_for id creator (requiredSpecialties body) doctor))
    (findMany_externalDoctors db (requiredSpecialties body)) ;;ₜ
  tx_findUnique_mdt id.

Definition POST_mdt (db : DB) (session : option string) (body : CreateMDTBody)
    : DB * response (option MDTView) :=
  let checks : guard string :=
    e ← require_session session;
    u ← require_user db e "User not found";
    if bool_decide (userType u.2 ≠ LOCAL) then
      reject 403 "Only local users can create MDTs"
    else pass u.1 in
  match checks with
  | inr (st, msg) => (db, Error st msg)
  | inl creator =>
      match transaction (create_mdt_tx creator body) db with
      | (db', inl v) => (db', Json 200 v)
      | (db', inr e) => (db', Error 500 e)
      end
  end.

(** ** One invitation: app/api/mdt/invitations/[id]/route.ts *)

(** The [catch] of a handler: anything thrown becomes a 500 response. *)
Definition thrown {A} (msg : string) : guard A := reject 500 msg.

(** [GET]: the authorization test is
    [invitation.mdt.members.some(member => member.id === user.id)
       || invitation.sender.firstName]; otherwise the handler looks for the
    invitation with [receiverId: user.id]. *)
Definition GET_invitation (db : DB) (session : option string) (id : string)
    : response (string * MDTInvitation) :=
  let checks : guard MDTInvitation :=
    e ← require_session session;
    u ← require_user db e "User not found";
    match invitations db !! id with
    | None => reject 404 "Invitation not found"
    | Some invitation =>
        match mdts db !! inv_mdtId invitation,
              users db !! senderId invitation with
        | Some m, Some sender =>
            if isMember m u.1 || truthy (JStr (js (firstName sender))) then
              pass invitation
            else
              match invitations db !! id with
              | Some userInvitation =>
                  if bool_decide (receiverId userInvitation = u.1) then
                    pass invitation
                  else reject 403 "Not authorized to view this invitation"
              | None => reject 403 "Not authorized to view this invitation"
              end
        | _, _ => thrown "Failed to fetch invitation"
        end
    end in
  match checks with
  | inl invitation => Json 200 (id, invitation)
  | inr (st, msg) => Error st msg
  end.

(** The [InvitationStatus] a string of the request names. *)
Definition parse_status (s : string) : option InvitationStatus :=
  if String.eqb s "PENDING" then Some PENDING
  else if String.eqb s "ACCEPTED" then Some ACCEPTED
  else if String.eqb s "DECLINED" then Some DECLINED
  else if String.eqb s "CANCELLED" then Some CANCELLED
  else None.

Definition set_status (st : InvitationStatus) (i : MDTInvitation) : MDTInvitation :=
  {| inv_mdtId := inv_mdtId i; senderId := senderId i;
     receiverId := receiverId i; inv_specialtyId := inv_specialtyId i;
     inv_status := st |}.

(** [rs => rs.specialtyId === invitation.specialtyId && !rs.filled]; a
    number is never [===] to [null]. *)
Definition slot_available (invitation : MDTInvitation) (rs : MDTSpecialty) : bool :=
  match inv_specialtyId invitation with
  | Some s => (rs_specialtyId rs =? s)%Z
  | None => false
  end && negb (rs_filled rs).

(** What [PATCH] has read when it opens its transaction. *)
Record Snapshot := {
  snap_user : string;
  snap_invitation : MDTInvitation;
  snap_status : InvitationStatus
}.

(** [PATCH] up to the transaction: every read and every guard. *)
Definition PATCH_invitation_checks (db : DB) (session : option string)
    (id : string) (status : string) : guard Snapshot :=
  e ← require_session session;
  st ← (if String.eqb status "ACCEPTED" then pass ACCEPTED
        else if String.eqb status "DECLINED" then pass DECLINED
        else reject 400 "Invalid status");
  u ← require_user db e "User not found";
  match invitations db !! id with
  | None => reject 404 "Invitation not found"
  | Some invitation =>
      match mdts db !! inv_mdtId invitation with
      | None => thrown "Failed to update invitation"
      | Some _ =>
          if bool_decide (receiverId invitation ≠ u.1) then
            reject 403 "Not authorized to respond to this invitation"
          else if bool_decide (inv_status invitation ≠ PENDING) then
            reject 400 "Invitation has already been responded to"
          else
            let requiredSpecialty :=
              List.find (slot_available invitation)
                (mdtSpecialties_of db (inv_mdtId invitation)) in
            if bool_decide (st = ACCEPTED)
               && bool_decide (requiredSpecialty = None) then
              reject 400 "This specialty position has already been filled"
            else
              pass {| snap_user := u.1; snap_invitation := invitation;
                      snap_status := st |}
      end
  end.

(** [tx.mDTInvitation.update({ where: { id }, data: { status } })] *)
Definition tx_update_invitation (id : string) (st : InvitationStatus)
    : tx MDTInvitation := λ db,
  match invitations db !! id with
  | None => Throw "Record to update not found"
  | Some i =>
      Done (set_invitations (insert id (set_status st i)) db) (set_status st i)
  end.

(** [tx.mDTSpecialty.update({ where: { mdtId_specialtyId }, data: { filled: true } })];
    [invitation.specialtyId!] is [null] for an invitation without specialty,
    which the client rejects. *)
Definition tx_fill_mdtSpecialty (id : string) (sid : option Z) : tx unit := λ db,
  match sid with
  | None => Throw "Argument specialtyId must not be null"
  | Some s =>
      match mdtSpecialties db !! (id, s) with
      | None => Throw "Record to update not found"
      | Some _ => Done (set_mdtSpecialties (insert (id, s) true) db) ()
      end
  end.

(** The [where] of the [updateMany]. *)
Definition competing (id : string) (invitation : MDTInvitation)
    (j : string) (other : MDTInvitation) : bool :=
  bool_decide (inv_mdtId other = inv_mdtId invitation)
  && bool_decide (inv_specialtyId other = inv_specialtyId invitation)
  && bool_decide (inv_status other = PENDING)
  && bool_decide (j ≠ id).

(** [tx.mDTInvitation.updateMany({ where, data: { status: 'CANCELLED' } })] *)
Definition tx_cancel_competing (id : string) (invitation : MDTInvitation)
    : tx unit :=
  tx_modify (set_invitations (map_imap (λ j other,
    Some (if competing id invitation j other then set_status CANCELLED other
          else other)))).

(** The callback of the transaction of [PATCH]. *)
Definition respond_tx (id : string) (s : Snapshot) : tx MDTInvitation :=
  updatedInvitation ←ₜ tx_update_invitation id (snap_status s) ;;
  (if bool_decide (snap_status s = ACCEPTED) then
     tx_connect_members (inv_mdtId (snap_invitation s)) [snap_user s] ;;ₜ
     tx_fill_mdtSpecialty (inv_mdtId (snap_invitation s))
       (inv_specialtyId (snap_invitation s)) ;;ₜ
     tx_cancel_competing id (snap_invitation s)
   else tx_ret ()) ;;ₜ
  tx_ret updatedInvitation.

(** [PATCH] from the transaction on. *)
Definition PATCH_invitation_commit (db : DB) (id : string) (s : Snapshot)
    : DB * response MDTInvitation :=
  match transaction (respond_tx id s) db with
  | (db', inl r) => (db', Json 200 r)
  | (db', inr _) => (db', Error 500 "Failed to update invitation")
  end.

Definition PATCH_invitation (db : DB) (session : option string) (id : string)
    (status : string) : DB * response MDTInvitation :=
  match PATCH_invitation_checks db session id status with
  | inl s => PATCH_invitation_commit db id s
  | inr (st, msg) => (db, Error st msg)
  end.

(** [DELETE]: the sender withdraws a pending invitation. *)
Definition DELETE_invitation (db : DB) (session : option string) (id : string)
    : DB * response string :=
  let checks : guard MDTInvitation :=
    e ← require_session session;
    u ← require_user db e "User not found";
    match invitations db !! id with
    | None => reject 404 "Invitation not found"
    | Some invitation =>
        if bool_decide (senderId invitation ≠ u.1) then
          reject 403 "Not authorized to cancel this invitation"
        else if bool_decide (inv_status invitation ≠ PENDING) then
          reject 400 "Cannot cancel a non-pending invitation"
        else pass invitation
    end in
  match checks with
  | inl invitation =>
      (set_invitations (insert id (set_status CANCELLED invitation)) db,
       Json 200 "Invitation cancelled successfully")
  | inr (st, msg) => (db, Error st msg)
  end.

(** ** Invitations of the caller: app/api/mdt/invitations/route.ts *)

(** [prisma.mDTInvitation.findFirst({ where: { mdtId, receiverId, status: 'PENDING' } })] *)
Definition findFirst_pending (db : DB) (mdtId receiver : string)
    : option (string * MDTInvitation) :=
  snd <$> list_find
    (λ p, inv_mdtId p.2 = mdtId ∧ receiverId p.2 = receiver
          ∧ inv_status p.2 = PENDING)
    (map_to_list (invitations db)).

(** [POST]: a direct invitation.  The created row gets no [specialtyId]; its
    status is the column's default, [PENDING]. *)
Definition POST_invitation (db : DB) (session : option string)
    (mdtId receiverEmail : string) : DB * response (string * MDTInvitation) :=
  let checks : guard MDTInvitation :=
    e ← require_session session;
    sender ← require_user db e "Sender not found";
    if bool_decide (userType sender.2 ≠ LOCAL) then
      reject 403 "Only local users can send invitations"
    else
      receiver ← require_user db receiverEmail "Receiver not found";
      match findFirst_pending db mdtId receiver.1 with
      | Some _ => reject 400 "Invitation already exists"
      | None =>
          match mdts db !! mdtId with
          | None => thrown "Failed to create invitation"
          | Some _ =>
              pass {| inv_mdtId := mdtId; senderId := sender.1;
                      receiverId := receiver.1; inv_specialtyId := None;
                      inv_status := PENDING |}
          end
      end in
  match checks with
  | inl invitation =>
      let id := fresh (dom (invitations db)) in
      (set_invitations (insert id invitation) db, Json 200 (id, invitation))
  | inr (st, msg) => (db, Error st msg)
  end.

(** [PATCH]: [prisma.mDTInvitation.update({ where: { id: invitationId,
    receiverId: user.id }, data: { status } })], then the membership when
    the new status is ['ACCEPTED']; the two writes are separate calls. *)
Definition PATCH_invitations (db : DB) (session : option string)
    (invitationId status : string) : DB * response (string * MDTInvitation) :=
  let checks : guard (string * MDTInvitation * InvitationStatus) :=
    e ← require_session session;
    u ← require_user db e "User not found";
    match invitations db !! invitationId, parse_status status with
    | Some i, Some st =>
        if bool_decide (receiverId i = u.1) then pass (u.1, i, st)
        else thrown "Failed to update invitation"
    | _, _ => thrown "Failed to update invitation"
    end in
  match checks with
  | inl (uid, i, st) =>
      let db1 := set_invitations (insert invitationId (set_status st i)) db in
      if bool_decide (st = ACCEPTED) then
        match tx_connect_members (inv_mdtId i) [uid] db1 with
        | Done db2 _ => (db2, Json 200 (invitationId, set_status st i))
        | Throw _ => (db1, Error 500 "Failed to update invitation")
        end
      else (db1, Json 200 (invitationId, set_status st i))
  | inr (st, msg) => (db, Error st msg)
  end.

(** ** Concurrent responses *)

(** Where a [PATCH] request stands: it has arrived, it has passed its guards
    and holds what it read, or it has answered.  The guards and the
    transaction are separate round trips to the store, so requests of other
    clients can run between them. *)
Inductive progress :=
  | Arrived
  | Checked (s : Snapshot)
  | Answered (r : response MDTInvitation).

Record PatchRequest := {
  rq_session : option string;
  rq_id : string;
  rq_status : string
}.

Definition step (rq : PatchRequest) (db : DB) (p : progress) : DB * progress :=
  match p with
  | Arrived =>
      match PATCH_invitation_checks db (rq_session rq) (rq_id rq) (rq_status rq) with
      | inl s => (db, Checked s)
      | inr (st, msg) => (db, Answered (Error st msg))
      end
  | Checked s =>
      let (db', r) := PATCH_invitation_commit db (rq_id rq) s in
      (db', Answered r)
  | Answered r => (db, Answered r)
  end.

(** A schedule names, turn by turn, which of two requests moves:
    [false] the first, [true] the second. *)
Fixpoint run (rq1 rq2 : PatchRequest) (schedule : list bool)
    (db : DB) (p1 p2 : progress) : DB * progress * progress :=
  match schedule with
  | [] => (db, p1, p2)
  | false :: rest =>
      let (db', p1') := step rq1 db p1 in run rq1 rq2 rest db' p1' p2
  | true :: rest =>
      let (db', p2') := step rq2 db p2 in run rq1 rq2 rest db' p1 p2'
  end.

(** ** Signup: the schema parse of app/api/auth/signup/route.ts *)

Record SignUpBody := {
  b_firstName : jsvalue;
  b_lastName : jsvalue;
  b_email : jsvalue;
  b_password : jsvalue;
  b_specialties : option (list jsvalue);
  b_userType : jsvalue;
  b_hospital : jsvalue;
  b_referralCode : jsvalue;
  b_professionalRegistrationNumber : jsvalue
}.

(** [z.string().min(n)] *)
Definition z_string_min (n : nat) (v : jsvalue) : bool :=
  match v with
  | JStr s => (n <=? List.length s)%nat
  | _ => false
  end.

(** [z.array(z.string())]; [None] is a field that is not an array. *)
Definition z_array_string (v : option (list jsvalue)) : bool :=
  match v with
  | Some l => forallb is_string l
  | None => false
  end.

(** [z.enum(['LOCAL', 'EXTERNAL'])] *)
Definition z_enum_userType (v : jsvalue) : option UserType :=
  match v with
  | JStr s =>
      if bool_decide (s = js "LOCAL") then Some LOCAL
      else if bool_decide (s = js "EXTERNAL") then Some EXTERNAL
      else None
  | _ => None
  end.

Section Signup.

(** [z.string().email()] on a string: the address test of the validation
    library. *)
Variable email_ok : jsstring → bool.

Definition z_string_email (v : jsvalue) : bool :=
  match v with
  | JStr s => email_ok s
  | _ => false
  end.

(** The fields of [baseSignUpSchema]. *)
Definition baseSignUpSchema (b : SignUpBody) : bool :=
  z_string_min 2 (b_firstName b)
  && z_string_min 2 (b_lastName b)
  && z_string_email (b_email b)
  && z_string_min 8 (b_password b)
  && z_array_string (b_specialties b)
  && bool_decide (is_Some (z_enum_userType (b_userType b))).

Definition localSignUpSchema (b : SignUpBody) : bool :=
  baseSignUpSchema b
  && z_string_min 1 (b_hospital b)
  && z_string_min 1 (b_referralCode b).

Definition externalSignUpSchema (b : SignUpBody) : bool :=
  baseSignUpSchema b
  && z_string_min 1 (b_professionalRegistrationNumber b).

(** [body.userType === 'LOCAL' ? localSignUpSchema.parse(body)
                               : externalSignUpSchema.parse(body)];
    a [ZodError] is answered with 400 ['Invalid data']. *)
Definition POST_signup_parse (b : SignUpBody) : guard SignUpBody :=
  let valid :=
    if bool_decide (b_userType b = JStr (js "LOCAL")) then localSignUpSchema b
    else externalSignUpSchema b in
  if valid then pass b else reject 400 "Invalid data".

End Signup.

(** The password rule of the signup form (app/external_signup/page.tsx):
    [.min(8).regex(/^(?=.*[a-z])(?=.*[A-Z])(?=.*\d)/)]. *)
Definition is_lower (c : N) : bool := ((0x61 <=? c) && (c <=? 0x7A))%N.
Definition is_upper (c : N) : bool := ((0x41 <=? c) && (c <=? 0x5A))%N.
Definition is_digit (c : N) : bool := ((0x30 <=? c) && (c <=? 0x39))%N.

Definition form_password_ok (s : jsstring) : bool :=
  (8 <=? List.length s)%nat
  && existsb is_lower s && existsb is_upper s && existsb is_digit s.

(** ** Integrity of the store *)

(** The foreign key of the invitation table: the MDT of an invitation is a
    row of the MDT table. *)
Definition foreign_keys (db : DB) : Prop :=
  ∀ (i : string) (inv : MDTInvitation),
    invitations db !! i = Some inv → is_Some (mdts db !! inv_mdtId inv).

(** Specialty ids are serial numbers of the store, which start at 1. *)
Definition serial_specialties (db : DB) : Prop :=
  ∀ sid : Z, is_Some (specialties db !! sid) → sid ≠ 0%Z.

(** [db'] keeps the specialties and the MDTs of [db], and an invitation of
    [db'] either refers to an MDT of [db'] or has the MDT it had in [db]. *)
Definition keeps (db db' : DB) : Prop :=
  specialties db' = specialties db
  ∧ (∀ k, is_Some (mdts db !! k) → is_Some (mdts db' !! k))
  ∧ (∀ j inv', invitations db' !! j = Some inv' →
       is_Some (mdts db' !! inv_mdtId inv')
       ∨ ∃ inv, invitations db !! j = Some inv
              ∧ inv_mdtId inv' = inv_mdtId inv).

(** ** What the handlers establish

    The facts the guards of a handler establish and the rows its
    transaction writes, as the statements below use them. *)

(** What the guards of [PATCH] establish. *)
Record respond_ready (db : DB) (session : option string) (id : string)
    (st : InvitationStatus) (s : Snapshot) : Prop := {
  ready_session : ∃ e, session = Some e ∧ e ≠ ""
                    ∧ ∃ u, user_by_email db e = Some u ∧ snap_user s = u.1;
  ready_invitation : invitations db !! id = Some (snap_invitation s);
  ready_mdt : is_Some (mdts db !! inv_mdtId (snap_invitation s));
  ready_receiver : receiverId (snap_invitation s) = snap_user s;
  ready_pending : inv_status (snap_invitation s) = PENDING;
  ready_status : snap_status s = st;
  ready_slot : st = ACCEPTED →
    ∃ sp, inv_specialtyId (snap_invitation s) = Some sp
        ∧ mdtSpecialties db !! (inv_mdtId (snap_invitation s), sp) = Some false
}.

(** The store after the transaction of an accepted response has run on
    [db], where the invitation is the row [current]: the four writes of the
    transaction, in the order of the source.  The MDT and the specialty are
    those of the invitation as the guards read it. *)
Definition accepted_store (db : DB) (id : string) (s : Snapshot)
    (current : MDTInvitation) (m : MDT) (sp : Z) : DB :=
  let invitation := snap_invitation s in
  set_invitations
    (map_imap (λ j other,
       Some (if competing id invitation j other
             then set_status CANCELLED other else other)))
    (set_mdtSpecialties (insert (inv_mdtId invitation, sp) true)
       (set_mdts (insert (inv_mdtId invitation)
            {| mdtName := mdtName m; creatorId := creatorId m;
               mdtStatus := mdtStatus m;
               members := members m ∪ list_to_set [snap_user s] |})
          (set_invitations (insert id (set_status ACCEPTED current)) db))).

(** The rows the transaction of [POST] writes. *)
Definition new_mdt (creator : string) (body : CreateMDTBody) : MDT :=
  {| mdtName := name body; creatorId := creator; mdtStatus := ACTIVE;
     members := ∅ ∪ list_to_set (creator :: localDoctors body) |}.

Definition new_patientProfile (id : string) (p : PatientProfileInput)
    : PatientProfile :=
  {| age := in_age p; gender := in_gender p; uniqueId := in_uniqueId p;
     medicalHistory := in_medicalHistory p; caseSummary := in_caseSummary p;
     profileMdtId := id;
     medications :=
       (λ med, {| medName := medName med; dosage := dosage med |})
         <$> in_medications p |}.

(** What a committed creation has written, with [id] the id of the new MDT. *)
Record created (db db' : DB) (creator : string) (body : CreateMDTBody)
    (id : string) (v : option MDTView) : Prop := {
  created_fresh : mdts db !! id = None;
  created_creator : is_Some (users db !! creator);
  created_locals : Forall (λ u, is_Some (users db !! u)) (localDoctors body);
  created_users : users db' = users db;
  created_catalog : specialties db' = specialties db;
  created_messages : messages db' = messages db;
  created_mdt : mdts db' = <[id := new_mdt creator body]> (mdts db);
  created_profile :
    patientProfiles db'
    = <[fresh (dom (patientProfiles db))
        := new_patientProfile id (patientProfile body)]> (patientProfiles db);
  created_required_nodup : NoDup (requiredSpecialties body);
  created_slots : ∀ sid, sid ∈ requiredSpecialties body →
    is_Some (specialties db !! sid)
    ∧ mdtSpecialties db !! (id, sid) = None
    ∧ mdtSpecialties db' !! (id, sid) = Some false;
  created_slots_old : ∀ k, is_Some (mdtSpecialties db !! k) →
    mdtSpecialties db' !! k = mdtSpecialties db !! k;
  created_slots_only : ∀ k, is_Some (mdtSpecialties db' !! k) →
    is_Some (mdtSpecialties db !! k)
    ∨ (k.1 = id ∧ k.2 ∈ requiredSpecialties body);
  created_invitations : ∃ ids : list string,
    length ids
      = length (findMany_externalDoctors db (requiredSpecialties body))
    ∧ Forall (λ i, invitations db !! i = None) ids
    ∧ map_to_list (invitations db')
      ≡ₚ zip ids (invitation_for id creator (requiredSpecialties body)
                    <$> findMany_externalDoctors db (requiredSpecialties body))
         ++ map_to_list (invitations db);
  created_view :
    v = Some {| view_id := id; view_mdt := new_mdt creator body;
                view_patientProfile := patientProfile_of db' id;
                view_requiredSpecialties := mdtSpecialties_of db' id;
                view_invitations := invitations_of db' id |}
}.

(** ** A sample store

    The scenario of the specification: the local user A, referred by the
    external user B, and the external specialists C (Cardiology) and D
    (Oncology, then Cardiology). *)
Module Sample.

Definition Cardiology : Z := 1.
Definition Oncology : Z := 2.
Definition Neurology : Z := 3.

Definition userA : User :=
  {| firstName := "Amal"; lastName := "Haddad"; email := "amal@clinic.example";
     userType := LOCAL; userSpecialties := [Neurology] |}.
Definition userB : User :=
  {| firstName := "Basil"; lastName := "Khoury"; email := "basil@hospital.example";
     userType := EXTERNAL; userSpecialties := [Neurology] |}.
Definition userC : User :=
  {| firstName := "Carla"; lastName := "Nasser"; email := "carla@hospital.example";
     userType := EXTERNAL; userSpecialties := [Cardiology] |}.
Definition userD : User :=
  {| firstName := "Dina"; lastName := "Saleh"; email := "dina@hospital.example";
     userType := EXTERNAL; userSpecialties := [Oncology; Cardiology] |}.
Definition userE : User :=
  {| firstName := "Elias"; lastName := "Farah"; email := "elias@hospital.example";
     userType := EXTERNAL; userSpecialties := [Cardiology] |}.

Definition sessionA : option string := Some "amal@clinic.example".
Definition sessionB : option string := Some "basil@hospital.example".
Definition sessionC : option string := Some "carla@hospital.example".
Definition sessionD : option string := Some "dina@hospital.example".
Definition sessionE : option string := Some "elias@hospital.example".

(** Users and specialties, no case yet. *)
Definition empty_store : DB :=
  {| users := list_to_map
       [("A", userA); ("B", userB); ("C", userC); ("D", userD); ("E", userE)];
     specialties := list_to_map
       [(Cardiology, "Cardiology"); (Oncology, "Oncology");
        (Neurology, "Neurology")];
     mdts := ∅; patientProfiles := ∅; mdtSpecialties := ∅;
     invitations := ∅; messages := ∅ |}.

Definition case_body : CreateMDTBody :=
  {| name := "Case 1";
     patientProfile :=
       {| in_age := 54; in_gender := FEMALE; in_uniqueId := "P-0001";
          in_medicalHistory := "hypertension";
          in_caseSummary := "chest pain";
          in_medications := [{| medName := "Aspirin"; dosage := "75mg" |}] |};
     localDoctors := [];
     requiredSpecialties := [Cardiology; Oncology] |}.

(** The store after A has created the case: MDT ["0"] with the slots
    Cardiology and Oncology and one pending invitation each to C, D and E. *)
Definition store : DB := (POST_mdt empty_store sessionA case_body).1.

(** The same request with a required specialty listed twice. *)
Definition duplicate_body : CreateMDTBody :=
  {| name := "Case 2"; patientProfile := patientProfile case_body;
     localDoctors := [];
     requiredSpecialties := [Cardiology; Cardiology] |}.

(** The store after D has accepted the Oncology invitation ["2"]. *)
Definition store_D_accepted : DB :=
  (PATCH_invitation store sessionD "2" "ACCEPTED").1.

(** C and E answer the two Cardiology invitations ["0"] and ["1"]. *)
Definition acceptC : PatchRequest :=
  {| rq_session := sessionC; rq_id := "0"; rq_status := "ACCEPTED" |}.
Definition acceptE : PatchRequest :=
  {| rq_session := sessionE; rq_id := "1"; rq_status := "ACCEPTED" |}.

(** A signup request of an external specialist whose password has eight
    lower-case letters and nothing else. *)
Definition weak_signup : SignUpBody :=
  {| b_firstName := JStr (js "Farid");
     b_lastName := JStr (js "Aziz");
     b_email := JStr (js "farid@hospital.example");
     b_password := JStr (js "password");
     b_specialties := Some [JStr (js "1")];
     b_userType := JStr (js "EXTERNAL");
     b_hospital := JUndefined;
     b_referralCode := JUndefined;
     b_professionalRegistrationNumber := JStr (js "REG-2041") |}.

End Sample.

(** ** Listings *)

(** The [createdAt] column of an invitation and the [updatedAt] column of an
    MDT are not among the columns of [MDTInvitation] and [MDT]; the two
    listings that order by them take the column as a function of the row
    id. *)
Definition invitation_newer (invitedAt : string → Z)
    (a b : string * MDTInvitation) : Prop :=
  (invitedAt b.1 ≤ invitedAt a.1)%Z.

#[global] Instance invitation_newer_dec invitedAt a b :
  Decision (invitation_newer invitedAt a b).
Proof. unfold invitation_newer. apply _. Defined.

(** [where: { receiverId: user.id, status: 'PENDING' }] *)
Definition pending_of (db : DB) (uid : string) : list (string * MDTInvitation) :=
  filter (λ p, receiverId p.2 = uid ∧ inv_status p.2 = PENDING)
    (map_to_list (invitations db)).

(** [GET] of app/api/mdt/invitations/route.ts:
    [prisma.mDTInvitation.findMany({ where: ..., orderBy: { createdAt: 'desc' } })]. *)
Definition GET_invitations (invitedAt : string → Z) (db : DB)
    (session : option string) : response (list (string * MDTInvitation)) :=
  let checks : guard string :=
    e ← require_session session;
    u ← require_user db e "User not found";
    pass u.1 in
  match checks with
  | inl uid =>
      Json 200
        (merge_sort (invitation_newer invitedAt) (pending_of db uid))
  | inr (st, msg) => Error st msg
  end.

Definition createdAt_ge (a b : string * Message) : Prop :=
  (createdAt b.2 ≤ createdAt a.2)%Z.

#[global] Instance createdAt_ge_dec a b : Decision (createdAt_ge a b).
Proof. unfold createdAt_ge. apply _. Defined.

(** [messages: { orderBy: { createdAt: 'desc' }, take: 1 }] *)
Definition lastMessage (db : DB) (id : string) : list (string * Message) :=
  take 1 (merge_sort createdAt_ge
            (filter (λ p, msg_mdtId p.2 = id) (map_to_list (messages db)))).

Definition mdt_newer (updatedAt : string → Z) (a b : string * MDT) : Prop :=
  (updatedAt b.1 ≤ updatedAt a.1)%Z.

#[global] Instance mdt_newer_dec updatedAt a b :
  Decision (mdt_newer updatedAt a b).
Proof. unfold mdt_newer. apply _. Defined.

(** An entry of the dashboard listing. *)
Record MDTListItem := {
  item_id : string;
  item_mdt : MDT;
  item_messages : list (string * Message);
  item_patientProfile : list (string * PatientProfile);
  item_requiredSpecialties : list MDTSpecialty
}.

Definition list_item (db : DB) (p : string * MDT) : MDTListItem :=
  {| item_id := p.1; item_mdt := p.2;
     item_messages := lastMessage db p.1;
     item_patientProfile := patientProfile_of db p.1;
     item_requiredSpecialties := mdtSpecialties_of db p.1 |}.

(** [where: { members: { some: { id: user.id } }, status: 'ACTIVE' }] *)
Definition active_mdts_of (db : DB) (uid : string) : list (string * MDT) :=
  filter (λ p, uid ∈ members p.2 ∧ mdtStatus p.2 = ACTIVE)
    (map_to_list (mdts db)).

(** [GET] of app/api/mdts/route.ts:
    [prisma.mDT.findMany({ where: ..., include: ...,
      orderBy: { updatedAt: 'desc' } })]. *)
Definition GET_mdts (updatedAt : string → Z) (db : DB)
    (session : option string) : response (list MDTListItem) :=
  let checks : guard string :=
    e ← require_session session;
    u ← require_user db e "User not found";
    pass u.1 in
  match checks with
  | inl uid =>
      Json 200
        (list_item db
           <$> merge_sort (mdt_newer updatedAt) (active_mdts_of db uid))
  | inr (st, msg) => Error st msg
  end.

(** ** One MDT: app/api/mdts/[id]/route.ts *)

(** [messages: { orderBy: { createdAt: 'desc' }, take: 5 }] *)
Definition recentMessages (db : DB) (id : string) : list (string * Message) :=
  take 5 (merge_sort createdAt_ge
            (filter (λ p, msg_mdtId p.2 = id) (map_to_list (messages db)))).

(** What [findFirst] and [update] return with their [include]. *)
Definition mdt_detail (db : DB) (id : string) (m : MDT) : MDTListItem :=
  {| item_id := id; item_mdt := m;
     item_messages := recentMessages db id;
     item_patientProfile := patientProfile_of db id;
     item_requiredSpecialties := mdtSpecialties_of db id |}.

(** [GET]: [prisma.mDT.findFirst({ where: { id: params.id,
      members: { some: { id: user.id } } }, include: ... })]. *)
Definition GET_mdt (db : DB) (session : option string) (id : string)
    : response MDTListItem :=
  let checks : guard MDT :=
    e ← require_session session;
    u ← require_user db e "User not found";
    match mdts db !! id with
    | Some m =>
        if isMember m u.1 then pass m else reject 404 "MDT not found"
    | None => reject 404 "MDT not found"
    end in
  match checks with
  | inl m => Json 200 (mdt_detail db id m)
  | inr (st, msg) => Error st msg
  end.

(** The fields of the body of [PUT] that the handler reads; [None] is a
    field that is [undefined], which the update leaves as it is. *)
Record UpdateMDTBody := {
  up_name : option string;
  up_age : option Z;
  up_uniqueId : option string;
  up_gender : option Gender;
  up_medicalHistory : option string;
  up_caseSummary : option string
}.

Definition edited_mdt (body : UpdateMDTBody) (m : MDT) : MDT :=
  {| mdtName := default (mdtName m) (up_name body);
     creatorId := creatorId m; mdtStatus := mdtStatus m;
     members := members m |}.

Definition edited_profile (body : UpdateMDTBody) (p : PatientProfile)
    : PatientProfile :=
  {| age := default (age p) (up_age body);
     gender := default (gender p) (up_gender body);
     uniqueId := default (uniqueId p) (up_uniqueId body);
     medicalHistory := default (medicalHistory p) (up_medicalHistory body);
     caseSummary := default (caseSummary p) (up_caseSummary body);
     profileMdtId := profileMdtId p;
     medications := medications p |}.

(** [prisma.mDT.update({ where: { id }, data: { name,
      patientProfile: { update: { ... } } } })]: one statement. *)
Definition edited_store (db : DB) (id : string) (m : MDT)
    (body : UpdateMDTBody) : DB :=
  set_patientProfiles
    (fmap (λ p, if bool_decide (profileMdtId p = id)
                then edited_profile body p else p))
    (set_mdts (insert id (edited_mdt body m)) db).

(** [PUT]: the caller is the creator of the MDT; the nested update throws
    when the MDT has no patient profile. *)
Definition PUT_mdt (db : DB) (session : option string) (id : string)
    (body : UpdateMDTBody) : DB * response MDTListItem :=
  let checks : guard MDT :=
    e ← require_session session;
    u ← require_user db e "User not found";
    match mdts db !! id with
    | Some existingMDT =>
        if bool_decide (creatorId existingMDT = u.1) then
          match patientProfile_of db id with
          | [] => thrown "Failed to update MDT"
          | _ => pass existingMDT
          end
        else
          reject 404 "MDT not found or you do not have permission to edit it"
    | None =>
        reject 404 "MDT not found or you do not have permission to edit it"
    end in
  match checks with
  | inl m =>
      let db' := edited_store db id m body in
      (db', Json 200 (mdt_detail db' id (edited_mdt body m)))
  | inr (st, msg) => (db, Error st msg)
  end.

(** ** The local doctors: app/api/users/local/route.ts *)

(** An entry of [formattedDoctors]. *)
Record LocalDoctor := {
  doc_id : string;
  doc_name : string;
  doc_email : string;
  doc_specialties : list Z
}.

(** [orderBy: { firstName: 'asc' }] with the order [collate] of the store on
    text. *)
Definition firstName_le (collate : string → string → bool)
    (a b : string * User) : Prop :=
  collate (firstName a.2) (firstName b.2) = true.

#[global] Instance firstName_le_dec collate a b :
  Decision (firstName_le collate a b).
Proof. unfold firstName_le. apply _. Defined.

(** [GET]: the handler reads the address of the session and no user row. *)
Definition GET_users_local (collate : string → string → bool) (db : DB)
    (session : option string) : response (list LocalDoctor) :=
  match require_session session with
  | inl e =>
      let localDoctors :=
        merge_sort (firstName_le collate)
          (filter (λ p, userType p.2 = LOCAL ∧ email p.2 ≠ e)
             (map_to_list (users db))) in
      Json 200
        ((λ doctor,
            {| doc_id := doctor.1;
               doc_name := firstName doctor.2 +:+ " " +:+ lastName doctor.2;
               doc_email := email doctor.2;
               doc_specialties := userSpecialties doctor.2 |})
           <$> localDoctors)
  | inr (st, msg) => Error st msg
  end.

(** ** The pages that call the handlers *)

(** [handleInvitationResponse] of app/(auth)/mdt/invites/page.tsx: after a
    response that is [ok] the page drops the invitation from the list it
    shows, otherwise it keeps the list. *)
Definition handleInvitationResponse {A} (ok : bool) (invitationId : string)
    (prevInvitations : list (string * A)) : list (string * A) :=
  if ok then filter (λ inv, inv.1 ≠ invitationId) prevInvitations
  else prevInvitations.

(** [response.ok]: a status from 200 to 299. *)
Definition response_ok {A} (r : response A) : bool :=
  (200 <=? status_of r)%Z && (status_of r <=? 299)%Z.

(** [handleSendMessage] of the case page: the content the page posts for
    the text of the input box; nothing when the trimmed text is empty or a
    message is being sent. *)
Definition handleSendMessage (newMessage : jsstring) (sendingMessage : bool)
    : option jsvalue :=
  if negb (truthy (JStr (trim newMessage))) || sendingMessage then None
  else Some (JStr (trim newMessage)).

(** [handleOptionToggle] of app/components/MultiSelectDropdown.tsx. *)
Definition handleOptionToggle (selectedValues : list string)
    (optionId : string) : list string :=
  if bool_decide (optionId ∈ selectedValues) then
    filter (λ id, id ≠ optionId) selectedValues
  else (selectedValues ++ [optionId])%list.

(** [createMDTSchema] of the case creation page, on a body of the types of
    the route: [z.string().min(1)], [z.number().min(1).max(150)],
    [z.array(...).min(1)]. *)
Definition createMDTSchema (body : CreateMDTBody) : bool :=
  let nonempty (s : string) := negb (String.length s =? 0)%nat in
  let p := patientProfile body in
  nonempty (name body)
  && ((1 <=? in_age p)%Z && (in_age p <=? 150)%Z)
  && nonempty (in_uniqueId p)
  && nonempty (in_medicalHistory p)
  && nonempty (in_caseSummary p)
  && forallb (λ med, nonempty (medName med) && nonempty (dosage med))
       (in_medications p)
  && negb (List.length (localDoctors body) =? 0)%nat
  && negb (List.length (requiredSpecialties body) =? 0)%nat.

(** [handleSpecialtyChange] of the case creation page. *)
Definition handleSpecialtyChange (prev : list Z) (specialtyId : Z)
    (checked : bool) : list Z :=
  if checked then (prev ++ [specialtyId])%list
  else filter (λ id, id ≠ specialtyId) prev.

(** ** The route guard: middleware.ts *)

(** [pathname.startsWith(p)] *)
Definition startsWith (pathname p : string) : bool :=
  String.prefix p pathname.

(** The [authorized] callback; [token] is whether the request carries a
    session token. *)
Definition authorized (token : bool) (pathname : string) : bool :=
  let isProtectedRoute :=
    startsWith pathname "/dashboard"
    || startsWith pathname "/mdt"
    || (startsWith pathname "/api/mdts" || startsWith pathname "/api/mdt") in
  negb isProtectedRoute || token.

(** ** The user directory: app/api/auth/signup/route.ts and
       app/api/auth/validate-referral/route.ts *)

(** Modelled from the spec: the columns of a user row that the handlers of
    the cases do not read, kept in a table of their own under the id of the
    user.  [password] is the stored hash; [referralCode] is unique among
    the rows that have one. *)
Record Credentials := {
  password : string;
  hospital : option string;
  professionalRegistrationNumber : option string;
  referralCode : option string;
  referredBy : option string
}.

Record Directory := {
  dir_db : DB;
  credentials : gmap string Credentials
}.

(** [prisma.user.findUnique({ where: { referralCode: code } })] *)
Definition user_by_referralCode (dir : Directory) (code : string)
    : option (string * Credentials) :=
  snd <$> list_find (λ p, referralCode p.2 = Some code)
            (map_to_list (credentials dir)).

(** The referrer of a code, when it is an external professional. *)
Definition external_referrer (dir : Directory) (code : string)
    : option string :=
  match user_by_referralCode dir code with
  | Some r =>
      match users (dir_db dir) !! r.1 with
      | Some u => if bool_decide (userType u = EXTERNAL) then Some r.1 else None
      | None => None
      end
  | None => None
  end.

(** [GET] of the referral validation route; [code] is
    [searchParams.get('code')].  The user row of a row of [credentials] is
    a lookup in the other table here; in a directory that signups have
    built it is there. *)
Definition GET_validate_referral (dir : Directory) (code : option string)
    : response bool :=
  match code with
  | None => Error 400 "Referral code is required"
  | Some c =>
      if bool_decide (c = "") then Error 400 "Referral code is required"
      else
        match user_by_referralCode dir c with
        | None => Error 404 "Invalid referral code"
        | Some r =>
            match users (dir_db dir) !! r.1 with
            | Some u =>
                if bool_decide (userType u ≠ EXTERNAL) then
                  Error 400 "Invalid referral code"
                else Json 200 true
            | None => Error 500 "Failed to validate referral code"
            end
        end
  end.

(** [const chars = 'ABCDEFGHIJKLMNOPQRSTUVWXYZ0123456789'] *)
Definition chars : string := "ABCDEFGHIJKLMNOPQRSTUVWXYZ0123456789".

(** [s.charAt(i)]: the empty string out of range. *)
Definition charAt (s : string) (i : nat) : string :=
  match String.get i s with
  | Some c => String c EmptyString
  | None => ""
  end.

(** [Array.from({ length }, () => chars.charAt(i)).join('')] for the drawn
    indexes [i = Math.floor(Math.random() * chars.length)]. *)
Definition code_of (indexes : list nat) : string :=
  foldr (λ i acc, charAt chars i +:+ acc) "" indexes.

(** [generateUniqueReferralCode]: [rand] is the sequence of indexes the
    random source yields, eight per round; [fuel] bounds the rounds.  [None]
    is a loop that has not returned within the rounds [rand] allows. *)
Fixpoint generateUniqueReferralCode (fuel : nat) (dir : Directory)
    (rand : list nat) : option string :=
  match fuel with
  | O => None
  | S fuel' =>
      if (List.length rand <? 8)%nat then None
      else
        let code := code_of (take 8 rand) in
        match user_by_referralCode dir code with
        | None => Some code
        | Some _ => generateUniqueReferralCode fuel' dir (drop 8 rand)
        end
  end.

(** The string of a validated field. *)
Definition field_string (v : jsvalue) : jsstring :=
  match v with JStr s => s | _ => [] end.

(** What the handler takes from outside the repository: the address test of
    the validation library, the store's text of a JavaScript string, the
    password hash, [parseInt(id, 10)] ([None] is [NaN]) and the random
    source. *)
Record SignupEnv := {
  env_email_ok : jsstring → bool;
  env_text : jsstring → string;
  env_hash : jsstring → string;
  env_parseInt : jsstring → option Z;
  env_rand : list nat
}.

(** The specialty ids of the request, [None] when one is [NaN]. *)
Definition specialtyIds (env : SignupEnv) (b : SignUpBody) : option (list Z) :=
  mapM (λ v, env_parseInt env (field_string v))
       (default [] (b_specialties b)).

(** The directory with the row [u] and its columns [c] under the id [id]. *)
Definition with_user (dir : Directory) (id : string) (u : User)
    (c : Credentials) : Directory :=
  {| dir_db :=
       {| users := <[id := u]> (users (dir_db dir));
          specialties := specialties (dir_db dir);
          mdts := mdts (dir_db dir);
          patientProfiles := patientProfiles (dir_db dir);
          mdtSpecialties := mdtSpecialties (dir_db dir);
          invitations := invitations (dir_db dir);
          messages := messages (dir_db dir) |};
     credentials := <[id := c]> (credentials dir) |}.

(** The columns of the role: the referrer and the hospital of a local user,
    the registration number and a new referral code of an external user.
    [None] is a request whose code loop has not returned. *)
Definition signup_role (env : SignupEnv) (dir : Directory)
    (hashedPassword : string) (ut : UserType) (validatedData : SignUpBody)
    : option (guard Credentials) :=
  if bool_decide (ut = LOCAL) then
    Some
      match external_referrer dir
              (env_text env (field_string (b_referralCode validatedData))) with
      | None => reject 400 "Invalid referral code"
      | Some referrer =>
          pass {| password := hashedPassword;
                  hospital := Some (env_text env
                    (field_string (b_hospital validatedData)));
                  professionalRegistrationNumber := None;
                  referralCode := None;
                  referredBy := Some referrer |}
      end
  else
    match generateUniqueReferralCode
            (List.length (env_rand env)) dir (env_rand env) with
    | None => None
    | Some code =>
        Some (pass {| password := hashedPassword;
                      hospital := None;
                      professionalRegistrationNumber :=
                        Some (env_text env (field_string
                          (b_professionalRegistrationNumber validatedData)));
                      referralCode := Some code;
                      referredBy := None |})
    end.

(** [prisma.user.create({ data: userData })]: throws when a specialty id is
    [NaN] or is not a row of the catalogue.  [connect] links the user to a
    specialty once, however often the request lists its id. *)
Definition signup_create (env : SignupEnv) (dir : Directory) (mail : string)
    (ut : UserType) (validatedData : SignUpBody) (roleData : Credentials)
    : guard (User * Credentials) :=
  match specialtyIds env validatedData with
  | None => thrown "Failed to create account"
  | Some ids =>
      if forallb (λ sid,
            bool_decide (is_Some (specialties (dir_db dir) !! sid))) ids
      then
        pass ({| firstName :=
                   env_text env (field_string (b_firstName validatedData));
                 lastName :=
                   env_text env (field_string (b_lastName validatedData));
                 email := mail; userType := ut;
                 userSpecialties := remove_dups ids |}, roleData)
      else thrown "Failed to create account"
  end.

(** The steps of [POST] up to the insert. *)
Definition POST_signup_checks (env : SignupEnv) (dir : Directory)
    (b : SignUpBody) : option (guard (User * Credentials)) :=
  match POST_signup_parse (env_email_ok env) b with
  | inr err => Some (inr err)
  | inl validatedData =>
      let mail := env_text env (field_string (b_email validatedData)) in
      match user_by_email (dir_db dir) mail with
      | Some _ => Some (reject 400 "Email already registered")
      | None =>
          let hashedPassword :=
            env_hash env (field_string (b_password validatedData)) in
          match z_enum_userType (b_userType validatedData) with
          | None => Some (thrown "Failed to create account")
          | Some ut =>
              match signup_role env dir hashedPassword ut validatedData with
              | None => None
              | Some (inr err) => Some (inr err)
              | Some (inl roleData) =>
                  Some (signup_create env dir mail ut validatedData roleData)
              end
          end
      end
  end.

(** [POST] of app/api/auth/signup/route.ts; [None] is a request that has
    not been answered within the draws of the random source. *)
Definition POST_signup (env : SignupEnv) (dir : Directory) (b : SignUpBody)
    : option (Directory * response (string * User)) :=
  match POST_signup_checks env dir b with
  | None => None
  | Some (inl (u, c)) =>
      let id := fresh (dom (users (dir_db dir)) ∪ dom (credentials dir)) in
      Some (with_user dir id u c, Json 201 (id, u))
  | Some (inr (st, msg)) => Some (dir, Error st msg)
  end.

(** ** The seed of the specialties: prisma/seed.ts *)

(** Modelled from the spec: the specialty table, [{id, name (unique)}], with
    the sequence that numbers its rows. *)
Record Catalog := {
  cat_specialties : gmap Z string;
  cat_nextval : Z
}.

Definition seed_specialties : list string :=
  ["Cardiology"; "Dermatology"; "Emergency Medicine"; "Family Medicine";
   "Internal Medicine"; "Neurology"; "Obstetrics and Gynecology"; "Oncology";
   "Pediatrics"; "Psychiatry"; "Surgery"; "Other"].

(** [prisma.specialty.upsert({ where: { name }, update: {}, create: { name } })]:
    [None] when the insert meets a row under the next id. *)
Definition upsert_specialty (c : Catalog) (specialtyName : string)
    : option Catalog :=
  match list_find (λ p, p.2 = specialtyName) (map_to_list (cat_specialties c)) with
  | Some _ => Some c
  | None =>
      match cat_specialties c !! cat_nextval c with
      | Some _ => None
      | None =>
          Some {| cat_specialties :=
                    <[cat_nextval c := specialtyName]> (cat_specialties c);
                  cat_nextval := (cat_nextval c + 1)%Z |}
      end
  end.

(** [for (const specialtyName of specialties) await upsert]: the loop stops
    at the first upsert that throws; [false] is the exit with status 1. *)
Fixpoint seed_loop (names : list string) (c : Catalog) : Catalog * bool :=
  match names with
  | [] => (c, true)
  | specialtyName :: rest =>
      match upsert_specialty c specialtyName with
      | Some c' => seed_loop rest c'
      | None => (c, false)
      end
  end.

Definition main (c : Catalog) : Catalog * bool := seed_loop seed_specialties c.

(** ** Histories of requests *)

(** A request to one of the handlers that write to the store of the cases. *)
Inductive Request :=
  | ReqPostMessage (now : Z) (session : option string) (id : string)
      (content : jsvalue)
  | ReqCreateMdt (session : option string) (body : CreateMDTBody)
  | ReqUpdateMdt (session : option string) (id : string)
      (body : UpdateMDTBody)
  | ReqRespond (session : option string) (id status : string)
  | ReqWithdraw (session : option string) (id : string)
  | ReqInvite (session : option string) (mdtId receiverEmail : string)
  | ReqSetStatus (session : option string) (invitationId status : string).

(** The store after a request. *)
Definition handle (db : DB) (rq : Request) : DB :=
  match rq with
  | ReqPostMessage now session id content =>
      (POST_message db now session id content).1
  | ReqCreateMdt session body => (POST_mdt db session body).1
  | ReqUpdateMdt session id body => (PUT_mdt db session id body).1
  | ReqRespond session id status => (PATCH_invitation db session id status).1
  | ReqWithdraw session id => (DELETE_invitation db session id).1
  | ReqInvite session mdtId receiverEmail =>
      (POST_invitation db session mdtId receiverEmail).1
  | ReqSetStatus session invitationId status =>
      (PATCH_invitations db session invitationId status).1
  end.

(** The store after the requests of a history, one after the other. *)
Definition history (db : DB) (rqs : list Request) : DB := foldl handle db rqs.

(** A request that is not to the collection [PATCH] of
    app/api/mdt/invitations/route.ts. *)
Definition per_invitation (rq : Request) : Prop :=
  match rq with ReqSetStatus _ _ _ => False | _ => True end.

(** At most one invitation per slot is ACCEPTED, and the slot of an ACCEPTED
    invitation is filled. *)
Definition single_acceptance (db : DB) : Prop :=
  (∀ i j a b sp,
     invitations db !! i = Some a → invitations db !! j = Some b →
     inv_status a = ACCEPTED → inv_status b = ACCEPTED →
     inv_mdtId a = inv_mdtId b →
     inv_specialtyId a = Some sp → inv_specialtyId b = Some sp →
     i = j)
  ∧ (∀ i a sp,
       invitations db !! i = Some a → inv_status a = ACCEPTED →
       inv_specialtyId a = Some sp →
       mdtSpecialties db !! (inv_mdtId a, sp) = Some true).

(** At most one PENDING invitation per MDT and receiver. *)
Definition one_pending (db : DB) : Prop :=
  ∀ i j a b,
    invitations db !! i = Some a → invitations db !! j = Some b →
    inv_status a = PENDING → inv_status b = PENDING →
    inv_mdtId a = inv_mdtId b → receiverId a = receiverId b →
    i = j.

(** What [db'] has kept of [db]: the users, every MDT with its creator,
    its status and at least its members, every filled slot, every message
    unchanged, every patient profile with its MDT and its medications, and
    every invitation with its MDT, sender, receiver and specialty. *)
Record kept (db db' : DB) : Prop := {
  kept_users : users db' = users db;
  kept_specialties : specialties db' = specialties db;
  kept_mdts : ∀ k m, mdts db !! k = Some m →
    ∃ m', mdts db' !! k = Some m'
        ∧ creatorId m' = creatorId m
        ∧ mdtStatus m' = mdtStatus m ∧ members m ⊆ members m';
  kept_slots : ∀ k b, mdtSpecialties db !! k = Some b →
    ∃ b', mdtSpecialties db' !! k = Some b' ∧ (b = true → b' = true);
  kept_messages : ∀ k msg, messages db !! k = Some msg →
    messages db' !! k = Some msg;
  kept_profiles : ∀ k p, patientProfiles db !! k = Some p →
    ∃ p', patientProfiles db' !! k = Some p'
        ∧ profileMdtId p' = profileMdtId p
        ∧ medications p' = medications p;
  kept_invitations : ∀ k i, invitations db !! k = Some i →
    ∃ i', invitations db' !! k = Some i'
        ∧ inv_mdtId i' = inv_mdtId i ∧ senderId i' = senderId i
        ∧ receiverId i' = receiverId i
        ∧ inv_specialtyId i' = inv_specialtyId i
}.

(** Every message of the store is of an MDT of the store and by one of its
    members, and its content is a trimmed text of 1 to 2000 code units. *)
Definition messages_ok (db : DB) : Prop :=
  ∀ k msg, messages db !! k = Some msg →
    (∃ m, mdts db !! msg_mdtId msg = Some m ∧ msg_userId msg ∈ members m)
    ∧ (1 ≤ List.length (content msg) ≤ 2000)%nat
    ∧ trim (content msg) = content msg.

(** What signups keep of the directory: an address and a referral code
    belong to one user each, a LOCAL user is referred by an EXTERNAL user,
    an EXTERNAL user has a referral code, and the specialties of a user are
    rows of the catalogue. *)
Record directory_ok (dir : Directory) : Prop := {
  dok_emails : ∀ i j u v,
    users (dir_db dir) !! i = Some u → users (dir_db dir) !! j = Some v →
    email u = email v → i = j;
  dok_codes : ∀ i j c d code,
    credentials dir !! i = Some c → credentials dir !! j = Some d →
    referralCode c = Some code → referralCode d = Some code → i = j;
  dok_local : ∀ i u,
    users (dir_db dir) !! i = Some u → userType u = LOCAL →
    ∃ c r ru, credentials dir !! i = Some c ∧ referredBy c = Some r
            ∧ users (dir_db dir) !! r = Some ru ∧ userType ru = EXTERNAL;
  dok_external : ∀ i u,
    users (dir_db dir) !! i = Some u → userType u = EXTERNAL →
    ∃ c code, credentials dir !! i = Some c ∧ referralCode c = Some code;
  dok_specialties : ∀ i u,
    users (dir_db dir) !! i = Some u →
    Forall (λ sid, is_Some (specialties (dir_db dir) !! sid))
           (userSpecialties u)
}.

(** The sequence is positive, the ids of the rows are positive and below
    its next value, and a name belongs to one row. *)
Definition catalog_ok (c : Catalog) : Prop :=
  (0 < cat_nextval c)%Z
  ∧ (∀ k n, cat_specialties c !! k = Some n → (0 < k < cat_nextval c)%Z)
  ∧ (∀ i j n, cat_specialties c !! i = Some n →
              cat_specialties c !! j = Some n → i = j).

(** [specialtyName] is the name of a row. *)
Definition has_name (c : Catalog) (specialtyName : string) : Prop :=
  ∃ k, cat_specialties c !! k = Some specialtyName.

(** ** A sample directory *)
Module SampleDirectory.

(** The text of a string of ASCII code units. *)
Definition text_of (s : jsstring) : string :=
  String.string_of_list_ascii (Ascii.ascii_of_N <$> s).

(** The value of a string of decimal digits. *)
Definition decimal (s : jsstring) : option Z :=
  if bool_decide (s = []) then None
  else
    foldl (λ acc c,
             match acc with
             | Some n =>
                 if is_digit c then Some (10 * n + (Z.of_N c - 48))%Z
                 else None
             | None => None
             end) (Some 0%Z) s.

(** An environment whose random source yields the rounds [AAAAAAAA] and
    [BCD019AB]. *)
Definition env : SignupEnv :=
  {| env_email_ok := λ s, bool_decide (0x40%N ∈ s);
     env_text := text_of;
     env_hash := λ s, "$2a$12$" +:+ text_of (reverse s);
     env_parseInt := decimal;
     env_rand := [0; 0; 0; 0; 0; 0; 0; 0; 1; 2; 3; 26; 27; 35; 0; 1]%nat |}.

(** The specialties of the sample store and no user. *)
Definition no_users : Directory :=
  {| dir_db :=
       {| users := ∅; specialties := specialties Sample.empty_store;
          mdts := ∅; patientProfiles := ∅; mdtSpecialties := ∅;
          invitations := ∅; messages := ∅ |};
     credentials := ∅ |}.

Definition external_signup (first mail : string) : SignUpBody :=
  {| b_firstName := JStr (js first);
     b_lastName := JStr (js "Aziz");
     b_email := JStr (js mail);
     b_password := JStr (js "Passw0rd");
     b_specialties := Some [JStr (js "1")];
     b_userType := JStr (js "EXTERNAL");
     b_hospital := JUndefined;
     b_referralCode := JUndefined;
     b_professionalRegistrationNumber := JStr (js "REG-2041") |}.

Definition local_signup (code : string) : SignUpBody :=
  {| b_firstName := JStr (js "Lina");
     b_lastName := JStr (js "Odeh");
     b_email := JStr (js "lina@clinic.example");
     b_password := JStr (js "Passw0rd");
     b_specialties := Some [JStr (js "3")];
     b_userType := JStr (js "LOCAL");
     b_hospital := JStr (js "Clinic");
     b_referralCode := JStr (js code);
     b_professionalRegistrationNumber := JUndefined |}.

(** The directory after two external signups: the first user has the code
    [AAAAAAAA], the second, after one round that met it, [BCD019AB]. *)
Definition one_external : Directory :=
  default no_users
    (fst <$> POST_signup env no_users
               (external_signup "Farid" "farid@hospital.example")).

Definition two_externals : Directory :=
  default no_users
    (fst <$> POST_signup env one_external
               (external_signup "Fadi" "fadi@hospital.example")).

End SampleDirectory.

(** * Properties *)

(** ** Guards *)

Lemma require_session_pass (session : option string) (e : string) :
  require_session session = inl e ↔ session = Some e ∧ e ≠ "".
Proof.
  unfold require_session, pass, reject. destruct session as [e'|].
  - case_bool_decide as He; split.
    + discriminate.
    + intros [[= ->] Hne]. done.
    + intros [= ->]. done.
    + intros [[= ->] _]. done.
  - split; [discriminate|]. intros [[=] _].
Qed.

Lemma require_user_pass (db : DB) (e msg : string) (u : string * User) :
  require_user db e msg = inl u ↔ user_by_email db e = Some u.
Proof.
  unfold require_user, pass, reject.
  destruct (user_by_email db e); split; congruence.
Qed.

Lemma guard_bind_pass {A B} (f : A → guard B) (g : guard A) (b : B) :
  g ≫= f = inl b ↔ ∃ a, g = inl a ∧ f a = inl b.
Proof.
  destruct g as [a|err]; simpl; split.
  - intros Hf. by exists a.
  - by intros (a' & [= <-] & Hf).
  - discriminate.
  - by intros (a' & [=] & _).
Qed.

(** A found user is a row of the table, under its id. *)
Lemma user_by_email_lookup (db : DB) (e : string) (u : string * User) :
  user_by_email db e = Some u → users db !! u.1 = Some u.2 ∧ email u.2 = e.
Proof.
  unfold user_by_email. intros H.
  apply fmap_Some in H as ([i p] & Hfind & ->). simpl.
  apply list_find_Some in Hfind as (Hl & He & _).
  apply list_elem_of_lookup_2 in Hl. destruct p as [k v].
  by apply elem_of_map_to_list in Hl.
Qed.

(** ** Trimming *)

Lemma trim_nil : trim [] = [].
Proof. reflexivity. Qed.

Example trim_hello : trim (js "  hello world ") = js "hello world".
Proof. reflexivity. Qed.

(** No-break space, line separator and byte order mark are stripped too. *)
Example trim_unicode : trim [0xA0; 0x2028; 0x68; 0x69; 0xFEFF; 0x0A]%N = js "hi".
Proof. reflexivity. Qed.

Example trim_blank : trim (js "   ") = [].
Proof. reflexivity. Qed.

Lemma content_required_test (s : jsstring) :
  negb (truthy (JStr s)) || (List.length (trim s) =? 0)%nat
  = (List.length (trim s) =? 0)%nat.
Proof. destruct s; reflexivity. Qed.

(** ** Messaging log *)

Lemma POST_message_checks_pass (db : DB) (session : option string)
    (id : string) (v : jsvalue) (c : jsstring) (uid : string) :
  POST_message_checks db session id v = inl (c, uid) ↔
  ∃ e u m s, session = Some e ∧ e ≠ "" ∧ user_by_email db e = Some u
    ∧ v = JStr s ∧ c = trim s ∧ uid = u.1
    ∧ (1 ≤ List.length (trim s) ≤ 2000)%nat
    ∧ mdts db !! id = Some m ∧ uid ∈ members m.
Proof.
  unfold POST_message_checks. rewrite guard_bind_pass. split.
  - intros (e & He & H). apply require_session_pass in He as [-> Hne].
    apply guard_bind_pass in H as (u & Hu & H).
    apply require_user_pass in Hu.
    destruct v as [| | | |s|]; try discriminate.
    rewrite content_required_test in H.
    destruct (Nat.eqb_spec (List.length (trim s)) 0); [discriminate|].
    destruct (Nat.ltb_spec 2000 (List.length (trim s))); [discriminate|].
    destruct (mdts db !! id) as [m|] eqn:Hm; [|discriminate].
    unfold isMember in H. case_bool_decide; [|discriminate].
    injection H as <- <-. exists e, u, m, s. repeat split; auto; lia.
  - intros (e & u & m & s & -> & Hne & Hu & -> & -> & -> & Hlen & Hm & Hmem).
    exists e. split; [by apply require_session_pass|].
    apply guard_bind_pass. exists u. split; [by apply require_user_pass|].
    rewrite content_required_test.
    destruct (Nat.eqb_spec (List.length (trim s)) 0); [lia|].
    destruct (Nat.ltb_spec 2000 (List.length (trim s))); [lia|].
    rewrite Hm. unfold isMember. by rewrite bool_decide_eq_true_2.
Qed.

Lemma POST_message_pass (db : DB) (now : Z) (session : option string)
    (id : string) (v : jsvalue) (c : jsstring) (uid : string) :
  POST_message_checks db session id v = inl (c, uid) →
  POST_message db now session id v =
    (set_messages (insert (fresh (dom (messages db)))
       {| content := toWellFormed c; msg_userId := uid; msg_mdtId := id;
          createdAt := now |}) db,
     Json 201 (fresh (dom (messages db)),
       {| content := toWellFormed c; msg_userId := uid; msg_mdtId := id;
          createdAt := now |})).
Proof. unfold POST_message. by intros ->. Qed.

Lemma POST_message_reject (db : DB) (now : Z) (session : option string)
    (id : string) (v : jsvalue) (st : Z) (msg : string) :
  POST_message_checks db session id v = inr (st, msg) →
  POST_message db now session id v = (db, Error st msg).
Proof. unfold POST_message. by intros ->. Qed.

(** C7: for a member of the MDT, posting succeeds exactly when the trimmed
    content has 1 to 2000 characters; then the trimmed content is stored, as
    text, and answered with 201, and otherwise the request is answered with
    400 (a validation error) and the store is unchanged.  In particular 2000
    trimmed characters succeed and 2001 fail. *)
Theorem post_message_length_bounds (db : DB) (now : Z) (e id : string)
    (u : string * User) (m : MDT) (s : jsstring) :
  e ≠ "" →
  user_by_email db e = Some u →
  mdts db !! id = Some m →
  u.1 ∈ members m →
  let n := List.length (trim s) in
  let posted := {| content := toWellFormed (trim s); msg_userId := u.1;
                   msg_mdtId := id; createdAt := now |} in
  (is_json (POST_message db now (Some e) id (JStr s)).2 = true
     ↔ (1 ≤ n ≤ 2000)%nat)
  ∧ ((1 ≤ n ≤ 2000)%nat →
       ∃ mid, messages db !! mid = None
         ∧ POST_message db now (Some e) id (JStr s)
           = (set_messages (insert mid posted) db, Json 201 (mid, posted)))
  ∧ (¬ (1 ≤ n ≤ 2000)%nat →
       ∃ msg, POST_message db now (Some e) id (JStr s) = (db, Error 400 msg)).
Proof.
  intros Hne Hu Hm Hmem n posted.
  assert (Hok : (1 ≤ n ≤ 2000)%nat →
      POST_message_checks db (Some e) id (JStr s) = inl (trim s, u.1)).
  { intros Hn. apply POST_message_checks_pass. by exists e, u, m, s. }
  assert (Hko : ¬ (1 ≤ n ≤ 2000)%nat →
      ∃ msg, POST_message_checks db (Some e) id (JStr s) = inr (400%Z, msg)).
  { intros Hn. unfold POST_message_checks, require_session.
    rewrite bool_decide_eq_false_2 by done. simpl.
    apply require_user_pass with (msg := "User not found") in Hu.
    rewrite Hu. cbn -[trim Nat.ltb Nat.eqb].
    change (negb (List.length s =? 0)%nat) with (truthy (JStr s)).
    rewrite content_required_test. fold n.
    destruct (Nat.eqb_spec n 0); [by eexists|].
    destruct (Nat.ltb_spec 2000 n); [by eexists|]. lia. }
  split; [|split].
  - split.
    + intros Hj. destruct (decide (1 ≤ n ≤ 2000)%nat) as [|Hn]; [done|].
      destruct (Hko Hn) as [msg Hmsg].
      by rewrite (POST_message_reject _ _ _ _ _ _ _ Hmsg) in Hj.
    + intros Hn. by rewrite (POST_message_pass _ _ _ _ _ _ _ (Hok Hn)).
  - intros Hn. exists (fresh (dom (messages db))). split.
    + apply not_elem_of_dom, is_fresh.
    + by rewrite (POST_message_pass _ _ _ _ _ _ _ (Hok Hn)).
  - intros Hn. destruct (Hko Hn) as [msg Hmsg]. exists msg.
    by apply POST_message_reject.
Qed.

(** The listing is ascending in [createdAt]. *)
Lemma findMany_messages_sorted (db : DB) (id : string) :
  StronglySorted createdAt_le (findMany_messages db id).
Proof.
  apply StronglySorted_merge_sort.
  - intros a b c. unfold createdAt_le. lia.
  - intros a b. unfold createdAt_le. lia.
Qed.

Lemma findMany_messages_elem (db : DB) (id mid : string) (msg : Message) :
  (mid, msg) ∈ findMany_messages db id
  ↔ messages db !! mid = Some msg ∧ msg_mdtId msg = id.
Proof.
  unfold findMany_messages. rewrite merge_sort_Permutation.
  rewrite list_elem_of_filter, elem_of_map_to_list. simpl. tauto.
Qed.

(** C8: after a successful post, listing the messages of the same MDT (as
    the same caller) returns a list that contains the posted message, and
    the list is in ascending order of creation time.  The content of the
    posted message is the trimmed input as the text column holds it: the
    trimmed input itself, code unit for code unit and so byte for byte in
    its encoding, whenever the trimmed input is well formed, that is,
    whenever it has an encoding. *)
Theorem post_then_list (db db' : DB) (now : Z) (session : option string)
    (id : string) (s : jsstring) (mid : string) (msg : Message) :
  POST_message db now session id (JStr s) = (db', Json 201 (mid, msg)) →
  ∃ l, GET_messages db' session id = Json 200 l
    ∧ (mid, msg) ∈ l
    ∧ content msg = toWellFormed (trim s)
    ∧ (isWellFormed (trim s) = true → content msg = trim s)
    ∧ StronglySorted createdAt_le l.
Proof.
  intros Hpost. unfold POST_message in Hpost.
  destruct (POST_message_checks db session id (JStr s)) as [[c uid]|[st em]] eqn:Hc;
    [|discriminate].
  injection Hpost as <- <- <-.
  apply POST_message_checks_pass in Hc
    as (e & u & m & s' & -> & Hne & Hu & [= <-] & -> & -> & Hlen & Hm & Hmem).
  exists (findMany_messages
    (set_messages (insert (fresh (dom (messages db)))
       {| content := toWellFormed (trim s); msg_userId := u.1;
          msg_mdtId := id; createdAt := now |}) db) id).
  split; [|split; [|split; [|split]]].
  - unfold GET_messages, require_session.
    rewrite bool_decide_eq_false_2 by done. simpl.
    unfold require_user, user_by_email in *. simpl. rewrite Hu. simpl.
    rewrite Hm. unfold isMember. by rewrite bool_decide_eq_true_2.
  - apply findMany_messages_elem. simpl. by rewrite lookup_insert_eq.
  - done.
  - simpl. unfold isWellFormed. by intros Hwf%bool_decide_eq_true.
  - apply findMany_messages_sorted.
Qed.

Lemma post_message_length_bounds_witness :
  is_json (POST_message Sample.store 1700000000 Sample.sessionA "0"
             (JStr (js "  " ++ repeat 97%N 2000 ++ js " "))).2 = true
  ∧ ∃ msg, POST_message Sample.store 1700000000 Sample.sessionA "0"
             (JStr (repeat 97%N 2001)) = (Sample.store, Error 400 msg).
Proof.
  split.
  - eapply (post_message_length_bounds Sample.store 1700000000
              "amal@clinic.example" "0" ("A", Sample.userA)).
    + done.
    + vm_compute. reflexivity.
    + vm_compute. reflexivity.
    + vm_compute. reflexivity.
    + vm_compute. lia.
  - eapply (post_message_length_bounds Sample.store 1700000000
              "amal@clinic.example" "0" ("A", Sample.userA)).
    + done.
    + vm_compute. reflexivity.
    + vm_compute. reflexivity.
    + vm_compute. reflexivity.
    + vm_compute. lia.
Defined.

Lemma post_then_list_witness :
  ∃ l, GET_messages
         (POST_message Sample.store 1700000000 Sample.sessionA "0"
            (JStr (js " hello "))).1 Sample.sessionA "0" = Json 200 l
    ∧ ("0", {| content := js "hello"; msg_userId := "A"; msg_mdtId := "0";
               createdAt := 1700000000 |}) ∈ l
    ∧ StronglySorted createdAt_le l.
Proof.
  destruct (post_then_list Sample.store
              (POST_message Sample.store 1700000000 Sample.sessionA "0"
                 (JStr (js " hello "))).1
              1700000000 Sample.sessionA "0" (js " hello ") "0"
              {| content := js "hello"; msg_userId := "A"; msg_mdtId := "0";
                 createdAt := 1700000000 |})
    as (l & Hget & Hin & _ & _ & Hsorted).
  - vm_compute. reflexivity.
  - exists l. auto.
Defined.

(** C8 as it is stated, for every content that is accepted, fails at a
    content that is not text: the content ["\ud83d"], a lone surrogate, has
    one code unit and is accepted, and the message listed afterwards has the
    content ["\ufffd"], not the trimmed input. *)
Lemma post_then_list_lone_surrogate :
  ∃ db' mid msg l,
    POST_message Sample.store 1700000000 Sample.sessionA "0"
      (JStr [0xD83D%N]) = (db', Json 201 (mid, msg))
    ∧ GET_messages db' Sample.sessionA "0" = Json 200 l
    ∧ (mid, msg) ∈ l
    ∧ content msg = [0xFFFD%N]
    ∧ content msg ≠ trim [0xD83D%N].
Proof.
  eexists _, _, _, _.
  split; [vm_compute; reflexivity|].
  split; [vm_compute; reflexivity|].
  split; [apply list_elem_of_here|].
  split; [reflexivity|]. vm_compute. discriminate.
Qed.

(** ** Responding to an invitation *)

Lemma mdtSpecialties_of_elem (db : DB) (id : string) (rs : MDTSpecialty) :
  rs ∈ mdtSpecialties_of db id
  ↔ mdtSpecialties db !! (rs_mdtId rs, rs_specialtyId rs) = Some (rs_filled rs)
    ∧ rs_mdtId rs = id.
Proof.
  unfold mdtSpecialties_of. rewrite list_elem_of_fmap. split.
  - intros ([[k s] b] & -> & Hin). simpl.
    apply list_elem_of_filter in Hin as [Hk Hin]. simpl in Hk.
    by apply elem_of_map_to_list in Hin.
  - intros [Hl Hid]. exists ((rs_mdtId rs, rs_specialtyId rs), rs_filled rs).
    split; [by destruct rs|].
    apply list_elem_of_filter. split; [done|]. by apply elem_of_map_to_list.
Qed.

(** The slot lookup of [PATCH] finds a row exactly when the invitation names
    a specialty whose slot on the MDT is unfilled. *)
Lemma find_slot_available (db : DB) (invitation : MDTInvitation) :
  List.find (slot_available invitation)
    (mdtSpecialties_of db (inv_mdtId invitation)) ≠ None
  ↔ ∃ s, inv_specialtyId invitation = Some s
       ∧ mdtSpecialties db !! (inv_mdtId invitation, s) = Some false.
Proof.
  split.
  - destruct (List.find _ _) as [rs|] eqn:Hfind; [intros _|done].
    apply find_some in Hfind as [Hin Hav].
    apply list_elem_of_In, mdtSpecialties_of_elem in Hin as [Hl Hid].
    unfold slot_available in Hav.
    destruct (inv_specialtyId invitation) as [s|]; [|done].
    apply andb_true_iff in Hav as [Hs Hf]. apply Z.eqb_eq in Hs.
    apply negb_true_iff in Hf. exists s. split; [done|].
    by rewrite <- Hid, <- Hs, <- Hf.
  - intros (s & Hs & Hl) Hnone.
    eapply find_none with
      (x := {| rs_mdtId := inv_mdtId invitation; rs_specialtyId := s;
               rs_filled := false |}) in Hnone.
    + unfold slot_available in Hnone. rewrite Hs in Hnone. simpl in Hnone.
      by rewrite Z.eqb_refl in Hnone.
    + apply list_elem_of_In, mdtSpecialties_of_elem. by simpl.
Qed.

(** An invitation without specialty never finds a slot. *)
Lemma find_slot_null (db : DB) (invitation : MDTInvitation) :
  inv_specialtyId invitation = None →
  List.find (slot_available invitation)
    (mdtSpecialties_of db (inv_mdtId invitation)) = None.
Proof.
  intros Hnull. destruct (List.find _ _) eqn:Hfind; [|done].
  assert (Hne : List.find (slot_available invitation)
    (mdtSpecialties_of db (inv_mdtId invitation)) ≠ None) by by rewrite Hfind.
  apply find_slot_available in Hne as (s & Hs & _). congruence.
Qed.

Lemma PATCH_invitation_checks_accept (db : DB) (session : option string)
    (id : string) (s : Snapshot) :
  PATCH_invitation_checks db session id "ACCEPTED" = inl s
  ↔ respond_ready db session id ACCEPTED s.
Proof.
  unfold PATCH_invitation_checks. rewrite guard_bind_pass. split.
  - intros (e & He & H). apply require_session_pass in He as [-> Hne].
    simpl in H. apply guard_bind_pass in H as (u & Hu & H).
    apply require_user_pass in Hu.
    destruct (invitations db !! id) as [inv|] eqn:Hinv; [|discriminate].
    destruct (mdts db !! inv_mdtId inv) as [m|] eqn:Hm; [|discriminate].
    case_bool_decide as Hrecv; [discriminate|].
    case_bool_decide as Hpend; [discriminate|].
    
    case_bool_decide as Hfind; [discriminate|].
    injection H as <-. apply find_slot_available in Hfind.
    split; simpl; eauto 10.
  - intros [(e & -> & Hne & u & Hu & Hsu) Hinv [m Hm] Hrecv Hpend Hst Hslot].
    exists e. split; [by apply require_session_pass|]. simpl.
    apply guard_bind_pass. exists u. split; [by apply require_user_pass|].
    rewrite Hinv, Hm.
    rewrite bool_decide_eq_false_2 by (rewrite Hrecv, Hsu; auto).
    rewrite bool_decide_eq_false_2 by (rewrite Hpend; auto).
    simpl.
    rewrite bool_decide_eq_false_2 by (by apply find_slot_available, Hslot).
    destruct s. simpl in *. by subst.
Qed.

(** The transaction of an accepted response, on any store: it returns
    exactly when the invitation, the MDT, the responder and the slot row
    exist, and then the store is [accepted_store]. *)
Lemma respond_tx_accepted (db db' : DB) (id : string) (s : Snapshot)
    (r : MDTInvitation) :
  snap_status s = ACCEPTED →
  respond_tx id s db = Done db' r ↔
  ∃ current m sp,
    invitations db !! id = Some current
    ∧ mdts db !! inv_mdtId (snap_invitation s) = Some m
    ∧ is_Some (users db !! snap_user s)
    ∧ inv_specialtyId (snap_invitation s) = Some sp
    ∧ is_Some (mdtSpecialties db !! (inv_mdtId (snap_invitation s), sp))
    ∧ r = set_status ACCEPTED current
    ∧ db' = accepted_store db id s current m sp.
Proof.
  intros Hst. unfold respond_tx, tx_bind, tx_update_invitation.
  rewrite Hst. simpl. unfold tx_bind, tx_connect_members. simpl. split.
  - destruct (invitations db !! id) as [current|] eqn:Hinv; [|discriminate].
    simpl.
    destruct (mdts db !! inv_mdtId (snap_invitation s)) as [m|] eqn:Hm;
      [|discriminate].
    destruct (bool_decide (is_Some (users db !! snap_user s))) eqn:Hu;
      [|discriminate].
    apply bool_decide_eq_true in Hu. simpl. unfold tx_fill_mdtSpecialty.
    destruct (inv_specialtyId (snap_invitation s)) as [sp|] eqn:Hsp;
      [|discriminate].
    simpl.
    destruct (mdtSpecialties db !! (inv_mdtId (snap_invitation s), sp))
      as [b|] eqn:Hslot; [|discriminate].
    simpl. intros [= <- <-]. exists current, m, sp.
    by split_and!.
  - intros (current & m & sp & Hinv & Hm & Hu & Hsp & [b Hslot] & -> & ->).
    rewrite Hinv. simpl. rewrite Hm.
    rewrite (bool_decide_eq_true_2 _ Hu). simpl.
    unfold tx_fill_mdtSpecialty. rewrite Hsp. simpl. by rewrite Hslot.
Qed.

(** What [accepted_store] holds. *)
Lemma accepted_store_effects (db : DB) (id : string) (s : Snapshot)
    (current : MDTInvitation) (m : MDT) (sp : Z) :
  inv_specialtyId (snap_invitation s) = Some sp →
  let db' := accepted_store db id s current m sp in
  invitations db' !! id = Some (set_status ACCEPTED current)
  ∧ (∃ m', mdts db' !! inv_mdtId (snap_invitation s) = Some m'
           ∧ snap_user s ∈ members m')
  ∧ mdtSpecialties db' !! (inv_mdtId (snap_invitation s), sp) = Some true
  ∧ ∀ (j : string) (other : MDTInvitation),
      j ≠ id →
      invitations db !! j = Some other →
      inv_mdtId other = inv_mdtId (snap_invitation s) →
      inv_specialtyId other = Some sp →
      inv_status other = PENDING →
      invitations db' !! j = Some (set_status CANCELLED other).
Proof.
  intros Hsp. unfold accepted_store. simpl. split_and!.
  - rewrite map_lookup_imap, lookup_insert_eq. simpl.
    unfold competing. rewrite (bool_decide_eq_false_2 (id ≠ id)) by auto.
    by rewrite andb_false_r.
  - eexists. rewrite lookup_insert_eq. split; [done|].
    cbn [members list_to_set foldr].
    apply elem_of_union_r, elem_of_union_l, elem_of_singleton. done.
  - by rewrite lookup_insert_eq.
  - intros j other Hj Hother Hmdt Hspec Hpending.
    rewrite map_lookup_imap, lookup_insert_ne by done.
    rewrite Hother. simpl. unfold competing.
    rewrite !bool_decide_eq_true_2; [done|done|done|congruence|done].
Qed.

(** The four writes whatever ran between the guards and the transaction:
    when the transaction of an ACCEPTED response commits on a store
    [later], it has made them on [later]. *)
Lemma respond_commit_effects (later db' : DB) (id : string) (s : Snapshot)
    (st : Z) (r : MDTInvitation) :
  snap_status s = ACCEPTED →
  PATCH_invitation_commit later id s = (db', Json st r) →
  ∃ (current : MDTInvitation) (sp : Z),
    invitations later !! id = Some current
    ∧ inv_specialtyId (snap_invitation s) = Some sp
    ∧ invitations db' !! id = Some (set_status ACCEPTED current)
    ∧ (∃ m', mdts db' !! inv_mdtId (snap_invitation s) = Some m'
             ∧ snap_user s ∈ members m')
    ∧ mdtSpecialties db' !! (inv_mdtId (snap_invitation s), sp) = Some true
    ∧ ∀ (j : string) (other : MDTInvitation),
        j ≠ id →
        invitations later !! j = Some other →
        inv_mdtId other = inv_mdtId (snap_invitation s) →
        inv_specialtyId other = Some sp →
        inv_status other = PENDING →
        invitations db' !! j = Some (set_status CANCELLED other).
Proof.
  intros Hst. unfold PATCH_invitation_commit, transaction.
  destruct (respond_tx id s later) as [db1 r1|err] eqn:Htx; [|discriminate].
  intros [= <- <- <-].
  apply respond_tx_accepted in Htx
    as (current & m & sp & Hinv & Hm & Hu & Hsp & Hslot & -> & ->); [|done].
  exists current, sp. split; [done|]. split; [done|].
  by apply accepted_store_effects.
Qed.

(** A request that [PATCH] answers with an error leaves the store as it
    was: the guards write nothing and an aborted transaction is discarded. *)
Lemma PATCH_invitation_error_unchanged (db db' : DB) (session : option string)
    (id status : string) (st : Z) (msg : string) :
  PATCH_invitation db session id status = (db', Error st msg) → db' = db.
Proof.
  unfold PATCH_invitation, PATCH_invitation_commit, transaction.
  destruct (PATCH_invitation_checks db session id status) as [s|[st' msg']].
  - destruct (respond_tx id s db); [discriminate|]. by intros [= <- _ _].
  - by intros [= <- _ _].
Qed.

(** C1: a successful response with ACCEPTED is the commit of one
    transaction in which the invitation becomes ACCEPTED, the responder
    joins the members of the MDT, the MDTSpecialty row of the MDT and the
    invitation's specialty becomes filled, and every other PENDING
    invitation for the same MDT and specialty becomes CANCELLED. *)
Theorem respond_accepted_effects (db db' : DB) (session : option string)
    (id : string) (st : Z) (r : MDTInvitation) :
  PATCH_invitation db session id "ACCEPTED" = (db', Json st r) →
  ∃ (responder : string * User) (invitation : MDTInvitation) (sp : Z)
    (snapshot : Snapshot),
    st = 200%Z
    ∧ (∃ e, session = Some e ∧ user_by_email db e = Some responder)
    ∧ invitations db !! id = Some invitation
    ∧ receiverId invitation = responder.1
    ∧ inv_specialtyId invitation = Some sp
    ∧ transaction (respond_tx id snapshot) db = (db', inl r)
    ∧ invitations db' !! id = Some (set_status ACCEPTED invitation)
    ∧ (∃ m', mdts db' !! inv_mdtId invitation = Some m'
             ∧ responder.1 ∈ members m')
    ∧ mdtSpecialties db' !! (inv_mdtId invitation, sp) = Some true
    ∧ ∀ (j : string) (other : MDTInvitation),
        j ≠ id →
        invitations db !! j = Some other →
        inv_mdtId other = inv_mdtId invitation →
        inv_specialtyId other = Some sp →
        inv_status other = PENDING →
        invitations db' !! j = Some (set_status CANCELLED other).
Proof.
  unfold PATCH_invitation.
  destruct (PATCH_invitation_checks db session id "ACCEPTED")
    as [s|[st' msg']] eqn:Hchecks; [|discriminate].
  apply PATCH_invitation_checks_accept in Hchecks
    as [(e & -> & Hne & u & Hu & Hsu) Hinv _ Hrecv Hpend Hst _].
  unfold PATCH_invitation_commit.
  destruct (transaction (respond_tx id s) db) as [db1 [r1|err]] eqn:Htx;
    [|discriminate].
  intros [= <- <- <-].
  assert (Hdone : respond_tx id s db = Done db1 r1).
  { unfold transaction in Htx. destruct (respond_tx id s db); congruence. }
  apply respond_tx_accepted in Hdone
    as (current & m & sp & Hcur & Hm & _ & Hsp & _ & -> & ->); [|done].
  assert (current = snap_invitation s) as -> by congruence.
  exists u, (snap_invitation s), sp, s. rewrite <- Hsu.
  split; [done|]. split; [by exists e|]. split; [done|]. split; [done|].
  split; [done|]. split; [done|]. by apply accepted_store_effects.
Qed.

Lemma respond_accepted_effects_witness :
  let db' := (PATCH_invitation Sample.store Sample.sessionC "0" "ACCEPTED").1 in
  ∃ (invitation : MDTInvitation) (sp : Z),
    invitations Sample.store !! "0" = Some invitation
    ∧ invitations db' !! "0" = Some (set_status ACCEPTED invitation)
    ∧ (∃ m', mdts db' !! inv_mdtId invitation = Some m' ∧ "C" ∈ members m')
    ∧ mdtSpecialties db' !! (inv_mdtId invitation, sp) = Some true
    ∧ inv_status <$> invitations db' !! "1" = Some CANCELLED.
Proof.
  intros db'.
  destruct (respond_accepted_effects Sample.store db' Sample.sessionC "0" 200
              {| inv_mdtId := "0"; senderId := "A"; receiverId := "C";
                 inv_specialtyId := Some Sample.Cardiology;
                 inv_status := ACCEPTED |})
    as (u & inv & sp & snap & _ & (e & He & Hu) & Hinv & Hrecv & Hsp & Htx
        & Hacc & Hmem & Hfill & Hcancel).
  - vm_compute. reflexivity.
  - exists inv, sp. split; [done|]. split; [done|].
    assert (HuC : u = ("C", Sample.userC)).
    { injection He as <-. vm_compute in Hu. by injection Hu as <-. }
    assert (Hinv0 : inv = {| inv_mdtId := "0"; senderId := "A";
        receiverId := "C"; inv_specialtyId := Some Sample.Cardiology;
        inv_status := PENDING |}).
    { vm_compute in Hinv. by injection Hinv as <-. }
    subst u inv. simpl in Hsp. injection Hsp as <-.
    split; [done|]. split; [done|].
    by erewrite (Hcancel "1"); [|done|by vm_compute|..].
Defined.

(** ** Terminal invitations *)

(** The per-invitation [PATCH] refuses a second response: on an invitation
    that is no longer PENDING its receiver gets the 400 "already responded"
    answer and the store is unchanged. *)
Lemma respond_terminal_rejected (db : DB) (e id status : string)
    (u : string * User) (invitation : MDTInvitation) :
  e ≠ "" →
  status = "ACCEPTED" ∨ status = "DECLINED" →
  user_by_email db e = Some u →
  invitations db !! id = Some invitation →
  is_Some (mdts db !! inv_mdtId invitation) →
  receiverId invitation = u.1 →
  inv_status invitation ≠ PENDING →
  PATCH_invitation db (Some e) id status
    = (db, Error 400 "Invitation has already been responded to").
Proof.
  intros Hne Hstatus Hu Hinv [m Hm] Hrecv Hterm.
  unfold PATCH_invitation, PATCH_invitation_checks, require_session.
  rewrite bool_decide_eq_false_2 by done.
  apply require_user_pass with (msg := "User not found") in Hu.
  destruct Hstatus as [-> | ->]; simpl; rewrite Hu; simpl;
    rewrite Hinv, Hm;
    rewrite bool_decide_eq_false_2 by (rewrite Hrecv; auto);
    by rewrite bool_decide_eq_true_2.
Qed.

(** [DELETE] only withdraws a pending invitation. *)
Lemma cancel_terminal_rejected (db : DB) (session : option string) (id : string)
    (invitation : MDTInvitation) :
  invitations db !! id = Some invitation →
  inv_status invitation ≠ PENDING →
  ∃ st msg, DELETE_invitation db session id = (db, Error st msg).
Proof.
  intros Hinv Hterm. unfold DELETE_invitation.
  destruct (require_session session) as [e|[st msg]]; simpl; [|by eauto].
  destruct (require_user db e "User not found") as [u|[st msg]]; simpl;
    [|by eauto].
  rewrite Hinv. case_bool_decide; [by eauto|].
  rewrite bool_decide_eq_true_2 by done. by eauto.
Qed.

(** The collection [PATCH] writes whatever status the receiver sends,
    whatever the current status is. *)
Lemma PATCH_invitations_overwrites (db : DB) (e id status : string)
    (u : string * User) (invitation : MDTInvitation) (st : InvitationStatus) :
  e ≠ "" →
  user_by_email db e = Some u →
  invitations db !! id = Some invitation →
  receiverId invitation = u.1 →
  parse_status status = Some st →
  st ≠ ACCEPTED →
  PATCH_invitations db (Some e) id status
    = (set_invitations (insert id (set_status st invitation)) db,
       Json 200 (id, set_status st invitation)).
Proof.
  intros Hne Hu Hinv Hrecv Hst Hna.
  unfold PATCH_invitations, require_session.
  rewrite bool_decide_eq_false_2 by done.
  apply require_user_pass with (msg := "User not found") in Hu.
  simpl. rewrite Hu. simpl. rewrite Hinv, Hst.
  rewrite bool_decide_eq_true_2 by done. simpl.
  by rewrite bool_decide_eq_false_2.
Qed.

(** C5: the collection [PATCH] of app/api/mdt/invitations/route.ts changes
    the status of an invitation that is already ACCEPTED: D, who accepted
    invitation ["2"], sends [{ invitationId: "2", status: "DECLINED" }] and
    the invitation becomes DECLINED (and D stays a member, the slot stays
    filled); [status: "PENDING"] reopens it. *)
Theorem terminal_invitation_rewritten :
  inv_status <$> invitations Sample.store_D_accepted !! "2" = Some ACCEPTED
  ∧ (∃ db' r,
       PATCH_invitations Sample.store_D_accepted Sample.sessionD "2" "DECLINED"
         = (db', Json 200 r)
       ∧ inv_status <$> invitations db' !! "2" = Some DECLINED
       ∧ mdtSpecialties db' !! ("0", Sample.Oncology) = Some true)
  ∧ (∃ db' r,
       PATCH_invitations Sample.store_D_accepted Sample.sessionD "2" "PENDING"
         = (db', Json 200 r)
       ∧ inv_status <$> invitations db' !! "2" = Some PENDING).
Proof.
  split; [by vm_compute|]. split.
  - eexists _, _. split; [by vm_compute|]. split; by vm_compute.
  - eexists _, _. split; [by vm_compute|]. by vm_compute.
Qed.

(** ** Visibility of an invitation *)

(** [GET] answers every signed-in user whenever the sender of the
    invitation has a non-empty first name: the second operand of the
    authorization test is that name, not a comparison with the caller. *)
Lemma GET_invitation_any_user (db : DB) (e id : string) (u : string * User)
    (invitation : MDTInvitation) (sender : User) :
  e ≠ "" →
  user_by_email db e = Some u →
  invitations db !! id = Some invitation →
  is_Some (mdts db !! inv_mdtId invitation) →
  users db !! senderId invitation = Some sender →
  firstName sender ≠ "" →
  GET_invitation db (Some e) id = Json 200 (id, invitation).
Proof.
  intros Hne Hu Hinv [m Hm] Hsender Hname.
  unfold GET_invitation, require_session.
  rewrite bool_decide_eq_false_2 by done.
  apply require_user_pass with (msg := "User not found") in Hu.
  simpl. rewrite Hu. simpl. rewrite Hinv, Hm, Hsender.
  destruct (firstName sender) as [|c fn]; [done|].
  by rewrite orb_true_r.
Qed.

(** C6: B is not a member of MDT ["0"], did not send invitation ["0"] and
    is not its receiver, and fetching the invitation answers B with 200 and
    the invitation. *)
Theorem invitation_visible_to_stranger :
  ∃ (invitation : MDTInvitation) (m : MDT),
    user_by_email Sample.store "basil@hospital.example" = Some ("B", Sample.userB)
    ∧ invitations Sample.store !! "0" = Some invitation
    ∧ mdts Sample.store !! inv_mdtId invitation = Some m
    ∧ ("B" ∉ members m)
    ∧ senderId invitation ≠ "B"
    ∧ receiverId invitation ≠ "B"
    ∧ GET_invitation Sample.store Sample.sessionB "0" = Json 200 ("0", invitation).
Proof.
  eexists _, _. split; [by vm_compute|]. split; [by vm_compute|].
  split; [by vm_compute|]. split; [by vm_compute|].
  split; [done|]. split; [done|]. by vm_compute.
Qed.

(** ** Direct invitations *)

Lemma POST_invitation_created (db db' : DB) (session : option string)
    (mdtId receiverEmail : string) (st : Z) (id : string)
    (invitation : MDTInvitation) :
  POST_invitation db session mdtId receiverEmail
    = (db', Json st (id, invitation)) →
  ∃ sender receiver,
    user_by_email db receiverEmail = Some receiver
    ∧ is_Some (mdts db !! mdtId)
    ∧ invitation = {| inv_mdtId := mdtId; senderId := sender;
                      receiverId := receiver.1; inv_specialtyId := None;
                      inv_status := PENDING |}
    ∧ invitations db !! id = None
    ∧ db' = set_invitations (insert id invitation) db.
Proof.
  unfold POST_invitation.
  destruct (require_session session) as [e|[st' msg]]; simpl; [|discriminate].
  destruct (require_user db e "Sender not found") as [sender|[st' msg]];
    simpl; [|discriminate].
  case_bool_decide; [discriminate|].
  destruct (require_user db receiverEmail "Receiver not found")
    as [receiver|[st' msg]] eqn:Hreceiver; simpl; [|discriminate].
  apply require_user_pass in Hreceiver.
  destruct (findFirst_pending db mdtId receiver.1); [discriminate|].
  destruct (mdts db !! mdtId) as [m|] eqn:Hm; [|discriminate].
  simpl. intros [= <- <- <- <-].
  exists sender.1, receiver. repeat split; eauto.
  apply not_elem_of_dom, is_fresh.
Qed.

(** Accepting an invitation that names no specialty: the receiver of a
    pending one is told that the position is filled, whatever the slots of
    the MDT are. *)
Lemma respond_null_specialty (db : DB) (e id : string) (u : string * User)
    (invitation : MDTInvitation) :
  e ≠ "" →
  user_by_email db e = Some u →
  invitations db !! id = Some invitation →
  is_Some (mdts db !! inv_mdtId invitation) →
  receiverId invitation = u.1 →
  inv_status invitation = PENDING →
  inv_specialtyId invitation = None →
  PATCH_invitation db (Some e) id "ACCEPTED"
    = (db, Error 400 "This specialty position has already been filled").
Proof.
  intros Hne Hu Hinv [m Hm] Hrecv Hpend Hnull.
  unfold PATCH_invitation, PATCH_invitation_checks, require_session.
  rewrite bool_decide_eq_false_2 by done.
  apply require_user_pass with (msg := "User not found") in Hu.
  simpl. rewrite Hu. simpl. rewrite Hinv, Hm.
  rewrite bool_decide_eq_false_2 by (rewrite Hrecv; auto).
  rewrite bool_decide_eq_false_2 by (rewrite Hpend; auto).
  rewrite (find_slot_null db invitation Hnull).
  by rewrite bool_decide_eq_true_2.
Qed.

(** No caller gets an invitation without specialty accepted. *)
Lemma respond_null_specialty_never_accepted (db db' : DB)
    (session : option string) (id : string) (invitation r : MDTInvitation)
    (st : Z) :
  invitations db !! id = Some invitation →
  inv_specialtyId invitation = None →
  PATCH_invitation db session id "ACCEPTED" ≠ (db', Json st r).
Proof.
  intros Hinv Hnull Hpatch. unfold PATCH_invitation in Hpatch.
  destruct (PATCH_invitation_checks db session id "ACCEPTED")
    as [s|[st' msg]] eqn:Hchecks; [|discriminate].
  apply PATCH_invitation_checks_accept in Hchecks
    as [_ Hinv' _ _ _ _ Hslot].
  destruct (Hslot eq_refl) as (sp & Hsp & _). congruence.
Qed.

(** C10: an invitation created by the direct-invite [POST] carries no
    specialty and is PENDING; from then on, in every store that still holds
    it, no ACCEPTED response to it succeeds, and its receiver, responding
    while it is pending, is answered 400 "This specialty position has
    already been filled" with the store unchanged, whatever the specialty
    slots of the MDT are. *)
Theorem direct_invitation_cannot_be_accepted (db db' : DB)
    (session : option string) (mdtId receiverEmail : string) (st : Z)
    (id : string) (invitation : MDTInvitation) :
  POST_invitation db session mdtId receiverEmail
    = (db', Json st (id, invitation)) →
  inv_specialtyId invitation = None
  ∧ inv_status invitation = PENDING
  ∧ invitations db' !! id = Some invitation
  ∧ (∀ (later later' : DB) (caller : option string) (st' : Z)
       (r : MDTInvitation),
       invitations later !! id = Some invitation →
       PATCH_invitation later caller id "ACCEPTED" ≠ (later', Json st' r))
  ∧ (∀ (later : DB) (e : string) (u : string * User),
       invitations later !! id = Some invitation →
       is_Some (mdts later !! mdtId) →
       e ≠ "" →
       user_by_email later e = Some u →
       u.1 = receiverId invitation →
       PATCH_invitation later (Some e) id "ACCEPTED"
         = (later,
            Error 400 "This specialty position has already been filled")).
Proof.
  intros Hpost.
  apply POST_invitation_created in Hpost
    as (sender & receiver & Hreceiver & Hmdt & -> & Hfresh & ->).
  simpl. split; [done|]. split; [done|].
  split; [by rewrite lookup_insert_eq|]. split.
  - intros later later' caller st' r Hinv.
    by eapply respond_null_specialty_never_accepted.
  - intros later e u Hinv Hm Hne Hu Hrecv.
    by eapply respond_null_specialty.
Qed.

Lemma direct_invitation_cannot_be_accepted_witness :
  let db' := (POST_invitation Sample.store Sample.sessionA "0"
                "basil@hospital.example").1 in
  inv_specialtyId <$> invitations db' !! "3" = Some None
  ∧ PATCH_invitation db' Sample.sessionB "3" "ACCEPTED"
    = (db', Error 400 "This specialty position has already been filled").
Proof.
  intros db'.
  destruct (direct_invitation_cannot_be_accepted Sample.store db'
              Sample.sessionA "0" "basil@hospital.example" 200 "3"
              {| inv_mdtId := "0"; senderId := "A"; receiverId := "B";
                 inv_specialtyId := None; inv_status := PENDING |})
    as (Hnull & _ & Hinv & _ & Hfilled); [by vm_compute|].
  split; [by rewrite Hinv|].
  apply (Hfilled _ "basil@hospital.example" ("B", Sample.userB));
    [exact Hinv|vm_compute; by eexists|done|by vm_compute|done].
Defined.

(** ** Concurrent responses *)

(** A request that runs alone is the handler. *)
Lemma step_step_PATCH (rq : PatchRequest) (db : DB) :
  let (db1, p1) := step rq db Arrived in
  let (db2, p2) := step rq db1 p1 in
  ∃ r, p2 = Answered r
     ∧ PATCH_invitation db (rq_session rq) (rq_id rq) (rq_status rq) = (db2, r).
Proof.
  unfold step, PATCH_invitation.
  destruct (PATCH_invitation_checks db (rq_session rq) (rq_id rq) (rq_status rq))
    as [s|[st msg]].
  - destruct (PATCH_invitation_commit db (rq_id rq) s) as [db' r]. by exists r.
  - by eexists.
Qed.

(** An invitation that is not PENDING is not touched by the transaction of
    another one. *)
Lemma accepted_store_settled (db : DB) (id : string) (s : Snapshot)
    (current : MDTInvitation) (m : MDT) (sp : Z) (j : string)
    (other : MDTInvitation) :
  j ≠ id →
  invitations db !! j = Some other →
  inv_status other ≠ PENDING →
  invitations (accepted_store db id s current m sp) !! j = Some other.
Proof.
  intros Hj Hother Hsettled. unfold accepted_store. simpl.
  rewrite map_lookup_imap, lookup_insert_ne by done. rewrite Hother. simpl.
  unfold competing. rewrite (bool_decide_eq_false_2 (inv_status other = PENDING))
    by done.
  by rewrite andb_false_r.
Qed.

(** The race in general: two ACCEPTED responses to different pending
    invitations for the same slot, both past their guards before either
    transaction runs, are both answered 200 and leave both invitations
    ACCEPTED. *)
Lemma concurrent_accepts_race (db : DB) (rq1 rq2 : PatchRequest)
    (s1 s2 : Snapshot) :
  rq_status rq1 = "ACCEPTED" →
  rq_status rq2 = "ACCEPTED" →
  rq_id rq1 ≠ rq_id rq2 →
  respond_ready db (rq_session rq1) (rq_id rq1) ACCEPTED s1 →
  respond_ready db (rq_session rq2) (rq_id rq2) ACCEPTED s2 →
  inv_mdtId (snap_invitation s1) = inv_mdtId (snap_invitation s2) →
  inv_specialtyId (snap_invitation s1) = inv_specialtyId (snap_invitation s2) →
  ∃ (db' : DB) (r1 r2 : MDTInvitation),
    run rq1 rq2 [false; true; false; true] db Arrived Arrived
      = (db', Answered (Json 200 r1), Answered (Json 200 r2))
    ∧ inv_status <$> invitations db' !! rq_id rq1 = Some ACCEPTED
    ∧ inv_status <$> invitations db' !! rq_id rq2 = Some ACCEPTED
    ∧ ∃ m, mdts db' !! inv_mdtId (snap_invitation s1) = Some m
         ∧ snap_user s1 ∈ members m ∧ snap_user s2 ∈ members m.
Proof.
  intros Hst1 Hst2 Hne Hready1 Hready2 Hmdt Hspec.
  pose proof Hready1 as Hc1. pose proof Hready2 as Hc2.
  apply PATCH_invitation_checks_accept in Hc1, Hc2.
  destruct Hready1 as [(e1 & Hs1 & _ & u1 & Hu1 & Hsu1) Hinv1 [m Hm] _ Hpend1
                         Hsnap1 Hslot1].
  destruct Hready2 as [(e2 & Hs2 & _ & u2 & Hu2 & Hsu2) Hinv2 _ _ Hpend2
                         Hsnap2 _].
  destruct (Hslot1 eq_refl) as (sp & Hsp1 & Hfree).
  assert (Hsp2 : inv_specialtyId (snap_invitation s2) = Some sp) by congruence.
  apply user_by_email_lookup in Hu1 as [Hu1 _], Hu2 as [Hu2 _].
  rewrite <- Hsu1 in Hu1. rewrite <- Hsu2 in Hu2.
  (* the first transaction *)
  set (db1 := accepted_store db (rq_id rq1) s1 (snap_invitation s1) m sp).
  assert (Htx1 : respond_tx (rq_id rq1) s1 db
                 = Done db1 (set_status ACCEPTED (snap_invitation s1))).
  { apply respond_tx_accepted; [done|].
    exists (snap_invitation s1), m, sp. by split_and!. }
  destruct (accepted_store_effects db (rq_id rq1) s1 (snap_invitation s1) m sp
              Hsp1) as (Hacc1 & (m1 & Hm1 & Hmem1) & Hfill1 & Hcancel1).
  fold db1 in Hacc1, Hm1, Hfill1, Hcancel1.
  assert (Hinv2' : invitations db1 !! rq_id rq2
                   = Some (set_status CANCELLED (snap_invitation s2))).
  { apply Hcancel1; [done|done|done|done|done]. }
  (* the second transaction *)
  set (db2 := accepted_store db1 (rq_id rq2) s2
                (set_status CANCELLED (snap_invitation s2)) m1 sp).
  assert (Htx2 : respond_tx (rq_id rq2) s2 db1
    = Done db2 (set_status ACCEPTED (set_status CANCELLED (snap_invitation s2)))).
  { apply respond_tx_accepted; [done|].
    exists (set_status CANCELLED (snap_invitation s2)), m1, sp.
    split_and!; try done.
    - by rewrite <- Hmdt.
    - by rewrite <- Hmdt, Hfill1. }
  destruct (accepted_store_effects db1 (rq_id rq2) s2
              (set_status CANCELLED (snap_invitation s2)) m1 sp Hsp2)
    as (Hacc2 & (m2 & Hm2 & Hmem2) & _ & _).
  fold db2 in Hacc2, Hm2.
  exists db2, (set_status ACCEPTED (snap_invitation s1)),
    (set_status ACCEPTED (set_status CANCELLED (snap_invitation s2))).
  split_and!.
  - unfold run, step. rewrite Hst1, Hst2, Hc1, Hc2.
    unfold PATCH_invitation_commit, transaction. by rewrite Htx1, Htx2.
  - unfold db2.
    by rewrite (accepted_store_settled db1 _ _ _ _ _ (rq_id rq1)
                  (set_status ACCEPTED (snap_invitation s1))).
  - by rewrite Hacc2.
  - exists m2. rewrite Hmdt. split; [done|]. split; [|done].
    unfold db2, accepted_store in Hm2. simpl in Hm2.
    rewrite lookup_insert_eq in Hm2. injection Hm2 as <-. simpl.
    by apply elem_of_union_l.
Qed.

(** One after the other, the second acceptance of the same slot is
    refused: the first one cancelled its invitation. *)
Lemma sequential_accepts_one_wins :
  ∃ db' r1,
    run Sample.acceptC Sample.acceptE [false; false; true; true]
        Sample.store Arrived Arrived
      = (db', Answered (Json 200 r1),
         Answered (Error 400 "Invitation has already been responded to"))
    ∧ inv_status <$> invitations db' !! "0" = Some ACCEPTED
    ∧ inv_status <$> invitations db' !! "1" = Some CANCELLED.
Proof. eexists _, _. split; [by vm_compute|]. split; by vm_compute. Qed.

(** C2: the guards of [PATCH], the test of [filled] among them, run before
    the transaction is opened.  When C and E, invited for the same
    Cardiology slot of MDT ["0"], both pass the guards before either
    transaction runs, both responses are answered 200, both invitations end
    ACCEPTED and both responders are members of the MDT: the second
    transaction turns the invitation that the first one had CANCELLED into
    ACCEPTED. *)
Theorem concurrent_accepts_both_win :
  ∃ (db' : DB) (r1 r2 : MDTInvitation) (m : MDT),
    inv_status <$> invitations Sample.store !! "0" = Some PENDING
    ∧ inv_status <$> invitations Sample.store !! "1" = Some PENDING
    ∧ inv_mdtId <$> invitations Sample.store !! "0"
      = inv_mdtId <$> invitations Sample.store !! "1"
    ∧ inv_specialtyId <$> invitations Sample.store !! "0"
      = inv_specialtyId <$> invitations Sample.store !! "1"
    ∧ run Sample.acceptC Sample.acceptE [false; true; false; true]
        Sample.store Arrived Arrived
      = (db', Answered (Json 200 r1), Answered (Json 200 r2))
    ∧ inv_status <$> invitations db' !! "0" = Some ACCEPTED
    ∧ inv_status <$> invitations db' !! "1" = Some ACCEPTED
    ∧ mdts db' !! "0" = Some m ∧ "C" ∈ members m ∧ "E" ∈ members m.
Proof.
  eexists _, _, _, _.
  split; [by vm_compute|]. split; [by vm_compute|]. split; [by vm_compute|].
  split; [by vm_compute|]. split; [by vm_compute|]. split; [by vm_compute|].
  split; [by vm_compute|]. split; [by vm_compute|]. split; by vm_compute.
Qed.

(** ** Signup *)

(** The route refuses a password of fewer than eight code units. *)
Lemma signup_short_password_rejected (email_ok : jsstring → bool)
    (b : SignUpBody) (s : jsstring) :
  b_password b = JStr s →
  (List.length s < 8)%nat →
  POST_signup_parse email_ok b = inr (400%Z, "Invalid data").
Proof.
  intros Hpw Hlen. unfold POST_signup_parse.
  assert (Hbase : baseSignUpSchema email_ok b = false).
  { assert (Hmin : z_string_min 8 (b_password b) = false).
    { rewrite Hpw. unfold z_string_min. apply Nat.leb_gt. lia. }
    unfold baseSignUpSchema. rewrite Hmin. by rewrite andb_false_r. }
  unfold localSignUpSchema, externalSignUpSchema. rewrite Hbase.
  by case_bool_decide.
Qed.

(** C9: the schema of the route accepts the password ["password"], eight
    lower-case letters without an upper-case letter or a digit, which the
    rule of the signup form refuses: the request passes the parse whenever
    its address passes the address test. *)
Theorem signup_accepts_password_without_classes
    (email_ok : jsstring → bool) :
  email_ok (js "farid@hospital.example") = true →
  form_password_ok (js "password") = false
  ∧ POST_signup_parse email_ok Sample.weak_signup = inl Sample.weak_signup.
Proof.
  intros Hemail. split; [done|].
  unfold POST_signup_parse, externalSignUpSchema, baseSignUpSchema.
  simpl. by rewrite Hemail.
Qed.

Lemma signup_accepts_password_without_classes_witness :
  POST_signup_parse (λ _, true) Sample.weak_signup = inl Sample.weak_signup.
Proof.
  by apply (signup_accepts_password_without_classes (λ _, true)).
Defined.

(** ** MDT creation *)

(** The slot rows: every listed specialty exists, is listed once and gets an
    unfilled row; nothing else changes. *)
Lemma tx_forM_create_mdtSpecialty (id : string) (required : list Z)
    (db db' : DB) :
  tx_forM (tx_create_mdtSpecialty id) required db = Done db' () →
  users db' = users db ∧ specialties db' = specialties db
  ∧ mdts db' = mdts db ∧ patientProfiles db' = patientProfiles db
  ∧ invitations db' = invitations db ∧ messages db' = messages db
  ∧ NoDup required
  ∧ (∀ sid, sid ∈ required →
       is_Some (specialties db !! sid)
       ∧ mdtSpecialties db !! (id, sid) = None
       ∧ mdtSpecialties db' !! (id, sid) = Some false)
  ∧ (∀ k, is_Some (mdtSpecialties db !! k) →
       mdtSpecialties db' !! k = mdtSpecialties db !! k)
  ∧ (∀ k, is_Some (mdtSpecialties db' !! k) →
       is_Some (mdtSpecialties db !! k) ∨ (k.1 = id ∧ k.2 ∈ required)).
Proof.
  revert db. induction required as [|sid required IH]; intros db.
  - intros [= <-]. split_and!; try done.
    + apply NoDup_nil_2.
    + intros sid Hsid. by apply elem_of_nil in Hsid.
    + intros k Hk. by left.
  - simpl. unfold tx_bind at 1. unfold tx_create_mdtSpecialty at 1.
    destruct (specialties db !! sid) as [nm|] eqn:Hcat; [|discriminate].
    destruct (mdtSpecialties db !! (id, sid)) as [b|] eqn:Hrow; [discriminate|].
    intros Hrest. apply IH in Hrest
      as (Hu & Hs & Hm & Hp & Hi & Hmsg & Hnd & Hnew & Hold & Hdom).
    simpl in *.
    assert (Hsid : sid ∉ required).
    { intros Hin. destruct (Hnew sid Hin) as (_ & Habs & _).
      by rewrite lookup_insert_eq in Habs. }
    assert (Hkept : ∀ k, is_Some (mdtSpecialties db !! k) →
              mdtSpecialties db' !! k = mdtSpecialties db !! k).
    { intros k [b Hk].
      assert (Hne : (id, sid) ≠ k) by (intros <-; congruence).
      rewrite Hold; rewrite lookup_insert_ne by done; [done|by rewrite Hk]. }
    split_and!; try done.
    + by apply NoDup_cons.
    + intros sid' [->|Hin]%elem_of_cons.
      * split_and!; [by rewrite Hcat|done|].
        rewrite Hold; by rewrite lookup_insert_eq.
      * destruct (Hnew sid' Hin) as (Hc & Hnone & Hfalse).
        split_and!; [done| |done].
        rewrite lookup_insert_ne in Hnone; [done|]. by intros [= ->].
    + intros k Hk. apply Hdom in Hk as [Hk|[Hk1 Hk2]].
      * destruct (decide (k = (id, sid))) as [->|Hne].
        -- right. simpl. split; [done|]. apply elem_of_cons. by left.
        -- left. by rewrite lookup_insert_ne in Hk.
      * right. split; [done|]. apply elem_of_cons. by right.
Qed.

(** The fan-out: one new row per doctor, under ids unused before. *)
Lemma tx_forM_create_invitation {A} (f : A → MDTInvitation) (ds : list A)
    (db db' : DB) :
  tx_forM (λ d, tx_create_invitation (f d)) ds db = Done db' () →
  users db' = users db ∧ specialties db' = specialties db
  ∧ mdts db' = mdts db ∧ patientProfiles db' = patientProfiles db
  ∧ mdtSpecialties db' = mdtSpecialties db ∧ messages db' = messages db
  ∧ ∃ ids : list string,
      length ids = length ds
      ∧ Forall (λ i, invitations db !! i = None) ids
      ∧ map_to_list (invitations db')
        ≡ₚ zip ids (f <$> ds) ++ map_to_list (invitations db).
Proof.
  revert db. induction ds as [|d ds IH]; intros db.
  - intros [= <-]. repeat split; try done. by exists [].
  - simpl. unfold tx_bind at 1. unfold tx_create_invitation at 1.
    destruct (mdts db !! inv_mdtId (f d)) as [m|]; [|discriminate].
    intros Hrest. apply IH in Hrest
      as (Hu & Hs & Hm & Hp & Hsl & Hmsg & ids & Hlen & Hfresh & Hperm).
    simpl in *. repeat split; try done.
    set (i := fresh (dom (invitations db))) in *.
    assert (Hi : invitations db !! i = None)
      by apply not_elem_of_dom, is_fresh.
    exists (i :: ids). split; [by simpl; rewrite Hlen|]. split.
    + apply Forall_cons. split; [done|].
      eapply Forall_impl; [exact Hfresh|]. intros j Hj. simpl in Hj.
      destruct (decide (i = j)) as [<-|Hne]; [done|].
      by rewrite lookup_insert_ne in Hj.
    + rewrite Hperm. rewrite map_to_list_insert by done. simpl.
      by rewrite Permutation_middle.
Qed.

Lemma filter_none {A} (P : A → Prop) `{!∀ x, Decision (P x)} (l : list A) :
  (∀ x, x ∈ l → ¬ P x) → filter P l = [].
Proof.
  induction l as [|x l IH]; intros Hl; [done|].
  rewrite filter_cons. rewrite decide_False by (apply Hl; by left).
  apply IH. intros y Hy. apply Hl. by right.
Qed.

Lemma zip_filter_snd_length {A B} (P : B → Prop) `{!∀ x, Decision (P x)}
    (Q : A * B → Prop) `{!∀ p, Decision (Q p)} (ks : list A) (xs : list B) :
  (∀ p, Q p ↔ P p.2) →
  length ks = length xs →
  length (filter Q (zip ks xs)) = length (filter P xs).
Proof.
  intros HQ. revert xs.
  induction ks as [|k ks IH]; intros [|x xs] Hlen; try done.
  injection Hlen as Hlen. simpl. rewrite !filter_cons.
  specialize (IH xs Hlen). specialize (HQ (k, x)). simpl in HQ.
  destruct (decide (Q (k, x))), (decide (P x)); simpl; try tauto;
    by rewrite IH.
Qed.

Lemma zip_elem_of_snd {A B} (ks : list A) (xs : list B) (x : B) :
  length ks = length xs → x ∈ xs → ∃ k, (k, x) ∈ zip ks xs.
Proof.
  revert xs. induction ks as [|k ks IH]; intros [|y xs] Hlen Hin;
    try done; [by apply elem_of_nil in Hin|].
  injection Hlen as Hlen. apply elem_of_cons in Hin as [->|Hin].
  - exists k. simpl. by left.
  - destruct (IH xs Hlen Hin) as [k' Hk']. exists k'. simpl. by right.
Qed.

Lemma zip_elem_of_fst {A B} (ks : list A) (xs : list B) (k : A) (x : B) :
  (k, x) ∈ zip ks xs → k ∈ ks ∧ x ∈ xs.
Proof.
  revert xs. induction ks as [|k' ks IH]; intros [|y xs] Hin;
    try by apply elem_of_nil in Hin.
  simpl in Hin. apply elem_of_cons in Hin as [[= -> ->]|Hin].
  - split; by left.
  - destruct (IH xs Hin). split; by right.
Qed.

(** The doctors found are rows of the user table, each found once. *)
Lemma findMany_externalDoctors_elem (db : DB) (required : list Z)
    (uid : string) (u : User) :
  (uid, u) ∈ findMany_externalDoctors db required
  ↔ users db !! uid = Some u ∧ matches_required required u = true.
Proof.
  unfold findMany_externalDoctors.
  rewrite list_elem_of_filter, elem_of_map_to_list. simpl. tauto.
Qed.

Lemma findMany_externalDoctors_count (db : DB) (required : list Z)
    (uid : string) (u : User) :
  users db !! uid = Some u →
  length (filter (λ d, d.1 = uid) (findMany_externalDoctors db required))
  = if matches_required required u then 1 else 0.
Proof.
  intros Hu. unfold findMany_externalDoctors.
  assert (Hnd : NoDup (map_to_list (users db)).*1) by apply NoDup_fst_map_to_list.
  assert (Hin : ∀ v, (uid, v) ∈ map_to_list (users db) → v = u).
  { intros v Hv. apply elem_of_map_to_list in Hv. congruence. }
  assert (Hex : matches_required required u = true →
                (uid, u) ∈ map_to_list (users db)).
  { intros _. by apply elem_of_map_to_list. }
  revert Hnd Hin Hex. generalize (map_to_list (users db)).
  induction l as [|[k v] l IH]; intros Hnd Hin Hex.
  - destruct (matches_required required u) eqn:Hmatch; [|done].
    by apply elem_of_nil in Hex.
  - simpl in Hnd. apply NoDup_cons in Hnd as [Hk Hnd].
    rewrite filter_cons. simpl.
    destruct (decide (k = uid)) as [->|Hne].
    + assert (v = u) as -> by (apply Hin; by left).
      assert (Hrest : filter (λ d : string * User, d.1 = uid)
                (filter (λ p, matches_required required p.2 = true) l) = []).
      { apply filter_none. intros [k' v'] Hkv Heq.
        simpl in Heq. subst k'. apply list_elem_of_filter in Hkv as [_ Hkv].
        apply Hk. apply list_elem_of_fmap. by exists (uid, v'). }
      case_decide as Hm; simpl in Hm.
      * rewrite filter_cons. simpl. rewrite decide_True by done.
        by rewrite Hrest, Hm.
      * rewrite Hrest. by destruct (matches_required required u).
    + assert (IH' : length (filter (λ d : string * User, d.1 = uid)
                (filter (λ p, matches_required required p.2 = true) l))
              = if matches_required required u then 1 else 0).
      { apply IH; [done| |].
        - intros v' Hv'. apply Hin. by right.
        - intros Hm. apply Hex in Hm. apply elem_of_cons in Hm as [[= ->]|Hm];
            [done|done]. }
      case_decide; [|done].
      rewrite filter_cons. simpl. by rewrite decide_False.
Qed.

Lemma create_mdt_tx_done (creator : string) (body : CreateMDTBody)
    (db db' : DB) (v : option MDTView) :
  create_mdt_tx creator body db = Done db' v →
  created db db' creator body (fresh (dom (mdts db))) v.
Proof.
  unfold create_mdt_tx. set (id := fresh (dom (mdts db))).
  assert (Hid : mdts db !! id = None) by apply not_elem_of_dom, is_fresh.
  unfold tx_bind at 1. unfold tx_create_mdt. fold id.
  destruct (users db !! creator) as [c|] eqn:Hcreator; [|discriminate].
  unfold tx_bind at 1. unfold tx_connect_members. simpl.
  rewrite lookup_insert_eq.
  assert (Hsome : bool_decide (is_Some (users db !! creator)) = true)
    by (apply bool_decide_eq_true_2; by rewrite Hcreator).
  rewrite Hsome. simpl.
  destruct (forallb _ (localDoctors body)) eqn:Hlocals; [|discriminate].
  rewrite forallb_forall in Hlocals.
  unfold tx_bind at 1. unfold tx_create_patientProfile. simpl.
  rewrite lookup_insert_eq.
  unfold tx_bind at 1.
  destruct (tx_forM (tx_create_mdtSpecialty id) (requiredSpecialties body) _)
    as [db4 []|] eqn:Hslots; [|discriminate].
  apply tx_forM_create_mdtSpecialty in Hslots
    as (Hu4 & Hs4 & Hm4 & Hp4 & Hi4 & Hmsg4 & Hnd & Hnew & Hold & Honly).
  simpl in *.
  unfold tx_bind at 1. unfold tx_get. unfold tx_bind at 1.
  destruct (tx_forM _ (findMany_externalDoctors db4 _) db4)
    as [db5 []|] eqn:Hinvs; [|discriminate].
  apply tx_forM_create_invitation in Hinvs
    as (Hu5 & Hs5 & Hm5 & Hp5 & Hsl5 & Hmsg5 & ids & Hlen & Hfresh & Hperm).
  assert (Hdoctors : findMany_externalDoctors db4 (requiredSpecialties body)
                     = findMany_externalDoctors db (requiredSpecialties body)).
  { unfold findMany_externalDoctors. by rewrite Hu4. }
  rewrite Hdoctors in *. rewrite Hi4 in *.
  unfold tx_findUnique_mdt. intros [= <- <-].
  assert (Hmdts : mdts db5 = <[id:=new_mdt creator body]> (mdts db)).
  { rewrite Hm5, Hm4. simpl. by rewrite insert_insert_eq. }
  split; try congruence.
  - by rewrite Hcreator.
  - apply Forall_forall. intros u Hin. apply list_elem_of_In, Hlocals in Hin.
    by apply bool_decide_eq_true in Hin.
  - by rewrite Hp5, Hp4.
  - by rewrite Hsl5.
  - by rewrite Hsl5.
  - by rewrite Hsl5.
  - by exists ids.
  - by rewrite Hmdts, lookup_insert_eq.
Qed.

Lemma POST_mdt_json (db db' : DB) (session : option string)
    (body : CreateMDTBody) (st : Z) (v : option MDTView) :
  POST_mdt db session body = (db', Json st v) →
  ∃ creator : string * User,
    (∃ e, session = Some e ∧ e ≠ "" ∧ user_by_email db e = Some creator)
    ∧ userType creator.2 = LOCAL
    ∧ st = 200%Z
    ∧ create_mdt_tx creator.1 body db = Done db' v.
Proof.
  unfold POST_mdt, transaction.
  destruct (require_session session) as [e|[st' msg]] eqn:He; simpl;
    [|discriminate].
  apply require_session_pass in He as [-> Hne].
  destruct (require_user db e "User not found") as [u|[st' msg]] eqn:Hu;
    simpl; [|discriminate].
  apply require_user_pass in Hu.
  case_bool_decide as Hlocal; [discriminate|]. simpl.
  destruct (create_mdt_tx u.1 body db) as [db1 v1|err] eqn:Htx;
    [|discriminate].
  intros [= <- <- <-]. exists u. split; [by exists e|].
  split; [by destruct (userType u.2)|]. done.
Qed.

(** A creation that is answered with an error leaves the store as it was. *)
Lemma POST_mdt_error_unchanged (db db' : DB) (session : option string)
    (body : CreateMDTBody) (st : Z) (msg : string) :
  POST_mdt db session body = (db', Error st msg) → db' = db.
Proof.
  unfold POST_mdt, transaction.
  destruct (_ : guard string) as [creator|[st' msg']].
  - destruct (create_mdt_tx creator body db); [discriminate|].
    by intros [= <- _ _].
  - by intros [= <- _ _].
Qed.

(** C4: the writes of an MDT creation are the commit of one transaction.
    A creation that is answered with an error leaves the store exactly as
    it was; a creation that succeeds has written the MDT row with status
    ACTIVE under an id unused before, whose members are the creator and the
    listed local doctors, the patient profile with its medications, one
    unfilled MDTSpecialty row per required specialty, and an invitation for
    every external doctor the matching step found. *)
Theorem create_mdt_atomic (db db' : DB) (session : option string)
    (body : CreateMDTBody) (r : response (option MDTView)) :
  POST_mdt db session body = (db', r) →
  match r with
  | Error _ _ => db' = db
  | Json _ v =>
      ∃ (creator id : string) (m : MDT),
        transaction (create_mdt_tx creator body) db = (db', inl v)
        ∧ mdts db !! id = None
        ∧ mdts db' !! id = Some m
        ∧ mdtName m = name body ∧ creatorId m = creator
        ∧ mdtStatus m = ACTIVE
        ∧ (∀ u, u ∈ members m ↔ u = creator ∨ u ∈ localDoctors body)
        ∧ (∃ pid, patientProfiles db !! pid = None
             ∧ patientProfiles db' !! pid
               = Some {| age := in_age (patientProfile body);
                         gender := in_gender (patientProfile body);
                         uniqueId := in_uniqueId (patientProfile body);
                         medicalHistory :=
                           in_medicalHistory (patientProfile body);
                         caseSummary := in_caseSummary (patientProfile body);
                         profileMdtId := id;
                         medications :=
                           in_medications (patientProfile body) |})
        ∧ (∀ sid, sid ∈ requiredSpecialties body →
             mdtSpecialties db !! (id, sid) = None
             ∧ mdtSpecialties db' !! (id, sid) = Some false)
        ∧ (∀ doctor,
             doctor ∈ findMany_externalDoctors db (requiredSpecialties body) →
             ∃ i, invitations db !! i = None
               ∧ invitations db' !! i
                 = Some (invitation_for id creator
                           (requiredSpecialties body) doctor))
  end.
Proof.
  intros Hpost. destruct r as [st v|st msg];
    [|by eapply POST_mdt_error_unchanged].
  apply POST_mdt_json in Hpost as (creator & _ & _ & _ & Htx).
  apply create_mdt_tx_done in Htx as Hcreated. destruct Hcreated.
  exists creator.1, (fresh (dom (mdts db))), (new_mdt creator.1 body).
  split; [by unfold transaction; rewrite Htx|]. split; [done|].
  split; [by rewrite created_mdt0, lookup_insert_eq|].
  split; [done|]. split; [done|]. split; [done|]. split; [|split; [|split]].
  - intros u. simpl.
    rewrite elem_of_union, elem_of_union, elem_of_singleton,
      elem_of_list_to_set. pose proof (not_elem_of_empty (C := gset string) u).
    tauto.
  - exists (fresh (dom (patientProfiles db))). split.
    + apply not_elem_of_dom, is_fresh.
    + rewrite created_profile0, lookup_insert_eq. unfold new_patientProfile.
      do 2 f_equal. induction (in_medications (patientProfile body))
        as [|[] l IH]; [done|]. simpl. by f_equal.
  - intros sid Hsid. by destruct (created_slots0 sid Hsid) as (_ & ? & ?).
  - intros doctor Hdoctor.
    destruct created_invitations0 as (ids & Hlen & Hfresh & Hperm).
    destruct (zip_elem_of_snd ids
      (invitation_for (fresh (dom (mdts db))) creator.1
         (requiredSpecialties body)
       <$> findMany_externalDoctors db (requiredSpecialties body))
      (invitation_for (fresh (dom (mdts db))) creator.1
         (requiredSpecialties body) doctor)) as [i Hi].
    + by rewrite length_fmap.
    + apply list_elem_of_fmap. by exists doctor.
    + exists i. split.
      * apply zip_elem_of_fst in Hi as [Hi _].
        by eapply Forall_forall in Hfresh.
      * apply elem_of_map_to_list. rewrite Hperm. apply elem_of_app. by left.
Qed.

Lemma create_mdt_atomic_witness :
  (∃ (creator id : string) (m : MDT),
     mdts Sample.store !! id = Some m
     ∧ mdtStatus m = ACTIVE
     ∧ creator ∈ members m
     ∧ mdtSpecialties Sample.store !! (id, Sample.Cardiology) = Some false)
  ∧ (POST_mdt Sample.empty_store Sample.sessionA Sample.duplicate_body).1
    = Sample.empty_store.
Proof.
  split.
  - assert (Hpost : ∃ v,
      POST_mdt Sample.empty_store Sample.sessionA Sample.case_body
      = (Sample.store, Json 200 v)) by (eexists; vm_compute; reflexivity).
    destruct Hpost as [v Hpost].
    destruct (create_mdt_atomic _ _ _ _ _ Hpost)
      as (creator & id & m & _ & _ & Hm & _ & _ & Hactive & Hmem & _
          & Hslots & _).
    exists creator, id, m. split; [done|]. split; [done|].
    split; [apply Hmem; by left|]. apply Hslots. by left.
  - apply (create_mdt_atomic Sample.empty_store _ Sample.sessionA
             Sample.duplicate_body
             (Error 500 "Unique constraint failed")).
    by vm_compute.
Defined.

(** ** The matching step *)

(** [Array.prototype.find] returns the first element that passes. *)
Lemma find_first {A} (f : A → bool) (l : list A) (x : A) :
  List.find f l = Some x →
  ∃ pre post : list A,
    l = (pre ++ x :: post)%list ∧ f x = true ∧ ∀ y, y ∈ pre → f y = false.
Proof.
  induction l as [|a l IH]; [done|]. simpl.
  destruct (f a) eqn:Hfa.
  - intros [= ->]. exists [], l. split; [done|]. split; [done|].
    intros y Hy. by apply elem_of_nil in Hy.
  - intros Hfind. destruct (IH Hfind) as (pre & post & -> & Hx & Hpre).
    exists (a :: pre), post. split; [done|]. split; [done|].
    intros y Hy. apply elem_of_cons in Hy as [->|Hy]; auto.
Qed.

(** D lists Oncology before Cardiology: the invitation is tied to Oncology
    although Cardiology comes first among the required specialties. *)
Example matchingSpecialty_D :
  matchingSpecialty [Sample.Cardiology; Sample.Oncology] Sample.userD
  = Some Sample.Oncology.
Proof. reflexivity. Qed.

(** A matching doctor has a first specialty in common with the required
    ones. *)
Lemma matchingSpecialty_Some (required : list Z) (u : User) :
  matches_required required u = true →
  ∃ (sp : Z) (pre post : list Z),
    matchingSpecialty required u = Some sp
    ∧ userSpecialties u = (pre ++ sp :: post)%list
    ∧ sp ∈ required
    ∧ ∀ y, y ∈ pre → y ∉ required.
Proof.
  unfold matches_required, matchingSpecialty.
  intros [_ Hex]%andb_true_iff.
  apply existsb_exists in Hex as (s & Hs & Hreq).
  destruct (List.find _ (userSpecialties u)) as [sp|] eqn:Hfind.
  - destruct (find_first _ _ _ Hfind) as (pre & post & Hl & Hsp & Hpre).
    exists sp, pre, post. split; [done|]. split; [done|].
    split; [by apply bool_decide_eq_true in Hsp|].
    intros y Hy. apply Hpre in Hy. by apply bool_decide_eq_false in Hy.
  - eapply find_none in Hfind; [|exact Hs]. congruence.
Qed.

Lemma filter_all {A} (P : A → Prop) `{!∀ x, Decision (P x)} (l : list A) :
  (∀ x, x ∈ l → P x) → filter P l = l.
Proof.
  induction l as [|x l IH]; intros Hl; [done|].
  rewrite filter_cons. rewrite decide_True by (apply Hl; by left).
  f_equal. apply IH. intros y Hy. apply Hl. by right.
Qed.

Lemma filter_fmap_length {A B} (f : A → B) (P : B → Prop)
    `{!∀ x, Decision (P x)} (Q : A → Prop) `{!∀ x, Decision (Q x)}
    (l : list A) :
  (∀ x, Q x ↔ P (f x)) →
  length (filter P (f <$> l)) = length (filter Q l).
Proof.
  intros HQ. induction l as [|x l IH]; [done|].
  rewrite fmap_cons, !filter_cons.
  specialize (HQ x).
  destruct (decide (P (f x))), (decide (Q x)); simpl; try tauto;
    by rewrite IH.
Qed.

(** The invitations of the new MDT are the rows of the fan-out. *)
Lemma created_invitations_of (db db' : DB) (creator : string)
    (body : CreateMDTBody) (id : string) (v : option MDTView) :
  created db db' creator body id v →
  foreign_keys db →
  ∃ ids : list string,
    length ids = length (findMany_externalDoctors db (requiredSpecialties body))
    ∧ invitations_of db' id
      ≡ₚ zip ids (invitation_for id creator (requiredSpecialties body)
                    <$> findMany_externalDoctors db (requiredSpecialties body)).
Proof.
  intros Hcreated Hfk.
  destruct (created_invitations _ _ _ _ _ _ Hcreated)
    as (ids & Hlen & _ & Hperm).
  exists ids. split; [done|]. unfold invitations_of.
  rewrite Hperm, filter_app.
  rewrite (filter_none _ (map_to_list (invitations db))).
  - rewrite app_nil_r. rewrite filter_all; [done|].
    intros [i inv] Hin. apply zip_elem_of_fst in Hin as [_ Hin].
    apply list_elem_of_fmap in Hin as (d & -> & _). done.
  - intros [i inv] Hin Hmdt. simpl in Hmdt.
    apply elem_of_map_to_list, Hfk in Hin as [m Hm].
    rewrite Hmdt in Hm. pose proof (created_fresh _ _ _ _ _ _ Hcreated).
    congruence.
Qed.

Lemma matches_required_spec (required : list Z) (u : User) :
  matches_required required u = true
  ↔ userType u = EXTERNAL
    ∧ ∃ s, s ∈ userSpecialties u ∧ s ∈ required.
Proof.
  unfold matches_required. rewrite andb_true_iff, bool_decide_eq_true.
  rewrite existsb_exists. split.
  - intros [Hext (s & Hs & Hreq)]. split; [done|]. exists s.
    split; [by apply list_elem_of_In|by apply bool_decide_eq_true in Hreq].
  - intros [Hext (s & Hs & Hreq)]. split; [done|]. exists s.
    split; [by apply list_elem_of_In|by apply bool_decide_eq_true].
Qed.

(** C3: after a successful creation the creator is a member of the new
    MDT, and the invitations of the new MDT are these: every EXTERNAL user
    with a specialty among the required ones has exactly one, PENDING, sent
    by the creator and tied to the first of the user's specialties that is
    required; every other user has none.  The store is one that keeps its
    foreign keys (an invitation refers to an existing MDT) and numbers its
    specialties from 1, as every store the handlers produce from such a
    store does ([handlers_keep_integrity]). *)
Theorem create_mdt_one_invitation_per_doctor (db db' : DB)
    (session : option string) (body : CreateMDTBody) (st : Z)
    (view : MDTView) :
  POST_mdt db session body = (db', Json st (Some view)) →
  serial_specialties db →
  foreign_keys db →
  ∃ creator : string * User,
    (∃ e, session = Some e ∧ user_by_email db e = Some creator)
    ∧ mdts db' !! view_id view = Some (view_mdt view)
    ∧ creator.1 ∈ members (view_mdt view)
    ∧ view_invitations view = invitations_of db' (view_id view)
    ∧ ∀ (uid : string) (u : User),
        users db !! uid = Some u →
        let required := requiredSpecialties body in
        let sent := filter (λ p, receiverId p.2 = uid) (view_invitations view) in
        (userType u = EXTERNAL →
         (∃ s, s ∈ userSpecialties u ∧ s ∈ required) →
         ∃ (i : string) (sp : Z) (pre post : list Z),
           sent = [(i, {| inv_mdtId := view_id view; senderId := creator.1;
                          receiverId := uid; inv_specialtyId := Some sp;
                          inv_status := PENDING |})]
           ∧ userSpecialties u = (pre ++ sp :: post)%list
           ∧ sp ∈ required
           ∧ ∀ y, y ∈ pre → y ∉ required)
        ∧ (¬ (userType u = EXTERNAL
              ∧ ∃ s, s ∈ userSpecialties u ∧ s ∈ required) →
           sent = []).
Proof.
  intros Hpost Hserial Hfk.
  apply POST_mdt_json in Hpost as (creator & (e & -> & _ & Hu) & _ & _ & Htx).
  apply create_mdt_tx_done in Htx as Hcreated.
  destruct (created_invitations_of _ _ _ _ _ _ Hcreated Hfk)
    as (ids & Hlen & Hperm).
  pose proof (created_view _ _ _ _ _ _ Hcreated) as [= ->]. simpl.
  set (id := fresh (dom (mdts db))) in *.
  set (required := requiredSpecialties body) in *.
  exists creator. split; [by exists e|].
  split; [by rewrite (created_mdt _ _ _ _ _ _ Hcreated), lookup_insert_eq|].
  split; [set_solver|]. split; [done|].
  intros uid u Huid.
  assert (Hcount :
    length (filter (λ p : string * MDTInvitation, receiverId p.2 = uid)
              (invitations_of db' id))
    = if matches_required required u then 1 else 0).
  { rewrite Hperm.
    rewrite (zip_filter_snd_length (λ inv, receiverId inv = uid))
      by (done || by rewrite length_fmap).
    rewrite (filter_fmap_length _ _ (λ d : string * User, d.1 = uid)) by done.
    by apply findMany_externalDoctors_count. }
  split.
  - intros Hext Hcommon.
    assert (Hmatch : matches_required required u = true)
      by by apply matches_required_spec.
    rewrite Hmatch in Hcount.
    destruct (matchingSpecialty_Some _ _ Hmatch)
      as (sp & pre & post & Hsp & Hsplit & Hreq & Hpre).
    destruct (filter _ (invitations_of db' id)) as [|[i inv] [|? ?]] eqn:Hsent;
      try discriminate.
    exists i, sp, pre, post. split; [|done].
    assert (Hin : (i, inv) ∈ filter
      (λ p : string * MDTInvitation, receiverId p.2 = uid)
      (invitations_of db' id)) by (rewrite Hsent; by left).
    apply list_elem_of_filter in Hin as [Hrecv Hin]. simpl in Hrecv.
    rewrite Hperm in Hin. apply zip_elem_of_fst in Hin as [_ Hin].
    apply list_elem_of_fmap in Hin as ([uid' u'] & -> & Hdoctor).
    simpl in Hrecv. subst uid'.
    apply findMany_externalDoctors_elem in Hdoctor as [Hu' _].
    assert (u' = u) as -> by congruence.
    unfold invitation_for. simpl. rewrite Hsp. simpl.
    destruct (created_slots _ _ _ _ _ _ Hcreated sp Hreq) as (Hcat & _).
    apply Hserial in Hcat. apply Z.eqb_neq in Hcat. by rewrite Hcat.
  - intros Hno.
    assert (Hmatch : matches_required required u = false).
    { destruct (matches_required required u) eqn:Hm; [|done].
      by apply matches_required_spec in Hm. }
    rewrite Hmatch in Hcount. by apply nil_length_inv.
Qed.

(** ** Integrity is kept *)

(** The invitations are the same rows. *)
Ltac same_invitations :=
  split_and!; [done|done|];
  let j := fresh "j" in let inv := fresh "inv" in let Hj := fresh "Hj" in
  intros j inv Hj; right; by exists inv.

Lemma keeps_refl (db : DB) : keeps db db.
Proof. same_invitations. Qed.

Lemma keeps_trans (db1 db2 db3 : DB) :
  keeps db1 db2 → keeps db2 db3 → keeps db1 db3.
Proof.
  intros (Hs12 & Hm12 & Hi12) (Hs23 & Hm23 & Hi23). split_and!.
  - congruence.
  - auto.
  - intros j inv3 Hj. destruct (Hi23 j inv3 Hj) as [|(inv2 & Hj2 & Heq)];
      [by left|].
    destruct (Hi12 j inv2 Hj2) as [Hm|(inv1 & Hj1 & Heq')].
    + left. rewrite Heq. auto.
    + right. exists inv1. split; [done|congruence].
Qed.

Lemma keeps_integrity (db db' : DB) :
  keeps db db' →
  foreign_keys db ∧ serial_specialties db →
  foreign_keys db' ∧ serial_specialties db'.
Proof.
  intros (Hs & Hm & Hi) [Hfk Hserial]. split.
  - intros j inv' Hj. destruct (Hi j inv' Hj) as [|(inv & Hinv & Heq)];
      [done|].
    rewrite Heq. eauto.
  - intros sid. rewrite Hs. apply Hserial.
Qed.

Lemma keeps_set_messages (db : DB) f : keeps db (set_messages f db).
Proof. same_invitations. Qed.

Lemma keeps_set_mdtSpecialties (db : DB) f : keeps db (set_mdtSpecialties f db).
Proof. same_invitations. Qed.

Lemma keeps_set_patientProfiles (db : DB) f :
  keeps db (set_patientProfiles f db).
Proof. same_invitations. Qed.

(** Writing a row of the MDT table. *)
Lemma keeps_insert_mdt (db : DB) (id : string) (m : MDT) :
  keeps db (set_mdts (insert id m) db).
Proof.
  split_and!; [done| |].
  - intros k Hk. simpl. by apply lookup_insert_is_Some', or_intror.
  - intros j inv' Hj. right. by exists inv'.
Qed.

(** Rewriting the status of invitations. *)
Lemma keeps_insert_status (db : DB) (id : string) (i : MDTInvitation)
    (st : InvitationStatus) :
  invitations db !! id = Some i →
  keeps db (set_invitations (insert id (set_status st i)) db).
Proof.
  intros Hi. split_and!; [done|done|]. intros j inv' Hj. simpl in Hj. right.
  destruct (decide (id = j)) as [<-|Hne].
  - rewrite lookup_insert_eq in Hj. injection Hj as <-. by exists i.
  - rewrite lookup_insert_ne in Hj by done. by exists inv'.
Qed.

(** Adding an invitation to an existing MDT. *)
Lemma keeps_insert_invitation (db : DB) (id : string) (i : MDTInvitation) :
  is_Some (mdts db !! inv_mdtId i) →
  keeps db (set_invitations (insert id i) db).
Proof.
  intros Hm. split_and!; [done|done|]. intros j inv' Hj. simpl in Hj.
  destruct (decide (id = j)) as [<-|Hne].
  - rewrite lookup_insert_eq in Hj. injection Hj as <-. by left.
  - rewrite lookup_insert_ne in Hj by done. right. by exists inv'.
Qed.

Lemma keeps_tx_connect_members (id : string) (ids : list string)
    (db db' : DB) :
  tx_connect_members id ids db = Done db' () → keeps db db'.
Proof.
  unfold tx_connect_members. destruct (mdts db !! id); [|discriminate].
  destruct (forallb _ ids); [|discriminate]. intros [= <-].
  apply keeps_insert_mdt.
Qed.

Lemma keeps_tx_cancel_competing (id : string) (invitation : MDTInvitation)
    (db db' : DB) :
  tx_cancel_competing id invitation db = Done db' () → keeps db db'.
Proof.
  unfold tx_cancel_competing, tx_modify. intros [= <-].
  split_and!; [done|done|]. intros j inv' Hj. simpl in Hj. right.
  rewrite map_lookup_imap in Hj.
  destruct (invitations db !! j) as [other|] eqn:Hother; [|done].
  simpl in Hj. injection Hj as <-. exists other. split; [done|].
  by destruct (competing id invitation j other).
Qed.

Lemma keeps_respond_tx (id : string) (s : Snapshot) (db db' : DB)
    (r : MDTInvitation) :
  respond_tx id s db = Done db' r → keeps db db'.
Proof.
  unfold respond_tx, tx_bind, tx_update_invitation.
  destruct (invitations db !! id) as [i|] eqn:Hi; [|discriminate].
  pose proof (keeps_insert_status db id i (snap_status s) Hi) as H1.
  set (db1 := set_invitations _ db) in *.
  case_bool_decide; [|by intros [= <-]].
  destruct (tx_connect_members _ _ db1) as [db2 []|] eqn:H2; [|discriminate].
  apply keeps_tx_connect_members in H2.
  destruct (tx_fill_mdtSpecialty _ _ db2) as [db3 []|] eqn:H3; [|discriminate].
  assert (H3' : keeps db2 db3).
  { unfold tx_fill_mdtSpecialty in H3.
    destruct (inv_specialtyId (snap_invitation s)); [|discriminate].
    destruct (mdtSpecialties db2 !! _); [|discriminate].
    injection H3 as <-. apply keeps_set_mdtSpecialties. }
  destruct (tx_cancel_competing _ _ db3) as [db4 []|] eqn:H4; [|discriminate].
  apply keeps_tx_cancel_competing in H4. intros [= <-].
  eauto using keeps_trans.
Qed.

Lemma keeps_POST_message (db : DB) (now : Z) (session : option string)
    (id : string) (v : jsvalue) :
  keeps db (POST_message db now session id v).1.
Proof.
  unfold POST_message.
  destruct (POST_message_checks db session id v) as [[c uid]|[st msg]];
    simpl; [apply keeps_set_messages|apply keeps_refl].
Qed.

Lemma keeps_POST_mdt (db : DB) (session : option string)
    (body : CreateMDTBody) :
  keeps db (POST_mdt db session body).1.
Proof.
  destruct (POST_mdt db session body) as [db' [st v|st msg]] eqn:Hpost; simpl.
  - apply POST_mdt_json in Hpost as (creator & _ & _ & _ & Htx).
    apply create_mdt_tx_done in Htx as Hcreated.
    destruct (created_invitations _ _ _ _ _ _ Hcreated)
      as (ids & _ & _ & Hperm).
    pose proof (created_mdt _ _ _ _ _ _ Hcreated) as Hmdts.
    split_and!.
    + exact (created_catalog _ _ _ _ _ _ Hcreated).
    + intros k Hk. rewrite Hmdts. by apply lookup_insert_is_Some', or_intror.
    + intros j inv' Hj. apply elem_of_map_to_list in Hj.
      rewrite Hperm in Hj. apply elem_of_app in Hj as [Hj|Hj].
      * left. apply zip_elem_of_fst in Hj as [_ Hj].
        apply list_elem_of_fmap in Hj as (d & -> & _). simpl.
        by rewrite Hmdts, lookup_insert_eq.
      * right. exists inv'. split; [by apply elem_of_map_to_list|done].
  - apply POST_mdt_error_unchanged in Hpost as ->. apply keeps_refl.
Qed.

Lemma keeps_PATCH_invitation (db : DB) (session : option string)
    (id status : string) :
  keeps db (PATCH_invitation db session id status).1.
Proof.
  unfold PATCH_invitation, PATCH_invitation_commit, transaction.
  destruct (PATCH_invitation_checks db session id status) as [s|[st msg]];
    [|apply keeps_refl].
  destruct (respond_tx id s db) as [db' r|err] eqn:Htx; simpl;
    [by eapply keeps_respond_tx|apply keeps_refl].
Qed.

Lemma keeps_DELETE_invitation (db : DB) (session : option string)
    (id : string) :
  keeps db (DELETE_invitation db session id).1.
Proof.
  unfold DELETE_invitation.
  destruct (require_session session) as [e|[st msg]]; simpl;
    [|apply keeps_refl].
  destruct (require_user db e "User not found") as [u|[st msg]]; simpl;
    [|apply keeps_refl].
  destruct (invitations db !! id) as [i|] eqn:Hi; [|apply keeps_refl].
  repeat case_bool_decide; simpl; try apply keeps_refl.
  by apply keeps_insert_status.
Qed.

Lemma keeps_POST_invitation (db : DB) (session : option string)
    (mdtId receiverEmail : string) :
  keeps db (POST_invitation db session mdtId receiverEmail).1.
Proof.
  destruct (POST_invitation db session mdtId receiverEmail)
    as [db' [st [id i]|st msg]] eqn:Hpost; simpl.
  - apply POST_invitation_created in Hpost
      as (sender & receiver & _ & Hm & -> & _ & ->).
    by apply keeps_insert_invitation.
  - unfold POST_invitation in Hpost.
    destruct (_ : guard MDTInvitation) as [i|[st' msg']];
      injection Hpost as <-; [done|apply keeps_refl].
Qed.

Lemma keeps_PATCH_invitations (db : DB) (session : option string)
    (invitationId status : string) :
  keeps db (PATCH_invitations db session invitationId status).1.
Proof.
  unfold PATCH_invitations.
  destruct (require_session session) as [e|[st msg]]; simpl;
    [|apply keeps_refl].
  destruct (require_user db e "User not found") as [u|[st msg]]; simpl;
    [|apply keeps_refl].
  destruct (invitations db !! invitationId) as [i|] eqn:Hi;
    [|apply keeps_refl].
  destruct (parse_status status) as [st|]; [|apply keeps_refl].
  case_bool_decide; simpl; [|apply keeps_refl].
  pose proof (keeps_insert_status db invitationId i st Hi) as H1.
  case_bool_decide; [|done].
  destruct (tx_connect_members _ _ _) as [db2 []|] eqn:H2; simpl; [|done].
  apply keeps_tx_connect_members in H2. eauto using keeps_trans.
Qed.

(** Every handler that writes takes a store that keeps its foreign keys and
    numbers its specialties from 1 to such a store. *)
Lemma handlers_keep_integrity (db : DB) :
  foreign_keys db ∧ serial_specialties db →
  (∀ now session id v,
     let db' := (POST_message db now session id v).1 in
     foreign_keys db' ∧ serial_specialties db')
  ∧ (∀ session body,
     let db' := (POST_mdt db session body).1 in
     foreign_keys db' ∧ serial_specialties db')
  ∧ (∀ session id status,
     let db' := (PATCH_invitation db session id status).1 in
     foreign_keys db' ∧ serial_specialties db')
  ∧ (∀ session id,
     let db' := (DELETE_invitation db session id).1 in
     foreign_keys db' ∧ serial_specialties db')
  ∧ (∀ session mdtId receiverEmail,
     let db' := (POST_invitation db session mdtId receiverEmail).1 in
     foreign_keys db' ∧ serial_specialties db')
  ∧ (∀ session invitationId status,
     let db' := (PATCH_invitations db session invitationId status).1 in
     foreign_keys db' ∧ serial_specialties db').
Proof.
  intros Hdb. split_and!; intros; eapply keeps_integrity; eauto using
    keeps_POST_message, keeps_POST_mdt, keeps_PATCH_invitation,
    keeps_DELETE_invitation, keeps_POST_invitation, keeps_PATCH_invitations.
Qed.

(** The sample stores are such stores. *)
Lemma sample_integrity :
  foreign_keys Sample.empty_store ∧ serial_specialties Sample.empty_store.
Proof.
  split.
  - intros i inv Hi. by vm_compute in Hi.
  - intros sid [nm Hnm].
    assert (Hall : map_Forall (λ (sid : Z) (_ : string), sid ≠ 0%Z)
                     (specialties Sample.empty_store)).
    { apply (bool_decide_unpack _). by vm_compute. }
    exact (Hall sid nm Hnm).
Qed.

Lemma sample_store_integrity :
  foreign_keys Sample.store ∧ serial_specialties Sample.store.
Proof.
  apply (handlers_keep_integrity Sample.empty_store sample_integrity).
Qed.

Lemma create_mdt_one_invitation_per_doctor_witness :
  ∃ (view : MDTView) (i : string) (sp : Z),
    (POST_mdt Sample.store Sample.sessionA Sample.case_body).2
      = Json 200 (Some view)
    ∧ "A" ∈ members (view_mdt view)
    ∧ filter (λ p, receiverId p.2 = "D") (view_invitations view)
      = [(i, {| inv_mdtId := view_id view; senderId := "A";
                receiverId := "D"; inv_specialtyId := Some sp;
                inv_status := PENDING |})]
    ∧ sp ∈ requiredSpecialties Sample.case_body
    ∧ filter (λ p, receiverId p.2 = "B") (view_invitations view) = [].
Proof.
  assert (Hpost : ∃ view,
    POST_mdt Sample.store Sample.sessionA Sample.case_body
    = ((POST_mdt Sample.store Sample.sessionA Sample.case_body).1,
       Json 200 (Some view))) by (eexists; vm_compute; reflexivity).
  destruct Hpost as [view Hpost].
  destruct (create_mdt_one_invitation_per_doctor Sample.store _
               Sample.sessionA Sample.case_body 200 view Hpost)
    as (creator & (e & He & Hu) & _ & Hmember & _ & Hsent).
  - apply sample_store_integrity.
  - apply sample_store_integrity.
  - assert (creator = ("A", Sample.userA)) as ->.
    { injection He as <-. vm_compute in Hu. by injection Hu as <-. }
    destruct (Hsent "D" Sample.userD) as [HD _]; [by vm_compute|].
    destruct HD as (i & sp & pre & post & HsentD & _ & Hreq & _);
      [done|exists Sample.Oncology; split; [by left|by right; left]|].
    destruct (Hsent "B" Sample.userB) as [_ HB]; [by vm_compute|].
    exists view, i, sp. split; [by rewrite Hpost|].
    split; [exact Hmember|]. split; [exact HsentD|]. split; [exact Hreq|].
    apply HB. intros [_ (s & Hs & Hr)].
    apply list_elem_of_singleton in Hs as ->.
    unfold Sample.case_body in Hr. simpl in Hr.
    apply elem_of_cons in Hr as [Hr|Hr]; [done|].
    apply elem_of_cons in Hr as [Hr|Hr]; [done|].
    by apply elem_of_nil in Hr.
Defined.

(** * Further properties *)

(** ** Declining and withdrawing *)

Lemma PATCH_invitation_checks_decline (db : DB) (session : option string)
    (id : string) (s : Snapshot) :
  PATCH_invitation_checks db session id "DECLINED" = inl s
  ↔ respond_ready db session id DECLINED s.
Proof.
  unfold PATCH_invitation_checks. rewrite guard_bind_pass. split.
  - intros (e & He & H). apply require_session_pass in He as [-> Hne].
    simpl in H. apply guard_bind_pass in H as (u & Hu & H).
    apply require_user_pass in Hu.
    destruct (invitations db !! id) as [inv|] eqn:Hinv; [|discriminate].
    destruct (mdts db !! inv_mdtId inv) as [m|] eqn:Hm; [|discriminate].
    case_bool_decide as Hrecv; [discriminate|].
    case_bool_decide as Hpend; [discriminate|].
    simpl in H. injection H as <-.
    split; simpl; eauto 10. discriminate.
  - intros [(e & -> & Hne & u & Hu & Hsu) Hinv [m Hm] Hrecv Hpend Hst _].
    exists e. split; [by apply require_session_pass|]. simpl.
    apply guard_bind_pass. exists u. split; [by apply require_user_pass|].
    rewrite Hinv, Hm.
    rewrite bool_decide_eq_false_2 by (rewrite Hrecv, Hsu; auto).
    rewrite bool_decide_eq_false_2 by (rewrite Hpend; auto).
    simpl. destruct s. simpl in *. by subst.
Qed.

(** X1: declining succeeds exactly for the receiver of a pending invitation,
    whatever its specialty and the slots are, and it writes the status of
    that invitation and nothing else. *)
Theorem decline_changes_only_the_status (db : DB) (session : option string)
    (id : string) :
  (∀ (db' : DB) (st : Z) (r : MDTInvitation),
     PATCH_invitation db session id "DECLINED" = (db', Json st r) →
     ∃ invitation,
       invitations db !! id = Some invitation
       ∧ r = set_status DECLINED invitation
       ∧ invitations db' = <[id := set_status DECLINED invitation]> (invitations db)
       ∧ users db' = users db ∧ mdts db' = mdts db
       ∧ mdtSpecialties db' = mdtSpecialties db
       ∧ patientProfiles db' = patientProfiles db
       ∧ messages db' = messages db)
  ∧ ((∃ e u invitation,
        session = Some e ∧ e ≠ ""
        ∧ user_by_email db e = Some u
        ∧ invitations db !! id = Some invitation
        ∧ is_Some (mdts db !! inv_mdtId invitation)
        ∧ receiverId invitation = u.1
        ∧ inv_status invitation = PENDING)
     ↔ ∃ db' r, PATCH_invitation db session id "DECLINED" = (db', Json 200 r)).
Proof.
  assert (Hrun : ∀ s, respond_ready db session id DECLINED s →
    PATCH_invitation_commit db id s
    = (set_invitations (insert id (set_status DECLINED (snap_invitation s))) db,
       Json 200 (set_status DECLINED (snap_invitation s)))).
  { intros s [_ Hinv _ _ _ Hst _].
    unfold PATCH_invitation_commit, transaction, respond_tx, tx_bind,
      tx_update_invitation.
    by rewrite Hinv, Hst. }
  split.
  - intros db' st r. unfold PATCH_invitation.
    destruct (PATCH_invitation_checks db session id "DECLINED")
      as [s|[st' msg]] eqn:Hchecks; [|discriminate].
    apply PATCH_invitation_checks_decline in Hchecks as Hready.
    rewrite (Hrun s Hready). intros [= <- <- <-].
    exists (snap_invitation s). by destruct Hready.
  - split.
    + intros (e & u & inv & -> & Hne & Hu & Hinv & Hm & Hrecv & Hpend).
      set (s := {| snap_user := u.1; snap_invitation := inv;
                   snap_status := DECLINED |}).
      assert (Hready : respond_ready db (Some e) id DECLINED s).
      { split; simpl; eauto 10. discriminate. }
      eexists _, _. unfold PATCH_invitation.
      pose proof Hready as Hc. apply PATCH_invitation_checks_decline in Hc.
      rewrite Hc. exact (Hrun s Hready).
    + intros (db' & r & Hpatch). unfold PATCH_invitation in Hpatch.
      destruct (PATCH_invitation_checks db session id "DECLINED")
        as [s|[st' msg]] eqn:Hchecks; [|discriminate].
      apply PATCH_invitation_checks_decline in Hchecks
        as [(e & -> & Hne & u & Hu & Hsu) Hinv Hm Hrecv Hpend _ _].
      exists e, u, (snap_invitation s). rewrite <- Hsu. by split_and!.
Qed.

Lemma decline_changes_only_the_status_witness :
  ∃ db' r,
    PATCH_invitation Sample.store Sample.sessionD "2" "DECLINED"
      = (db', Json 200 r)
    ∧ inv_status r = DECLINED
    ∧ mdtSpecialties db' = mdtSpecialties Sample.store.
Proof.
  destruct (decline_changes_only_the_status Sample.store Sample.sessionD "2")
    as [Heffect Hiff].
  destruct (proj1 Hiff) as (db' & r & Hpatch).
  { exists "dina@hospital.example", ("D", Sample.userD),
      {| inv_mdtId := "0"; senderId := "A"; receiverId := "D";
         inv_specialtyId := Some Sample.Oncology; inv_status := PENDING |}.
    split_and!; try done; by vm_compute. }
  exists db', r. split; [done|].
  destruct (Heffect db' 200%Z r Hpatch) as (inv & _ & -> & _ & _ & _ & Hslots & _).
  by split.
Defined.

Lemma DELETE_invitation_outcome (db db' : DB) (session : option string)
    (id : string) (r : response string) :
  DELETE_invitation db session id = (db', r) →
  match r with
  | Json st _ =>
      st = 200%Z
      ∧ ∃ e u invitation,
          session = Some e ∧ e ≠ ""
          ∧ user_by_email db e = Some u
          ∧ invitations db !! id = Some invitation
          ∧ senderId invitation = u.1
          ∧ inv_status invitation = PENDING
          ∧ db' = set_invitations
                    (insert id (set_status CANCELLED invitation)) db
  | Error _ _ => db' = db
  end.
Proof.
  unfold DELETE_invitation. intros H.
  destruct (require_session session) as [e|[st' msg']] eqn:He; simpl in H;
    [|by injection H as <- <-].
  apply require_session_pass in He as [-> Hne].
  destruct (require_user db e "User not found") as [u|[st' msg']] eqn:Hu;
    simpl in H; [|by injection H as <- <-].
  apply require_user_pass in Hu.
  destruct (invitations db !! id) as [inv|] eqn:Hinv;
    [|by injection H as <- <-].
  case_bool_decide as Hsender; [by injection H as <- <-|].
  case_bool_decide as Hpend; [by injection H as <- <-|].
  injection H as <- <-. split; [done|]. exists e, u, inv. by split_and!.
Qed.

(** X2: withdrawing succeeds exactly for the sender of a pending invitation;
    it turns that invitation CANCELLED and writes nothing else, and a
    refused request writes nothing. *)
Theorem withdraw_by_sender_while_pending (db : DB) (session : option string)
    (id : string) :
  ((∃ e u invitation,
      session = Some e ∧ e ≠ ""
      ∧ user_by_email db e = Some u
      ∧ invitations db !! id = Some invitation
      ∧ senderId invitation = u.1
      ∧ inv_status invitation = PENDING)
   ↔ ∃ db' r, DELETE_invitation db session id = (db', Json 200 r))
  ∧ (∀ db' st r,
       DELETE_invitation db session id = (db', Json st r) →
       ∃ invitation,
         invitations db !! id = Some invitation
         ∧ db' = set_invitations
                   (insert id (set_status CANCELLED invitation)) db)
  ∧ (∀ db' st msg,
       DELETE_invitation db session id = (db', Error st msg) → db' = db).
Proof.
  split_and!.
  - split.
    + intros (e & u & inv & -> & Hne & Hu & Hinv & Hsender & Hpend).
      unfold DELETE_invitation, require_session.
      rewrite bool_decide_eq_false_2 by done.
      apply require_user_pass with (msg := "User not found") in Hu.
      simpl. rewrite Hu. simpl. rewrite Hinv.
      rewrite bool_decide_eq_false_2 by (rewrite Hsender; auto).
      rewrite bool_decide_eq_false_2 by (rewrite Hpend; auto).
      by eexists _, _.
    + intros (db' & r & H). apply DELETE_invitation_outcome in H
        as (_ & e & u & inv & ? & ? & ? & ? & ? & ? & _).
      by exists e, u, inv.
  - intros db' st r H. apply DELETE_invitation_outcome in H
      as (_ & e & u & inv & _ & _ & _ & ? & _ & _ & ?).
    by exists inv.
  - intros db' st msg H. by apply DELETE_invitation_outcome in H.
Qed.

Lemma withdraw_by_sender_while_pending_witness :
  (∃ db' r, DELETE_invitation Sample.store Sample.sessionA "0" = (db', Json 200 r))
  ∧ (DELETE_invitation Sample.store Sample.sessionC "0").1 = Sample.store.
Proof.
  destruct (withdraw_by_sender_while_pending Sample.store Sample.sessionA "0")
    as (Hiff & _ & _).
  destruct (withdraw_by_sender_while_pending Sample.store Sample.sessionC "0")
    as (_ & _ & Herr).
  split.
  - apply Hiff.
    exists "amal@clinic.example", ("A", Sample.userA),
      {| inv_mdtId := "0"; senderId := "A"; receiverId := "C";
         inv_specialtyId := Some Sample.Cardiology; inv_status := PENDING |}.
    split_and!; try done; by vm_compute.
  - apply (Herr _ 403%Z "Not authorized to cancel this invitation").
    by vm_compute.
Defined.

(** ** Who may respond *)

Lemma PATCH_invitation_checks_status (db : DB) (session : option string)
    (id status : string) (s : Snapshot) :
  PATCH_invitation_checks db session id status = inl s →
  (status = "ACCEPTED" ∧ snap_status s = ACCEPTED)
  ∨ (status = "DECLINED" ∧ snap_status s = DECLINED).
Proof.
  intros H.
  destruct (String.eqb_spec status "ACCEPTED") as [->|Hna].
  - left. split; [done|].
    by apply PATCH_invitation_checks_accept in H as [_ _ _ _ _ ? _].
  - destruct (String.eqb_spec status "DECLINED") as [->|Hnd].
    + right. split; [done|].
      by apply PATCH_invitation_checks_decline in H as [_ _ _ _ _ ? _].
    + unfold PATCH_invitation_checks in H.
      apply guard_bind_pass in H as (e & _ & H).
      apply String.eqb_neq in Hna, Hnd. by rewrite Hna, Hnd in H.
Qed.

(** X3: a response is accepted only from the receiver of the invitation,
    while the invitation is pending, and only with ACCEPTED or DECLINED;
    every other request is answered with an error and writes nothing. *)
Theorem respond_only_by_receiver (db db' : DB) (session : option string)
    (id status : string) (r : response MDTInvitation) :
  PATCH_invitation db session id status = (db', r) →
  match r with
  | Json _ _ =>
      ∃ e u invitation,
        session = Some e ∧ user_by_email db e = Some u
        ∧ invitations db !! id = Some invitation
        ∧ receiverId invitation = u.1
        ∧ inv_status invitation = PENDING
        ∧ (status = "ACCEPTED" ∨ status = "DECLINED")
  | Error _ _ => db' = db
  end.
Proof.
  intros H. destruct r as [st r|st msg];
    [|by eapply PATCH_invitation_error_unchanged].
  unfold PATCH_invitation in H.
  destruct (PATCH_invitation_checks db session id status)
    as [s|[st' msg]] eqn:Hchecks; [|discriminate].
  destruct (PATCH_invitation_checks_status _ _ _ _ _ Hchecks)
    as [[-> Hst]|[-> Hst]].
  - apply PATCH_invitation_checks_accept in Hchecks
      as [(e & -> & Hne & u & Hu & Hsu) Hinv _ Hrecv Hpend _ _].
    exists e, u, (snap_invitation s). rewrite <- Hsu. split_and!; auto.
  - apply PATCH_invitation_checks_decline in Hchecks
      as [(e & -> & Hne & u & Hu & Hsu) Hinv _ Hrecv Hpend _ _].
    exists e, u, (snap_invitation s). rewrite <- Hsu. split_and!; auto.
Qed.

Lemma respond_only_by_receiver_witness :
  (PATCH_invitation Sample.store Sample.sessionE "0" "ACCEPTED").1
  = Sample.store
  ∧ (PATCH_invitation Sample.store Sample.sessionC "0" "MAYBE").1
    = Sample.store.
Proof.
  split.
  - apply (respond_only_by_receiver Sample.store _ Sample.sessionE "0"
      "ACCEPTED" (Error 403 "Not authorized to respond to this invitation")).
    by vm_compute.
  - apply (respond_only_by_receiver Sample.store _ Sample.sessionC "0"
      "MAYBE" (Error 400 "Invalid status")).
    by vm_compute.
Defined.

(** ** What the handlers never undo *)

Lemma kept_refl (db : DB) : kept db db.
Proof.
  split; try done.
  - intros k m Hm. by exists m.
  - intros k b Hb. by exists b.
  - intros k p Hp. by exists p.
  - intros k i Hi. by exists i.
Qed.

Lemma kept_trans (db1 db2 db3 : DB) : kept db1 db2 → kept db2 db3 → kept db1 db3.
Proof.
  intros [Hu1 Hs1 Hm1 Hsl1 Hmsg1 Hp1 Hi1] [Hu2 Hs2 Hm2 Hsl2 Hmsg2 Hp2 Hi2].
  split.
  - congruence.
  - congruence.
  - intros k m Hm. destruct (Hm1 k m Hm) as (m' & Hm' & ? & ? & ?).
    destruct (Hm2 k m' Hm') as (m'' & Hm'' & ? & ? & ?).
    exists m''. split_and!; [done|congruence..|set_solver].
  - intros k b Hb. destruct (Hsl1 k b Hb) as (b' & Hb' & ?).
    destruct (Hsl2 k b' Hb') as (b'' & Hb'' & ?). exists b''. split; auto.
  - auto.
  - intros k p Hp. destruct (Hp1 k p Hp) as (p' & Hp' & ? & ?).
    destruct (Hp2 k p' Hp') as (p'' & Hp'' & ? & ?).
    exists p''. split_and!; [done|congruence..].
  - intros k i Hi. destruct (Hi1 k i Hi) as (i' & Hi' & ? & ? & ? & ?).
    destruct (Hi2 k i' Hi') as (i'' & Hi'' & ? & ? & ? & ?).
    exists i''. split_and!; [done|congruence..].
Qed.

(** Writing the status of an invitation. *)
Lemma kept_insert_status (db : DB) (id : string) (i : MDTInvitation)
    (st : InvitationStatus) :
  invitations db !! id = Some i →
  kept db (set_invitations (insert id (set_status st i)) db).
Proof.
  intros Hi. split; try done.
  - intros k m Hm. by exists m.
  - intros k b Hb. by exists b.
  - intros k p Hp. by exists p.
  - intros k i' Hk. simpl. destruct (decide (id = k)) as [<-|Hne].
    + rewrite lookup_insert_eq. exists (set_status st i).
      assert (i' = i) as -> by congruence. by split_and!.
    + rewrite lookup_insert_ne by done. by exists i'.
Qed.

(** Adding a row to the invitations, to the messages. *)
Lemma kept_insert_invitation (db : DB) (id : string) (i : MDTInvitation) :
  invitations db !! id = None →
  kept db (set_invitations (insert id i) db).
Proof.
  intros Hi. split; try done.
  - intros k m Hm. by exists m.
  - intros k b Hb. by exists b.
  - intros k p Hp. by exists p.
  - intros k i' Hk. simpl. exists i'.
    rewrite lookup_insert_ne by congruence. by split_and!.
Qed.

Lemma kept_insert_message (db : DB) (id : string) (msg : Message) :
  messages db !! id = None →
  kept db (set_messages (insert id msg) db).
Proof.
  intros Hi. split; try done.
  - intros k m Hm. by exists m.
  - intros k b Hb. by exists b.
  - intros k msg' Hk. simpl. rewrite lookup_insert_ne by congruence. done.
  - intros k p Hp. by exists p.
  - intros k i Hk. by exists i.
Qed.

(** Connecting members. *)
Lemma kept_tx_connect_members (id : string) (ids : list string)
    (db db' : DB) :
  tx_connect_members id ids db = Done db' () → kept db db'.
Proof.
  unfold tx_connect_members. destruct (mdts db !! id) as [m|] eqn:Hm;
    [|discriminate].
  destruct (forallb _ ids); [|discriminate]. intros [= <-].
  split; try done.
  - intros k m' Hk. simpl. destruct (decide (id = k)) as [<-|Hne].
    + rewrite lookup_insert_eq. eexists. split; [done|].
      assert (m' = m) as -> by congruence. simpl. split_and!; try done.
      set_solver.
    + rewrite lookup_insert_ne by done. by exists m'.
  - intros k b Hb. by exists b.
  - intros k p Hp. by exists p.
  - intros k i Hi. by exists i.
Qed.

(** The transaction of an accepted response. *)
Lemma kept_accepted_store (db : DB) (id : string) (s : Snapshot)
    (current : MDTInvitation) (m : MDT) (sp : Z) :
  invitations db !! id = Some current →
  mdts db !! inv_mdtId (snap_invitation s) = Some m →
  kept db (accepted_store db id s current m sp).
Proof.
  intros Hcur Hm. unfold accepted_store. split; try done; simpl.
  - intros k m' Hk. destruct (decide (inv_mdtId (snap_invitation s) = k))
      as [<-|Hne].
    + rewrite lookup_insert_eq. eexists. split; [done|].
      assert (m' = m) as -> by congruence. simpl. split_and!; try done.
      set_solver.
    + rewrite lookup_insert_ne by done. by exists m'.
  - intros k b Hb.
    destruct (decide ((inv_mdtId (snap_invitation s), sp) = k)) as [<-|Hne].
    + rewrite lookup_insert_eq. by exists true.
    + rewrite lookup_insert_ne by done. by exists b.
  - intros k p Hp. by exists p.
  - intros k i Hk. rewrite map_lookup_imap.
    destruct (decide (id = k)) as [<-|Hne].
    + rewrite lookup_insert_eq. simpl. eexists. split; [done|].
      assert (i = current) as -> by congruence.
      by destruct (competing _ _ _ _).
    + rewrite lookup_insert_ne by done. rewrite Hk. simpl.
      eexists. split; [done|]. by destruct (competing _ _ _ _).
Qed.

(** The outcomes of a response: an error that writes nothing, the
    invitation DECLINED, or [accepted_store]. *)
Lemma PATCH_invitation_cases (db db' : DB) (session : option string)
    (id status : string) (r : response MDTInvitation) :
  PATCH_invitation db session id status = (db', r) →
  (∃ st msg, r = Error st msg ∧ db' = db ∧ (400 ≤ st)%Z)
  ∨ (∃ s, status = "DECLINED"
        ∧ respond_ready db session id DECLINED s
        ∧ r = Json 200 (set_status DECLINED (snap_invitation s))
        ∧ db' = set_invitations
                  (insert id (set_status DECLINED (snap_invitation s))) db)
  ∨ (∃ s m sp, status = "ACCEPTED"
        ∧ respond_ready db session id ACCEPTED s
        ∧ mdts db !! inv_mdtId (snap_invitation s) = Some m
        ∧ inv_specialtyId (snap_invitation s) = Some sp
        ∧ r = Json 200 (set_status ACCEPTED (snap_invitation s))
        ∧ db' = accepted_store db id s (snap_invitation s) m sp).
Proof.
  intros Hpatch. destruct r as [st r|st msg].
  - right. unfold PATCH_invitation in Hpatch.
    destruct (PATCH_invitation_checks db session id status)
      as [s|[st' msg]] eqn:Hchecks; [|discriminate].
    destruct (PATCH_invitation_checks_status _ _ _ _ _ Hchecks)
      as [[-> Hst]|[-> Hst]].
    + right. apply PATCH_invitation_checks_accept in Hchecks as Hready.
      unfold PATCH_invitation_commit, transaction in Hpatch.
      destruct (respond_tx id s db) as [db1 r1|err] eqn:Htx; [|discriminate].
      injection Hpatch as <- <- <-.
      apply respond_tx_accepted in Htx
        as (current & m & sp & Hcur & Hm & _ & Hsp & _ & -> & ->); [|done].
      assert (current = snap_invitation s) as ->
        by (destruct Hready; congruence).
      by exists s, m, sp.
    + left. apply PATCH_invitation_checks_decline in Hchecks as Hready.
      exists s. split; [done|]. split; [done|].
      unfold PATCH_invitation_commit, transaction, respond_tx, tx_bind,
        tx_update_invitation in Hpatch.
      destruct Hready as [_ Hinv _ _ _ _ _]. rewrite Hinv, Hst in Hpatch.
      simpl in Hpatch. by injection Hpatch as <- <- <-.
  - left. exists st, msg. split; [done|].
    split; [by eapply PATCH_invitation_error_unchanged|].
    unfold PATCH_invitation, PATCH_invitation_commit, PATCH_invitation_checks,
      transaction, require_session, require_user, thrown, reject, pass
      in Hpatch.
    repeat (case_match; simplify_eq/=; try lia).
Qed.

Lemma PATCH_invitation_outcome (db : DB) (session : option string)
    (id status : string) :
  (PATCH_invitation db session id status).1 = db
  ∨ (∃ s, respond_ready db session id DECLINED s
        ∧ (PATCH_invitation db session id status).1
          = set_invitations
              (insert id (set_status DECLINED (snap_invitation s))) db)
  ∨ (∃ s m sp, respond_ready db session id ACCEPTED s
        ∧ mdts db !! inv_mdtId (snap_invitation s) = Some m
        ∧ inv_specialtyId (snap_invitation s) = Some sp
        ∧ (PATCH_invitation db session id status).1
          = accepted_store db id s (snap_invitation s) m sp).
Proof.
  destruct (PATCH_invitation db session id status) as [db' r] eqn:Hpatch.
  apply PATCH_invitation_cases in Hpatch
    as [(st & msg & _ & -> & _)|[(s & _ & ? & _ & ->)
       |(s & m & sp & _ & ? & ? & ? & _ & ->)]]; simpl.
  - by left.
  - right. left. by exists s.
  - right. right. by exists s, m, sp.
Qed.

Lemma kept_POST_mdt (db : DB) (session : option string) (body : CreateMDTBody) :
  kept db (POST_mdt db session body).1.
Proof.
  destruct (POST_mdt db session body) as [db' [st v|st msg]] eqn:Hpost; simpl.
  - apply POST_mdt_json in Hpost as (creator & _ & _ & _ & Htx).
    apply create_mdt_tx_done in Htx as Hc.
    destruct (created_invitations _ _ _ _ _ _ Hc) as (ids & _ & _ & Hperm).
    split.
    + exact (created_users _ _ _ _ _ _ Hc).
    + exact (created_catalog _ _ _ _ _ _ Hc).
    + intros k m Hm. exists m. rewrite (created_mdt _ _ _ _ _ _ Hc).
      rewrite lookup_insert_ne; [done|]. intros <-.
      pose proof (created_fresh _ _ _ _ _ _ Hc). congruence.
    + intros k b Hb. exists b.
      rewrite (created_slots_old _ _ _ _ _ _ Hc) by (by rewrite Hb). done.
    + intros k msg Hmsg. by rewrite (created_messages _ _ _ _ _ _ Hc).
    + intros k p Hp. exists p. rewrite (created_profile _ _ _ _ _ _ Hc).
      rewrite lookup_insert_ne; [done|]. intros <-.
      pose proof (is_fresh (dom (patientProfiles db))) as Hf.
      apply not_elem_of_dom in Hf. congruence.
    + intros k i Hi. exists i. split; [|done].
      apply elem_of_map_to_list. rewrite Hperm. apply elem_of_app. right.
      by apply elem_of_map_to_list.
  - apply POST_mdt_error_unchanged in Hpost as ->. apply kept_refl.
Qed.

(** The outcomes of an edit. *)
Lemma PUT_mdt_outcome (db db' : DB) (session : option string) (id : string)
    (body : UpdateMDTBody) (r : response MDTListItem) :
  PUT_mdt db session id body = (db', r) →
  match r with
  | Json st it =>
      st = 200%Z
      ∧ ∃ e u m,
          session = Some e ∧ e ≠ ""
          ∧ user_by_email db e = Some u
          ∧ mdts db !! id = Some m
          ∧ creatorId m = u.1
          ∧ patientProfile_of db id ≠ []
          ∧ db' = edited_store db id m body
          ∧ it = mdt_detail db' id (edited_mdt body m)
  | Error _ _ => db' = db
  end.
Proof.
  unfold PUT_mdt. intros H.
  destruct (require_session session) as [e|[st' msg']] eqn:He; simpl in H;
    [|by injection H as <- <-].
  apply require_session_pass in He as [-> Hne].
  destruct (require_user db e "User not found") as [u|[st' msg']] eqn:Hu;
    simpl in H; [|by injection H as <- <-].
  apply require_user_pass in Hu.
  destruct (mdts db !! id) as [m|] eqn:Hm; [|by injection H as <- <-].
  case_bool_decide as Hcreator; [|by injection H as <- <-].
  destruct (patientProfile_of db id) as [|p ps] eqn:Hp;
    [by injection H as <- <-|].
  simpl in H. injection H as <- <-. split; [done|].
  exists e, u, m. by split_and!.
Qed.

Lemma kept_edited_store (db : DB) (id : string) (m : MDT)
    (body : UpdateMDTBody) :
  mdts db !! id = Some m → kept db (edited_store db id m body).
Proof.
  intros Hm. unfold edited_store. split; try done; simpl.
  - intros k m' Hk. destruct (decide (id = k)) as [<-|Hne].
    + rewrite lookup_insert_eq. eexists. split; [done|].
      assert (m' = m) as -> by congruence. by split_and!.
    + rewrite lookup_insert_ne by done. by exists m'.
  - intros k b Hb. by exists b.
  - intros k p Hp. rewrite lookup_fmap, Hp. simpl. eexists. split; [done|].
    by case_bool_decide.
  - intros k i Hi. by exists i.
Qed.

Lemma kept_handle (db : DB) (rq : Request) : kept db (handle db rq).
Proof.
  destruct rq as [now session id v|session body|session id body
                  |session id status
                  |session id|session mdtId receiverEmail
                  |session invitationId status]; simpl.
  - unfold POST_message.
    destruct (POST_message_checks db session id v) as [[c uid]|[st msg]];
      simpl; [|apply kept_refl].
    apply kept_insert_message, not_elem_of_dom, is_fresh.
  - apply kept_POST_mdt.
  - destruct (PUT_mdt db session id body) as [db' [st it|st msg]] eqn:Hput;
      simpl.
    + apply PUT_mdt_outcome in Hput
        as (_ & e & u & m & _ & _ & _ & Hm & _ & _ & -> & _).
      by apply kept_edited_store.
    + apply PUT_mdt_outcome in Hput as ->. apply kept_refl.
  - destruct (PATCH_invitation_outcome db session id status)
      as [->|[(s & Hready & ->)|(s & m & sp & Hready & Hm & Hsp & ->)]].
    + apply kept_refl.
    + apply kept_insert_status. by destruct Hready.
    + apply kept_accepted_store; [by destruct Hready|done].
  - destruct (DELETE_invitation db session id) as [db' [st r|st msg]] eqn:Hdel;
      simpl.
    + apply DELETE_invitation_outcome in Hdel
        as (_ & e & u & inv & _ & _ & _ & Hinv & _ & _ & ->).
      by apply kept_insert_status.
    + apply DELETE_invitation_outcome in Hdel as ->. apply kept_refl.
  - destruct (POST_invitation db session mdtId receiverEmail)
      as [db' [st [id i]|st msg]] eqn:Hpost; simpl.
    + apply POST_invitation_created in Hpost
        as (sender & receiver & _ & _ & _ & Hfresh & ->).
      by apply kept_insert_invitation.
    + unfold POST_invitation in Hpost.
      destruct (_ : guard MDTInvitation) as [i|[st' msg']];
        injection Hpost as <-; [done|apply kept_refl].
  - unfold PATCH_invitations.
    destruct (require_session session) as [e|[st msg]]; simpl;
      [|apply kept_refl].
    destruct (require_user db e "User not found") as [u|[st msg]]; simpl;
      [|apply kept_refl].
    destruct (invitations db !! invitationId) as [i|] eqn:Hi;
      [|apply kept_refl].
    destruct (parse_status status) as [st|]; [|apply kept_refl].
    case_bool_decide; simpl; [|apply kept_refl].
    pose proof (kept_insert_status db invitationId i st Hi) as H1.
    case_bool_decide; [|done].
    destruct (tx_connect_members _ _ _) as [db2 []|] eqn:H2; simpl; [|done].
    apply kept_tx_connect_members in H2. eauto using kept_trans.
Qed.

(** X4: through any history of requests the users stay as they are, no MDT
    loses a member or changes its creator or status, no filled slot becomes
    unfilled, no message is changed or removed, no patient profile is
    removed or changes its MDT or its medications, and no invitation is
    removed or changes its MDT, sender, receiver or specialty. *)
Theorem history_keeps (db : DB) (rqs : list Request) :
  kept db (history db rqs).
Proof.
  unfold history. revert db. induction rqs as [|rq rqs IH]; intros db; simpl.
  - apply kept_refl.
  - eapply kept_trans; [apply kept_handle|apply IH].
Qed.

(** ** One acceptance per slot, one pending invitation per receiver *)

(** The two invariants only depend on the ACCEPTED rows, the PENDING rows
    and the filled slots. *)
Lemma single_acceptance_from (db db' : DB) :
  (∀ k a, invitations db' !! k = Some a → inv_status a = ACCEPTED →
          invitations db !! k = Some a) →
  (∀ k, mdtSpecialties db !! k = Some true →
        mdtSpecialties db' !! k = Some true) →
  single_acceptance db → single_acceptance db'.
Proof.
  intros Hrows Hslots [Hone Hfilled]. split.
  - intros i j a b sp Hi Hj Ha Hb. eauto.
  - intros i a sp Hi Ha Hsp. eauto.
Qed.

Lemma one_pending_from (db db' : DB) :
  (∀ k a, invitations db' !! k = Some a → inv_status a = PENDING →
          invitations db !! k = Some a) →
  one_pending db → one_pending db'.
Proof. intros Hrows Hone i j a b Hi Hj Ha Hb. eauto. Qed.

(** Rows of [accepted_store]. *)
Lemma accepted_store_row (db : DB) (id : string) (s : Snapshot)
    (current : MDTInvitation) (m : MDT) (sp : Z) (k : string)
    (a : MDTInvitation) :
  invitations (accepted_store db id s current m sp) !! k = Some a →
  (k = id ∧ a = set_status ACCEPTED current)
  ∨ (k ≠ id ∧ ∃ other, invitations db !! k = Some other
       ∧ (a = other ∨ (a = set_status CANCELLED other
                       ∧ inv_status other = PENDING))).
Proof.
  unfold accepted_store. simpl. rewrite map_lookup_imap.
  destruct (decide (id = k)) as [<-|Hne].
  - rewrite lookup_insert_eq. simpl. unfold competing.
    rewrite (bool_decide_eq_false_2 (id ≠ id)) by auto.
    rewrite andb_false_r. intros [= <-]. by left.
  - rewrite lookup_insert_ne by done.
    destruct (invitations db !! k) as [other|]; [|done]. simpl.
    intros [= <-]. right. split; [done|]. exists other. split; [done|].
    destruct (competing id (snap_invitation s) k other) eqn:Hc; [|by left].
    right. split; [done|]. unfold competing in Hc.
    apply andb_true_iff in Hc as [Hc _]. apply andb_true_iff in Hc as [_ Hc].
    by apply bool_decide_eq_true in Hc.
Qed.

Lemma single_acceptance_accepted_store (db : DB) (session : option string)
    (id : string) (s : Snapshot) (m : MDT) (sp : Z) :
  respond_ready db session id ACCEPTED s →
  inv_specialtyId (snap_invitation s) = Some sp →
  single_acceptance db →
  single_acceptance (accepted_store db id s (snap_invitation s) m sp).
Proof.
  intros [_ Hinv _ _ Hpend _ Hslot] Hsp [Hone Hfilled].
  destruct (Hslot eq_refl) as (sp' & Hsp' & Hfree).
  assert (sp' = sp) as -> by congruence.
  assert (Hold : ∀ k a,
    invitations (accepted_store db id s (snap_invitation s) m sp) !! k = Some a →
    inv_status a = ACCEPTED → k ≠ id → invitations db !! k = Some a).
  { intros k a Hk Ha Hne.
    apply accepted_store_row in Hk as [[-> _]|(_ & other & Hother & [->|[-> _]])];
      done. }
  assert (Hnone : ∀ k a, invitations db !! k = Some a →
    inv_status a = ACCEPTED →
    inv_mdtId a = inv_mdtId (snap_invitation s) →
    inv_specialtyId a = Some sp → False).
  { intros k a Hk Ha Hmdt Hspa. specialize (Hfilled k a sp Hk Ha Hspa).
    rewrite Hmdt in Hfilled. congruence. }
  assert (Hid : ∀ a,
    invitations (accepted_store db id s (snap_invitation s) m sp) !! id = Some a →
    a = set_status ACCEPTED (snap_invitation s)).
  { intros a Hk.
    by apply accepted_store_row in Hk as [[_ ->]|(? & _)]. }
  split.
  - intros i j a b sq Hi Hj Ha Hb Hmdt Hspa Hspb.
    destruct (decide (i = id)) as [->|Hni], (decide (j = id)) as [->|Hnj];
      [done| | |].
    + exfalso. apply Hid in Hi as ->. simpl in *.
      assert (sq = sp) as -> by congruence.
      eapply (Hnone j b); eauto.
    + exfalso. apply Hid in Hj as ->. simpl in *.
      assert (sq = sp) as -> by congruence.
      eapply (Hnone i a); eauto.
    + eapply Hone; eauto.
  - intros i a sq Hi Ha Hspa. unfold accepted_store. simpl.
    destruct (decide (i = id)) as [->|Hni].
    + apply Hid in Hi as ->. simpl in *.
      assert (sq = sp) as -> by congruence. by rewrite lookup_insert_eq.
    + pose proof (Hold i a Hi Ha Hni) as Hdb.
      specialize (Hfilled i a sq Hdb Ha Hspa).
      destruct (decide ((inv_mdtId (snap_invitation s), sp) = (inv_mdtId a, sq)))
        as [<-|Hne]; [by rewrite lookup_insert_eq|].
      by rewrite lookup_insert_ne.
Qed.

Lemma one_pending_accepted_store (db : DB) (id : string) (s : Snapshot)
    (current : MDTInvitation) (m : MDT) (sp : Z) :
  one_pending db → one_pending (accepted_store db id s current m sp).
Proof.
  apply one_pending_from. intros k a Hk Ha.
  by apply accepted_store_row in Hk
    as [[_ ->]|(_ & other & Hother & [->|[-> _]])].
Qed.

(** Rows after a status was written. *)
Lemma insert_status_row (db : DB) (id : string) (i : MDTInvitation)
    (st : InvitationStatus) (k : string) (a : MDTInvitation) :
  invitations db !! id = Some i →
  invitations (set_invitations (insert id (set_status st i)) db) !! k = Some a →
  inv_status a ≠ st →
  invitations db !! k = Some a.
Proof.
  intros Hi. simpl. destruct (decide (id = k)) as [<-|Hne].
  - rewrite lookup_insert_eq. by intros [= <-].
  - by rewrite lookup_insert_ne.
Qed.

(** No PENDING row for an MDT and a receiver. *)
Lemma findFirst_pending_None (db : DB) (mdtId receiver : string) :
  findFirst_pending db mdtId receiver = None ↔
  ∀ k a, invitations db !! k = Some a → inv_mdtId a = mdtId →
         receiverId a = receiver → inv_status a ≠ PENDING.
Proof.
  unfold findFirst_pending. rewrite fmap_None, list_find_None, Forall_forall.
  split.
  - intros H k a Hk Hm Hr Hp. apply (H (k, a)); [|done].
    by apply elem_of_map_to_list.
  - intros H [k a] Hk (Hm & Hr & Hp). apply elem_of_map_to_list in Hk.
    by eapply H.
Qed.

(** Two entries of a zip whose second components are one element of a list
    without duplicates are one entry. *)
Lemma zip_NoDup_snd {A B} (ks : list A) (xs : list B) (i j : A) (x : B) :
  NoDup xs → (i, x) ∈ zip ks xs → (j, x) ∈ zip ks xs → i = j.
Proof.
  revert xs. induction ks as [|k ks IH]; intros [|y xs] Hnd Hi Hj;
    try by apply elem_of_nil in Hi.
  apply NoDup_cons in Hnd as [Hy Hnd]. simpl in Hi, Hj.
  apply elem_of_cons in Hi as [Hi|Hi], Hj as [Hj|Hj].
  - congruence.
  - injection Hi as -> ->. by apply zip_elem_of_fst in Hj as [_ Hj].
  - injection Hj as -> ->. by apply zip_elem_of_fst in Hi as [_ Hi].
  - by eapply IH.
Qed.

Lemma findMany_externalDoctors_NoDup (db : DB) (required : list Z) :
  NoDup (findMany_externalDoctors db required).*1.
Proof.
  unfold findMany_externalDoctors.
  apply (sublist_NoDup _ (map_to_list (users db)).*1).
  - apply NoDup_fst_map_to_list.
  - apply fmap_sublist, sublist_filter.
Qed.

(** The rows of a store after a creation: the doctors' new rows, PENDING
    and of the new MDT, and the rows before. *)
Lemma created_row (db db' : DB) (creator : string) (body : CreateMDTBody)
    (id : string) (v : option MDTView) (k : string) (a : MDTInvitation) :
  created db db' creator body id v →
  invitations db' !! k = Some a →
  (invitations db !! k = Some a)
  ∨ (invitations db !! k = None
     ∧ ∃ doctor,
         doctor ∈ findMany_externalDoctors db (requiredSpecialties body)
         ∧ a = invitation_for id creator (requiredSpecialties body) doctor).
Proof.
  intros Hc Hk. destruct (created_invitations _ _ _ _ _ _ Hc)
    as (ids & Hlen & Hfresh & Hperm).
  apply elem_of_map_to_list in Hk. rewrite Hperm in Hk.
  apply elem_of_app in Hk as [Hk|Hk].
  - right. apply zip_elem_of_fst in Hk as [Hk Ha]. split.
    + by eapply Forall_forall in Hfresh.
    + apply list_elem_of_fmap in Ha as (d & -> & Hd). by exists d.
  - left. by apply elem_of_map_to_list.
Qed.

Lemma single_acceptance_created (db db' : DB) (creator : string)
    (body : CreateMDTBody) (id : string) (v : option MDTView) :
  created db db' creator body id v →
  single_acceptance db → single_acceptance db'.
Proof.
  intros Hc. apply single_acceptance_from.
  - intros k a Hk Ha.
    by destruct (created_row _ _ _ _ _ _ _ _ Hc Hk) as [|(_ & d & _ & ->)].
  - intros k Hk. rewrite (created_slots_old _ _ _ _ _ _ Hc); [done|].
    by rewrite Hk.
Qed.

Lemma one_pending_created (db db' : DB) (creator : string)
    (body : CreateMDTBody) (id : string) (v : option MDTView) :
  created db db' creator body id v →
  foreign_keys db →
  one_pending db → one_pending db'.
Proof.
  intros Hc Hfk Hone i j a b Hi Hj Ha Hb Hmdt Hrecv.
  pose proof (created_fresh _ _ _ _ _ _ Hc) as Hfresh.
  destruct (created_invitations _ _ _ _ _ _ Hc) as (ids & Hlen & _ & Hperm).
  assert (Hold : ∀ k x, invitations db !! k = Some x → inv_mdtId x ≠ id).
  { intros k x Hk Heq. apply Hfk in Hk as [m Hm]. congruence. }
  pose proof (created_row _ _ _ _ _ _ _ _ Hc Hi) as Hi'.
  pose proof (created_row _ _ _ _ _ _ _ _ Hc Hj) as Hj'.
  destruct Hi' as [Hi'|(Hni & d & Hd & ->)], Hj' as [Hj'|(Hnj & d' & Hd' & ->)].
  - eauto.
  - exfalso. by eapply Hold.
  - exfalso. eapply Hold; [exact Hj'|]. by rewrite <- Hmdt.
  - simpl in Hrecv. destruct d as [uid u], d' as [uid' u']. simpl in Hrecv.
    subst uid'.
    apply findMany_externalDoctors_elem in Hd as [Hu _], Hd' as [Hu' _].
    assert (u' = u) as -> by congruence.
    set (f := invitation_for id creator (requiredSpecialties body)) in *.
    set (ds := findMany_externalDoctors db (requiredSpecialties body)) in *.
    assert (Hin : ∀ k, invitations db !! k = None →
              invitations db' !! k = Some (f (uid, u)) →
              (k, f (uid, u)) ∈ zip ids (f <$> ds)).
    { intros k Hnone Hk. apply elem_of_map_to_list in Hk. rewrite Hperm in Hk.
      apply elem_of_app in Hk as [Hk|Hk]; [done|].
      apply elem_of_map_to_list in Hk. congruence. }
    eapply (zip_NoDup_snd ids (f <$> ds)); [|by apply Hin..].
    apply (NoDup_fmap_1 receiverId). rewrite <- list_fmap_compose.
    apply findMany_externalDoctors_NoDup.
Qed.

Lemma invariants_insert_status (db : DB) (id : string) (i : MDTInvitation)
    (st : InvitationStatus) :
  invitations db !! id = Some i →
  st ≠ ACCEPTED → st ≠ PENDING →
  single_acceptance db ∧ one_pending db →
  single_acceptance (set_invitations (insert id (set_status st i)) db)
  ∧ one_pending (set_invitations (insert id (set_status st i)) db).
Proof.
  intros Hi Hna Hnp [Hsingle Hone]. split.
  - apply (single_acceptance_from db); [|by intros k Hk|done].
    intros k a Hk Ha. eapply insert_status_row; [done..|congruence].
  - apply (one_pending_from db); [|done].
    intros k a Hk Ha. eapply insert_status_row; [done..|congruence].
Qed.

Lemma handle_invariants (db : DB) (rq : Request) :
  per_invitation rq →
  foreign_keys db →
  single_acceptance db ∧ one_pending db →
  single_acceptance (handle db rq) ∧ one_pending (handle db rq).
Proof.
  intros Hrq Hfk [Hsingle Hone].
  destruct rq as [now session id v|session body|session id body
                  |session id status
                  |session id|session mdtId receiverEmail
                  |session invitationId status]; simpl; [| | | | | |done].
  - unfold POST_message.
    destruct (POST_message_checks db session id v) as [[c uid]|[st msg]];
      simpl; [|done].
    split; [by apply (single_acceptance_from db)
           |by apply (one_pending_from db)].
  - destruct (POST_mdt db session body) as [db' [st v|st msg]] eqn:Hpost; simpl.
    + apply POST_mdt_json in Hpost as (creator & _ & _ & _ & Htx).
      apply create_mdt_tx_done in Htx as Hc.
      split; [by eapply single_acceptance_created
             |by eapply one_pending_created].
    + by apply POST_mdt_error_unchanged in Hpost as ->.
  - destruct (PUT_mdt db session id body) as [db' [st it|st msg]] eqn:Hput;
      simpl.
    + apply PUT_mdt_outcome in Hput
        as (_ & e & u & m & _ & _ & _ & _ & _ & _ & -> & _).
      split; [by apply (single_acceptance_from db)
             |by apply (one_pending_from db)].
    + by apply PUT_mdt_outcome in Hput as ->.
  - destruct (PATCH_invitation_outcome db session id status)
      as [->|[(s & Hready & ->)|(s & m & sp & Hready & Hm & Hsp & ->)]].
    + done.
    + destruct Hready as [_ Hinv _ _ _ _ _].
      by apply invariants_insert_status.
    + split; [by eapply single_acceptance_accepted_store
             |by apply one_pending_accepted_store].
  - destruct (DELETE_invitation db session id) as [db' [st r|st msg]] eqn:Hdel;
      simpl.
    + apply DELETE_invitation_outcome in Hdel
        as (_ & e & u & inv & _ & _ & _ & Hinv & _ & _ & ->).
      by apply invariants_insert_status.
    + by apply DELETE_invitation_outcome in Hdel as ->.
  - unfold POST_invitation.
    destruct (require_session session) as [e|[st msg]]; simpl; [|done].
    destruct (require_user db e "Sender not found") as [sender|[st msg]];
      simpl; [|done].
    case_bool_decide; [done|].
    destruct (require_user db receiverEmail "Receiver not found")
      as [receiver|[st msg]]; simpl; [|done].
    destruct (findFirst_pending db mdtId receiver.1) eqn:Hfirst; [done|].
    destruct (mdts db !! mdtId) as [m|]; [|done]. simpl.
    assert (Hfresh : invitations db !! fresh (dom (invitations db)) = None)
      by apply not_elem_of_dom, is_fresh.
    rewrite findFirst_pending_None in Hfirst.
    assert (Hrow : ∀ k a,
      <[fresh (dom (invitations db)) :=
          {| inv_mdtId := mdtId; senderId := sender.1;
             receiverId := receiver.1; inv_specialtyId := None;
             inv_status := PENDING |}]> (invitations db) !! k = Some a →
      (k = fresh (dom (invitations db))
       ∧ a = {| inv_mdtId := mdtId; senderId := sender.1;
                receiverId := receiver.1; inv_specialtyId := None;
                inv_status := PENDING |})
      ∨ invitations db !! k = Some a).
    { intros k a. destruct (decide (fresh (dom (invitations db)) = k))
        as [<-|Hne].
      - rewrite lookup_insert_eq. intros [= <-]. by left.
      - rewrite lookup_insert_ne by done. by right. }
    split.
    + apply (single_acceptance_from db); [|by intros k Hk|done].
      intros k a Hk Ha. by apply Hrow in Hk as [[_ ->]|Hk].
    + intros i j a b Hi Hj Ha Hb Hmdt Hrecv. simpl in Hi, Hj.
      apply Hrow in Hi as [[-> ->]|Hi], Hj as [[-> ->]|Hj].
      * done.
      * exfalso. simpl in *. by eapply Hfirst.
      * exfalso. simpl in *. by eapply Hfirst.
      * eauto.
Qed.

Lemma keeps_foreign_keys (db db' : DB) :
  keeps db db' → foreign_keys db → foreign_keys db'.
Proof.
  intros (_ & Hm & Hi) Hfk j inv' Hj.
  destruct (Hi j inv' Hj) as [|(inv & Hinv & Heq)]; [done|].
  rewrite Heq. eauto.
Qed.

Lemma keeps_PUT_mdt (db : DB) (session : option string) (id : string)
    (body : UpdateMDTBody) :
  keeps db (PUT_mdt db session id body).1.
Proof.
  destruct (PUT_mdt db session id body) as [db' [st it|st msg]] eqn:Hput;
    simpl.
  - apply PUT_mdt_outcome in Hput
      as (_ & e & u & m & _ & _ & _ & _ & _ & _ & -> & _).
    unfold edited_store.
    eapply keeps_trans; [apply keeps_insert_mdt|].
    apply keeps_set_patientProfiles.
  - apply PUT_mdt_outcome in Hput as ->. apply keeps_refl.
Qed.

Lemma keeps_handle (db : DB) (rq : Request) : keeps db (handle db rq).
Proof.
  destruct rq; simpl; auto using keeps_POST_message, keeps_POST_mdt,
    keeps_PUT_mdt, keeps_PATCH_invitation, keeps_DELETE_invitation,
    keeps_POST_invitation, keeps_PATCH_invitations.
Qed.

(** X5: through any history of requests that does not use the collection
    [PATCH], and whatever the answers are, a store that keeps its foreign
    keys keeps having at most one ACCEPTED invitation per slot, with that
    slot filled, and at most one PENDING invitation per MDT and receiver. *)
Theorem history_single_acceptance (db : DB) (rqs : list Request) :
  Forall per_invitation rqs →
  foreign_keys db →
  single_acceptance db ∧ one_pending db →
  single_acceptance (history db rqs) ∧ one_pending (history db rqs).
Proof.
  unfold history. revert db.
  induction rqs as [|rq rqs IH]; intros db Hrqs Hfk Hinv; [done|].
  apply Forall_cons in Hrqs as [Hrq Hrqs]. simpl. apply IH; [done| |].
  - eapply keeps_foreign_keys; [apply keeps_handle|done].
  - by apply handle_invariants.
Qed.

(** A store without invitations satisfies both. *)
Lemma no_invitations_invariants (db : DB) :
  invitations db = ∅ →
  foreign_keys db ∧ single_acceptance db ∧ one_pending db.
Proof.
  intros Hempty. split_and!.
  - intros i inv. by rewrite Hempty, lookup_empty.
  - split.
    + intros i j a b sp. by rewrite Hempty, lookup_empty.
    + intros i a sp. by rewrite Hempty, lookup_empty.
  - intros i j a b. by rewrite Hempty, lookup_empty.
Qed.

Lemma history_single_acceptance_witness :
  let db' := history Sample.empty_store
    [ReqCreateMdt Sample.sessionA Sample.case_body;
     ReqRespond Sample.sessionC "0" "ACCEPTED";
     ReqRespond Sample.sessionE "1" "ACCEPTED";
     ReqInvite Sample.sessionA "0" "elias@hospital.example";
     ReqWithdraw Sample.sessionA "2"] in
  single_acceptance db' ∧ one_pending db'
  ∧ inv_status <$> invitations db' !! "0" = Some ACCEPTED
  ∧ inv_status <$> invitations db' !! "1" = Some CANCELLED.
Proof.
  intros db'.
  destruct (no_invitations_invariants Sample.empty_store eq_refl)
    as (Hfk & Hsingle & Hone).
  destruct (history_single_acceptance Sample.empty_store
    [ReqCreateMdt Sample.sessionA Sample.case_body;
     ReqRespond Sample.sessionC "0" "ACCEPTED";
     ReqRespond Sample.sessionE "1" "ACCEPTED";
     ReqInvite Sample.sessionA "0" "elias@hospital.example";
     ReqWithdraw Sample.sessionA "2"]) as [H1 H2].
  - by repeat constructor.
  - done.
  - done.
  - split_and!; [done|done|by vm_compute|by vm_compute].
Defined.

(** The collection [PATCH] does not keep it: C and E both set the status of
    their Cardiology invitations to ACCEPTED. *)
Lemma collection_patch_two_acceptances :
  ¬ single_acceptance (history Sample.store
      [ReqSetStatus Sample.sessionC "0" "ACCEPTED";
       ReqSetStatus Sample.sessionE "1" "ACCEPTED"]).
Proof.
  intros [Hone _].
  assert (Heq : "0" = "1"); [|done].
  eapply (Hone "0" "1" _ _ Sample.Cardiology); by vm_compute.
Qed.

(** ** The pending invitations of the caller *)

Lemma pending_of_elem (db : DB) (uid k : string) (a : MDTInvitation) :
  (k, a) ∈ pending_of db uid
  ↔ invitations db !! k = Some a ∧ receiverId a = uid ∧ inv_status a = PENDING.
Proof.
  unfold pending_of. rewrite list_elem_of_filter, elem_of_map_to_list.
  simpl. tauto.
Qed.

Lemma GET_invitations_Json (invitedAt : string → Z) (db : DB)
    (session : option string) (st : Z) (l : list (string * MDTInvitation)) :
  GET_invitations invitedAt db session = Json st l ↔
  ∃ e u, session = Some e ∧ e ≠ "" ∧ user_by_email db e = Some u
    ∧ st = 200%Z
    ∧ l = merge_sort (invitation_newer invitedAt) (pending_of db u.1).
Proof.
  unfold GET_invitations. split.
  - destruct (require_session session) as [e|[st' msg]] eqn:He; simpl;
      [|discriminate].
    apply require_session_pass in He as [-> Hne].
    destruct (require_user db e "User not found") as [u|[st' msg]] eqn:Hu;
      simpl; [|discriminate].
    apply require_user_pass in Hu. intros [= <- <-]. by exists e, u.
  - intros (e & u & -> & Hne & Hu & -> & ->).
    unfold require_session. rewrite bool_decide_eq_false_2 by done. simpl.
    apply require_user_pass with (msg := "User not found") in Hu.
    by rewrite Hu.
Qed.

Lemma pending_of_NoDup (db : DB) (uid : string) : NoDup (pending_of db uid).
Proof. apply NoDup_filter, NoDup_map_to_list. Qed.

(** X6: the listing of the caller holds exactly the PENDING invitations
    whose receiver is the caller, each once, the newest first. *)
Theorem pending_list_exact (invitedAt : string → Z) (db : DB) (e : string)
    (u : string * User) :
  e ≠ "" →
  user_by_email db e = Some u →
  ∃ l, GET_invitations invitedAt db (Some e) = Json 200 l
    ∧ (∀ k a, (k, a) ∈ l ↔
         invitations db !! k = Some a ∧ receiverId a = u.1
         ∧ inv_status a = PENDING)
    ∧ NoDup l
    ∧ StronglySorted (invitation_newer invitedAt) l.
Proof.
  intros Hne Hu. eexists. split; [|split_and!].
  - apply GET_invitations_Json. by exists e, u.
  - intros k a. by rewrite merge_sort_Permutation, pending_of_elem.
  - rewrite merge_sort_Permutation. apply pending_of_NoDup.
  - apply StronglySorted_merge_sort.
    + intros a b c. unfold invitation_newer. lia.
    + intros a b. unfold invitation_newer. lia.
Qed.

Lemma pending_list_exact_witness :
  ∃ l, GET_invitations (λ _, 0%Z) Sample.store Sample.sessionD = Json 200 l
    ∧ l = [("2", {| inv_mdtId := "0"; senderId := "A"; receiverId := "D";
                    inv_specialtyId := Some Sample.Oncology;
                    inv_status := PENDING |})].
Proof.
  destruct (pending_list_exact (λ _, 0%Z) Sample.store
              "dina@hospital.example" ("D", Sample.userD))
    as (l & Hget & _); [done|by vm_compute|].
  exists l. split; [done|].
  vm_compute in Hget. by injection Hget as <-.
Defined.

(** What the page does to a list is what [filter] does. *)
Lemma handleInvitationResponse_elem {A} (ok : bool) (id : string)
    (l : list (string * A)) (p : string * A) :
  p ∈ handleInvitationResponse ok id l ↔ p ∈ l ∧ (ok = true → p.1 ≠ id).
Proof.
  unfold handleInvitationResponse. destruct ok.
  - rewrite list_elem_of_filter. split.
    + intros [Hne Hp]. split; [done|]. by intros _.
    + intros [Hp Hne]. split; [by apply Hne|done].
  - split.
    + intros Hp. split; [done|discriminate].
    + by intros [Hp _].
Qed.

Lemma handleInvitationResponse_Permutation {A} (ok : bool) (id : string)
    (l cur : list (string * A)) :
  l ≡ₚ cur →
  handleInvitationResponse ok id l ≡ₚ handleInvitationResponse ok id cur.
Proof.
  intros Hl. unfold handleInvitationResponse. destruct ok; by rewrite Hl.
Qed.

(** X7: the invitations page fetches its list once, when it is mounted, and
    after a response it drops the invitation from that list when the
    response succeeded and keeps the list otherwise. Let [l] be the list the
    page shows and [cur] the pending invitations the server lists for the
    caller on the store the response acts on; [l] is [cur] only if no
    request has changed the invitations of the caller since the page fetched
    them. On a store with at most one PENDING invitation per MDT and
    receiver: the server's listing after the response is [cur] with the same
    step applied; so a page whose list had the entries of [cur] shows the
    entries of the server's listing again; and for a stale [l] every entry
    on which the page and the server differ after the response is one on
    which they differed before it. *)
Theorem page_list_follows_response (invitedAt : string → Z) (db db' : DB)
    (session : option string) (id status : string)
    (r : response MDTInvitation) (cur l : list (string * MDTInvitation)) :
  one_pending db →
  PATCH_invitation db session id status = (db', r) →
  GET_invitations invitedAt db session = Json 200 cur →
  ∃ l', GET_invitations invitedAt db' session = Json 200 l'
      ∧ l' ≡ₚ handleInvitationResponse (response_ok r) id cur
      ∧ (l ≡ₚ cur → handleInvitationResponse (response_ok r) id l ≡ₚ l')
      ∧ (∀ p, p ∈ handleInvitationResponse (response_ok r) id l →
              p ∉ l' → p ∈ l ∧ p ∉ cur)
      ∧ (∀ p, p ∈ l' →
              p ∉ handleInvitationResponse (response_ok r) id l →
              p ∈ cur ∧ p ∉ l).
Proof.
  intros Hone Hpatch Hget.
  assert (Hserver : ∃ l', GET_invitations invitedAt db' session = Json 200 l'
            ∧ l' ≡ₚ handleInvitationResponse (response_ok r) id cur).
  { apply GET_invitations_Json in Hget as (e & u & -> & Hne & Hu & _ & ->).
    pose proof (kept_handle db (ReqRespond (Some e) id status)) as Hkept.
    simpl in Hkept. rewrite Hpatch in Hkept. simpl in Hkept.
    assert (Hu' : user_by_email db' e = Some u).
    { unfold user_by_email in *. by rewrite (kept_users _ _ Hkept). }
    eexists. split; [apply GET_invitations_Json; by exists e, u|].
    apply PATCH_invitation_cases in Hpatch
      as [(st & msg & -> & -> & Hst)|[(s & _ & Hready & -> & ->)
         |(s & m & sp & _ & Hready & Hm & Hsp & -> & ->)]].
    - (* the response failed *)
      assert (response_ok (Error (A := MDTInvitation) st msg) = false) as ->;
        [|done].
      unfold response_ok. simpl. apply andb_false_iff. right.
      apply Z.leb_gt. lia.
    - (* declined *)
      unfold handleInvitationResponse, response_ok. simpl.
      apply NoDup_Permutation.
      { rewrite merge_sort_Permutation. apply pending_of_NoDup. }
      { apply NoDup_filter. rewrite merge_sort_Permutation.
        apply pending_of_NoDup. }
      intros [k a]. rewrite list_elem_of_filter. simpl.
      rewrite !merge_sort_Permutation, !pending_of_elem.
      destruct Hready as [_ Hinv _ _ _ _ _]. simpl.
      destruct (decide (id = k)) as [<-|Hnk].
      + rewrite lookup_insert_eq. split; [|tauto].
        intros ([= <-] & _ & ?). done.
      + rewrite lookup_insert_ne by done. split; [|tauto].
        intros (? & ? & ?). split_and!; done || congruence.
    - (* accepted *)
      unfold handleInvitationResponse, response_ok. simpl.
      apply NoDup_Permutation.
      { rewrite merge_sort_Permutation. apply pending_of_NoDup. }
      { apply NoDup_filter. rewrite merge_sort_Permutation.
        apply pending_of_NoDup. }
      intros [k a]. rewrite list_elem_of_filter. simpl.
      rewrite !merge_sort_Permutation, !pending_of_elem.
      destruct Hready as [(e' & [= <-] & _ & u' & Hu'' & Hsu) Hinv _ Hrecv
                            Hpend _ _].
      assert (u' = u) as -> by congruence.
      split.
      + intros (Hk & Hr & Hp).
        apply accepted_store_row in Hk
          as [[-> ->]|(Hnk & other & Hother & [->|[-> _]])]; try done.
      + intros (Hnk & Hk & Hr & Hp). split_and!; try done.
        unfold accepted_store. simpl. rewrite map_lookup_imap.
        rewrite lookup_insert_ne by done. rewrite Hk. simpl.
        destruct (competing id (snap_invitation s) k a) eqn:Hc; [|done].
        exfalso. unfold competing in Hc.
        apply andb_true_iff in Hc as [Hc _].
        apply andb_true_iff in Hc as [Hc _].
        apply andb_true_iff in Hc as [Hc _].
        apply bool_decide_eq_true in Hc. apply Hnk.
        eapply (Hone k id a (snap_invitation s)); try done. congruence. }
  destruct Hserver as (l' & Hget' & Hperm). exists l'.
  split; [done|]. split; [done|]. split_and!.
  - intros Hl. rewrite Hperm.
    by apply handleInvitationResponse_Permutation.
  - intros p Hp Hnp. rewrite Hperm in Hnp.
    rewrite handleInvitationResponse_elem in Hp, Hnp. tauto.
  - intros p Hp Hnp. rewrite Hperm in Hp.
    rewrite handleInvitationResponse_elem in Hp, Hnp. tauto.
Qed.

(** The sample store satisfies the invariants of a history. *)
Lemma sample_store_invariants :
  foreign_keys Sample.store
  ∧ single_acceptance Sample.store ∧ one_pending Sample.store.
Proof.
  destruct (no_invitations_invariants Sample.empty_store eq_refl)
    as (Hfk & Hinv).
  split.
  - eapply keeps_foreign_keys; [|exact Hfk].
    apply (keeps_handle _ (ReqCreateMdt Sample.sessionA Sample.case_body)).
  - by apply (handle_invariants Sample.empty_store
                (ReqCreateMdt Sample.sessionA Sample.case_body)).
Qed.

(** D is invited to two cases and accepts the invitation to the first:
    the page that showed both shows the other one, as the server lists. *)
Lemma page_list_follows_response_witness :
  ∃ l',
    GET_invitations (λ _, 0%Z)
      (PATCH_invitation
         (history Sample.empty_store
            [ReqCreateMdt Sample.sessionA Sample.case_body;
             ReqCreateMdt Sample.sessionA Sample.case_body])
         Sample.sessionD "2" "ACCEPTED").1 Sample.sessionD
    = Json 200 l'
    ∧ l' ≡ₚ [("5", {| inv_mdtId := "1"; senderId := "A"; receiverId := "D";
                      inv_specialtyId := Some Sample.Oncology;
                      inv_status := PENDING |})]
    ∧ handleInvitationResponse true "2"
        [("5", {| inv_mdtId := "1"; senderId := "A"; receiverId := "D";
                  inv_specialtyId := Some Sample.Oncology;
                  inv_status := PENDING |});
         ("2", {| inv_mdtId := "0"; senderId := "A"; receiverId := "D";
                  inv_specialtyId := Some Sample.Oncology;
                  inv_status := PENDING |})] ≡ₚ l'.
Proof.
  destruct (page_list_follows_response (λ _, 0%Z)
              (history Sample.empty_store
                 [ReqCreateMdt Sample.sessionA Sample.case_body;
                  ReqCreateMdt Sample.sessionA Sample.case_body])
              (PATCH_invitation
                 (history Sample.empty_store
                    [ReqCreateMdt Sample.sessionA Sample.case_body;
                     ReqCreateMdt Sample.sessionA Sample.case_body])
                 Sample.sessionD "2" "ACCEPTED").1
              Sample.sessionD "2" "ACCEPTED"
              (Json 200 {| inv_mdtId := "0"; senderId := "A";
                           receiverId := "D";
                           inv_specialtyId := Some Sample.Oncology;
                           inv_status := ACCEPTED |})
              [("5", {| inv_mdtId := "1"; senderId := "A"; receiverId := "D";
                        inv_specialtyId := Some Sample.Oncology;
                        inv_status := PENDING |});
               ("2", {| inv_mdtId := "0"; senderId := "A"; receiverId := "D";
                        inv_specialtyId := Some Sample.Oncology;
                        inv_status := PENDING |})]
              [("5", {| inv_mdtId := "1"; senderId := "A"; receiverId := "D";
                        inv_specialtyId := Some Sample.Oncology;
                        inv_status := PENDING |});
               ("2", {| inv_mdtId := "0"; senderId := "A"; receiverId := "D";
                        inv_specialtyId := Some Sample.Oncology;
                        inv_status := PENDING |})])
    as (l' & Hget & Hperm & Hpage & _).
  - apply (handle_invariants Sample.store
             (ReqCreateMdt Sample.sessionA Sample.case_body));
      [done|apply sample_store_invariants..].
  - by vm_compute.
  - by vm_compute.
  - exists l'. split; [done|]. split; [exact Hperm|]. by apply Hpage.
Defined.

(** A list fetched before another request is stale.  E's page fetched the
    invitation ["1"]; C then accepted the competing invitation ["0"], which
    cancelled ["1"]; E's response is refused, the page keeps the entry and
    the server lists nothing for E. *)
Example stale_page_list_keeps_cancelled_invitation :
  ∃ l db r,
    GET_invitations (λ _, 0%Z) Sample.store Sample.sessionE = Json 200 l
    ∧ PATCH_invitation
        (PATCH_invitation Sample.store Sample.sessionC "0" "ACCEPTED").1
        Sample.sessionE "1" "ACCEPTED" = (db, r)
    ∧ response_ok r = false
    ∧ handleInvitationResponse (response_ok r) "1" l
      = [("1", {| inv_mdtId := "0"; senderId := "A"; receiverId := "E";
                  inv_specialtyId := Some Sample.Cardiology;
                  inv_status := PENDING |})]
    ∧ GET_invitations (λ _, 0%Z) db Sample.sessionE = Json 200 [].
Proof. eexists _, _, _. split_and!; by vm_compute. Qed.

(** ** The dashboard listing *)

Lemma active_mdts_of_elem (db : DB) (uid k : string) (m : MDT) :
  (k, m) ∈ active_mdts_of db uid
  ↔ mdts db !! k = Some m ∧ uid ∈ members m ∧ mdtStatus m = ACTIVE.
Proof.
  unfold active_mdts_of. rewrite list_elem_of_filter, elem_of_map_to_list.
  simpl. tauto.
Qed.

Lemma active_mdts_of_NoDup (db : DB) (uid : string) :
  NoDup (active_mdts_of db uid).*1.
Proof.
  unfold active_mdts_of.
  apply (sublist_NoDup _ (map_to_list (mdts db)).*1).
  - apply NoDup_fst_map_to_list.
  - apply fmap_sublist, sublist_filter.
Qed.

Lemma GET_mdts_Json (updatedAt : string → Z) (db : DB)
    (session : option string) (st : Z) (l : list MDTListItem) :
  GET_mdts updatedAt db session = Json st l ↔
  ∃ e u, session = Some e ∧ e ≠ "" ∧ user_by_email db e = Some u
    ∧ st = 200%Z
    ∧ l = list_item db
            <$> merge_sort (mdt_newer updatedAt) (active_mdts_of db u.1).
Proof.
  unfold GET_mdts. split.
  - destruct (require_session session) as [e|[st' msg]] eqn:He; simpl;
      [|discriminate].
    apply require_session_pass in He as [-> Hne].
    destruct (require_user db e "User not found") as [u|[st' msg]] eqn:Hu;
      simpl; [|discriminate].
    apply require_user_pass in Hu. intros [= <- <-]. by exists e, u.
  - intros (e & u & -> & Hne & Hu & -> & ->).
    unfold require_session. rewrite bool_decide_eq_false_2 by done. simpl.
    apply require_user_pass with (msg := "User not found") in Hu.
    by rewrite Hu.
Qed.

(** An MDT is on the list of a user exactly when it is ACTIVE and the user
    is one of its members. *)
Lemma GET_mdts_elem (updatedAt : string → Z) (db : DB) (e : string)
    (u : string * User) (l : list MDTListItem) (k : string) :
  GET_mdts updatedAt db (Some e) = Json 200 l →
  user_by_email db e = Some u →
  k ∈ item_id <$> l
  ↔ ∃ m, mdts db !! k = Some m ∧ u.1 ∈ members m ∧ mdtStatus m = ACTIVE.
Proof.
  intros Hget Hu.
  apply GET_mdts_Json in Hget as (e' & u' & [= <-] & _ & Hu' & _ & ->).
  assert (u' = u) as -> by congruence.
  rewrite <- list_fmap_compose. split.
  - intros Hk. apply list_elem_of_fmap in Hk as ([k' m] & -> & Hk).
    rewrite merge_sort_Permutation in Hk. apply active_mdts_of_elem in Hk.
    by exists m.
  - intros (m & Hm). apply list_elem_of_fmap. exists (k, m). split; [done|].
    rewrite merge_sort_Permutation. by apply active_mdts_of_elem.
Qed.

(** X8: the dashboard of the caller lists exactly the ACTIVE MDTs the caller
    is a member of, each once and with its own row, the one updated last
    first. *)
Theorem dashboard_list_exact (updatedAt : string → Z) (db : DB) (e : string)
    (u : string * User) :
  e ≠ "" →
  user_by_email db e = Some u →
  ∃ l, GET_mdts updatedAt db (Some e) = Json 200 l
    ∧ (∀ k m, (k, m) ∈ (λ it, (item_id it, item_mdt it)) <$> l ↔
         mdts db !! k = Some m ∧ u.1 ∈ members m ∧ mdtStatus m = ACTIVE)
    ∧ NoDup (item_id <$> l)
    ∧ StronglySorted (λ a b, (updatedAt b ≤ updatedAt a)%Z) (item_id <$> l).
Proof.
  intros Hne Hu. eexists. split; [|split_and!].
  - apply GET_mdts_Json. by exists e, u.
  - intros k m. rewrite <- list_fmap_compose.
    rewrite <- active_mdts_of_elem.
    rewrite <- (merge_sort_Permutation (mdt_newer updatedAt)
                  (active_mdts_of db u.1)) at 2.
    split.
    + intros H. apply list_elem_of_fmap in H as ([k' m'] & [= -> ->] & H).
      done.
    + intros H. apply list_elem_of_fmap. by exists (k, m).
  - rewrite <- list_fmap_compose.
    change (item_id ∘ list_item db) with (fst : string * MDT → string).
    rewrite merge_sort_Permutation. apply active_mdts_of_NoDup.
  - rewrite <- list_fmap_compose.
    change (item_id ∘ list_item db) with (fst : string * MDT → string).
    assert (Hs : StronglySorted (mdt_newer updatedAt)
                   (merge_sort (mdt_newer updatedAt)
                      (active_mdts_of db u.1))).
    { apply StronglySorted_merge_sort.
      - intros a b c. unfold mdt_newer. lia.
      - intros a b. unfold mdt_newer. lia. }
    induction Hs as [|a l' Hs IH Hall]; simpl; constructor; [done|].
    apply Forall_fmap. eapply Forall_impl; [exact Hall|]. done.
Qed.

Lemma dashboard_list_exact_witness :
  ∃ l, GET_mdts (λ _, 0%Z) Sample.store_D_accepted Sample.sessionD
       = Json 200 l
     ∧ item_id <$> l = ["0"].
Proof.
  destruct (dashboard_list_exact (λ _, 0%Z) Sample.store_D_accepted
              "dina@hospital.example" ("D", Sample.userD))
    as (l & Hget & _); [done|by vm_compute|].
  exists l. split; [done|].
  vm_compute in Hget. by injection Hget as <-.
Defined.

(** ** The preview of the last message *)

Lemma lastMessage_sorted (db : DB) (id : string) :
  let l := merge_sort createdAt_ge
             (filter (λ p, msg_mdtId p.2 = id) (map_to_list (messages db))) in
  StronglySorted createdAt_ge l
  ∧ ∀ k msg, (k, msg) ∈ l ↔ messages db !! k = Some msg ∧ msg_mdtId msg = id.
Proof.
  split.
  - apply StronglySorted_merge_sort.
    + intros a b c. unfold createdAt_ge. lia.
    + intros a b. unfold createdAt_ge. lia.
  - intros k msg. rewrite merge_sort_Permutation, list_elem_of_filter,
      elem_of_map_to_list. simpl. tauto.
Qed.

(** X9: the preview of an MDT on the dashboard is empty when the MDT has no
    message, and otherwise is one message of the MDT that no message of the
    MDT is newer than. *)
Theorem preview_is_newest (db : DB) (id : string) :
  match lastMessage db id with
  | [] => ∀ k msg, messages db !! k = Some msg → msg_mdtId msg ≠ id
  | [(k, msg)] =>
      messages db !! k = Some msg ∧ msg_mdtId msg = id
      ∧ ∀ k' msg', messages db !! k' = Some msg' → msg_mdtId msg' = id →
                   (createdAt msg' ≤ createdAt msg)%Z
  | _ => False
  end.
Proof.
  unfold lastMessage. destruct (lastMessage_sorted db id) as [Hs Hel].
  destruct (merge_sort createdAt_ge _) as [|[k msg] l]; simpl.
  - intros k msg Hk Hid. apply (elem_of_nil (k, msg)). apply Hel. done.
  - split_and!.
    + apply (Hel k msg). left.
    + apply (Hel k msg). left.
    + intros k' msg' Hk' Hid.
      assert (Hin : (k', msg') ∈ (k, msg) :: l) by by apply Hel.
      apply elem_of_cons in Hin as [[= -> ->]|Hin]; [lia|].
      apply StronglySorted_inv in Hs as [_ Hall].
      eapply Forall_forall in Hall; [|done]. exact Hall.
Qed.

(** After a message is posted at a time later than every message of the MDT
    in the store, the preview of the MDT is the posted message. *)
Lemma POST_message_preview (db db' : DB) (now : Z) (session : option string)
    (id : string) (content : jsvalue) (st : Z) (posted : string * Message) :
  POST_message db now session id content = (db', Json st posted) →
  (∀ k msg, messages db !! k = Some msg → msg_mdtId msg = id →
            (createdAt msg < now)%Z) →
  lastMessage db' id = [posted].
Proof.
  intros Hpost Hnow.
  destruct (lastMessage_sorted db' id) as [Hs Hel].
  unfold lastMessage.
  unfold POST_message in Hpost.
  destruct (POST_message_checks db session id content) as [[c uid]|[st' m]];
    [|discriminate].
  injection Hpost as <- <- <-.
  set (mid := fresh (dom (messages db))) in *.
  set (new := {| content := toWellFormed c; msg_userId := uid;
                 msg_mdtId := id; createdAt := now |}) in *.
  assert (Hfresh : messages db !! mid = None)
    by apply not_elem_of_dom, is_fresh.
  assert (Hnew : (mid, new) ∈ merge_sort createdAt_ge
            (filter (λ p, msg_mdtId p.2 = id)
               (map_to_list (messages (set_messages (insert mid new) db))))).
  { apply Hel. simpl. by rewrite lookup_insert_eq. }
  destruct (merge_sort createdAt_ge _) as [|[k msg] l] eqn:Hl;
    [by apply elem_of_nil in Hnew|].
  simpl.
  assert (Hk : messages (set_messages (insert mid new) db) !! k = Some msg
               ∧ msg_mdtId msg = id) by (apply Hel; left).
  destruct Hk as [Hk Hid]. simpl in Hk.
  destruct (decide (mid = k)) as [<-|Hne].
  - rewrite lookup_insert_eq in Hk. by injection Hk as <-.
  - exfalso. rewrite lookup_insert_ne in Hk by done.
    apply elem_of_cons in Hnew as [[= <- <-]|Hnew]; [done|].
    apply StronglySorted_inv in Hs as [_ Hall].
    eapply Forall_forall in Hall; [|exact Hnew].
    unfold createdAt_ge in Hall. simpl in Hall.
    specialize (Hnow k msg Hk Hid). lia.
Qed.

(** X10: a posted message is what the dashboard of its author then shows for
    the MDT, when the message is later than every message of the MDT in the
    store and the MDT is ACTIVE. *)
Theorem posted_message_is_preview (updatedAt : string → Z) (db db' : DB)
    (now : Z) (session : option string) (id : string) (content : jsvalue)
    (st : Z) (posted : string * Message) (m : MDT) :
  POST_message db now session id content = (db', Json st posted) →
  (∀ k msg, messages db !! k = Some msg → msg_mdtId msg = id →
            (createdAt msg < now)%Z) →
  mdts db !! id = Some m →
  mdtStatus m = ACTIVE →
  ∃ l, GET_mdts updatedAt db' session = Json 200 l
     ∧ ∃ it, it ∈ l ∧ item_id it = id ∧ item_mdt it = m
           ∧ item_messages it = [posted].
Proof.
  intros Hpost Hnow Hm Hactive.
  pose proof (POST_message_preview _ _ _ _ _ _ _ _ Hpost Hnow) as Hlast.
  unfold POST_message in Hpost.
  destruct (POST_message_checks db session id content) as [[c uid]|[st' e]]
    eqn:Hchecks; [|discriminate].
  apply POST_message_checks_pass in Hchecks
    as (e & u & m' & s & -> & Hne & Hu & -> & -> & -> & _ & Hm' & Hmem).
  assert (m' = m) as -> by congruence.
  injection Hpost as <- _ _.
  eexists. split.
  - apply GET_mdts_Json. by exists e, u.
  - exists (list_item (set_messages
              (insert (fresh (dom (messages db)))
                 {| content := toWellFormed (trim s); msg_userId := u.1;
                    msg_mdtId := id; createdAt := now |}) db) (id, m)).
    split_and!; try done.
    apply list_elem_of_fmap. exists (id, m). split; [done|].
    rewrite merge_sort_Permutation. by apply active_mdts_of_elem.
Qed.

Lemma posted_message_is_preview_witness :
  ∃ l, GET_mdts (λ _, 0%Z)
         (history Sample.store
            [ReqPostMessage 5 Sample.sessionA "0" (JStr (js "first"));
             ReqPostMessage 7 Sample.sessionA "0" (JStr (js " second "))])
         Sample.sessionA = Json 200 l
     ∧ item_messages <$> l
       = [[("1", {| content := js "second"; msg_userId := "A";
                    msg_mdtId := "0"; createdAt := 7 |})]].
Proof.
  set (db := history Sample.store
               [ReqPostMessage 5 Sample.sessionA "0" (JStr (js "first"))]).
  destruct (posted_message_is_preview (λ _, 0%Z) db
              (POST_message db 7 Sample.sessionA "0"
                 (JStr (js " second "))).1
              7 Sample.sessionA "0" (JStr (js " second ")) 201
              ("1", {| content := js "second"; msg_userId := "A";
                       msg_mdtId := "0"; createdAt := 7 |})
              {| mdtName := "Case 1"; creatorId := "A"; mdtStatus := ACTIVE;
                 members := {["A"]} |})
    as (l & Hget & _).
  - by vm_compute.
  - intros k msg Hk _.
    assert (Hall : map_Forall (λ _ msg, (createdAt msg < 7)%Z) (messages db)).
    { apply (bool_decide_unpack _). by vm_compute. }
    by apply (Hall k msg).
  - by vm_compute.
  - done.
  - exists l. split; [done|].
    vm_compute in Hget. by injection Hget as <-.
Defined.

(** X11: after an invitation is accepted the responder reads the discussion
    of the MDT, which holds the messages of before, and finds the MDT, when
    it is ACTIVE, on the dashboard. *)
Theorem accepted_case_on_dashboard (updatedAt : string → Z) (db db' : DB)
    (session : option string) (id : string) (st : Z) (i : MDTInvitation) :
  PATCH_invitation db session id "ACCEPTED" = (db', Json st i) →
  ∃ m, mdts db !! inv_mdtId i = Some m
     ∧ GET_messages db' session (inv_mdtId i)
       = Json 200 (findMany_messages db (inv_mdtId i))
     ∧ (mdtStatus m = ACTIVE →
        ∃ l, GET_mdts updatedAt db' session = Json 200 l
           ∧ inv_mdtId i ∈ item_id <$> l).
Proof.
  intros Hpatch.
  pose proof (kept_handle db (ReqRespond session id "ACCEPTED")) as Hkept.
  simpl in Hkept. rewrite Hpatch in Hkept. simpl in Hkept.
  apply PATCH_invitation_cases in Hpatch
    as [(st' & msg & [=] & _)|[(s & [=] & _)
       |(s & m & sp & _ & Hready & Hm & Hsp & [= -> ->] & ->)]].
  simpl.
  destruct Hready as [(e & -> & Hne & u & Hu & Hsu) _ _ _ _ _ _].
  assert (Hu' : user_by_email (accepted_store db id s (snap_invitation s) m sp)
                  e = Some u).
  { unfold user_by_email in *. by rewrite (kept_users _ _ Hkept). }
  destruct (accepted_store_effects db id s (snap_invitation s) m sp Hsp)
    as (_ & (m' & Hm' & Hmem) & _).
  exists m. simpl. split_and!; [done| |].
  - unfold GET_messages, require_session.
    rewrite bool_decide_eq_false_2 by done. simpl.
    apply require_user_pass with (msg := "User not found") in Hu'.
    rewrite Hu'. simpl. simpl in Hm'. rewrite Hm'.
    unfold isMember. rewrite bool_decide_eq_true_2 by by rewrite <- Hsu.
    done.
  - intros Hactive. eexists. split.
    + apply GET_mdts_Json. by exists e, u.
    + rewrite <- list_fmap_compose. apply list_elem_of_fmap.
      exists (inv_mdtId (snap_invitation s), m'). split; [done|].
      rewrite merge_sort_Permutation. apply active_mdts_of_elem.
      split_and!; [done|by rewrite <- Hsu|].
      destruct (kept_mdts _ _ Hkept _ _ Hm) as (m'' & Hm'' & _ & Hst & _).
      simpl in Hm', Hm''. congruence.
Qed.

Lemma accepted_case_on_dashboard_witness :
  GET_messages Sample.store Sample.sessionD "0"
    = Error 403 "Not authorized to view messages for this MDT"
  ∧ GET_messages Sample.store_D_accepted Sample.sessionD "0" = Json 200 []
  ∧ ∃ l, GET_mdts (λ _, 0%Z) Sample.store_D_accepted Sample.sessionD
         = Json 200 l
       ∧ "0" ∈ item_id <$> l.
Proof.
  destruct (accepted_case_on_dashboard (λ _, 0%Z) Sample.store
              Sample.store_D_accepted Sample.sessionD "2" 200
              {| inv_mdtId := "0"; senderId := "A"; receiverId := "D";
                 inv_specialtyId := Some Sample.Oncology;
                 inv_status := ACCEPTED |})
    as (m & Hm & Hread & Hlist); [by vm_compute|].
  split; [by vm_compute|]. split; [exact Hread|].
  apply Hlist. vm_compute in Hm. by injection Hm as <-.
Defined.

(** X12: after a creation the new MDT is on the dashboard of the creator and
    of every local doctor of the request, and on no other dashboard. *)
Theorem created_case_on_dashboards (updatedAt : string → Z) (db db' : DB)
    (session : option string) (body : CreateMDTBody) (st : Z)
    (view : MDTView) (e : string) (u : string * User) :
  POST_mdt db session body = (db', Json st (Some view)) →
  e ≠ "" →
  user_by_email db e = Some u →
  ∃ l, GET_mdts updatedAt db' (Some e) = Json 200 l
     ∧ (view_id view ∈ item_id <$> l
        ↔ session = Some e ∨ u.1 ∈ localDoctors body).
Proof.
  intros Hpost Hne Hu.
  apply POST_mdt_json in Hpost
    as (creator & (e0 & -> & _ & Hcreator) & _ & _ & Htx).
  apply create_mdt_tx_done in Htx as Hcreated.
  pose proof (created_view _ _ _ _ _ _ Hcreated) as [= ->]. simpl.
  assert (Hu' : user_by_email db' e = Some u).
  { unfold user_by_email in *.
    by rewrite (created_users _ _ _ _ _ _ Hcreated). }
  eexists. split; [apply GET_mdts_Json; by exists e, u|].
  rewrite <- list_fmap_compose.
  change (item_id ∘ list_item db') with (fst : string * MDT → string).
  set (id := fresh (dom (mdts db))).
  assert (Hiff : id ∈ (merge_sort (mdt_newer updatedAt)
                         (active_mdts_of db' u.1)).*1
                 ↔ u.1 ∈ members (new_mdt creator.1 body)).
  { rewrite merge_sort_Permutation. split.
    - intros H. apply list_elem_of_fmap in H as ([k m] & Heq & H).
      simpl in Heq. apply active_mdts_of_elem in H as (Hk & Hmem & _).
      rewrite (created_mdt _ _ _ _ _ _ Hcreated), <- Heq in Hk.
      rewrite lookup_insert_eq in Hk. by injection Hk as <-.
    - intros Hmem. apply list_elem_of_fmap.
      exists (id, new_mdt creator.1 body). split; [done|].
      apply active_mdts_of_elem. split_and!; [|done|done].
      rewrite (created_mdt _ _ _ _ _ _ Hcreated). fold id.
      by rewrite lookup_insert_eq. }
  rewrite Hiff. unfold new_mdt. cbn [members].
  rewrite elem_of_union, elem_of_empty, elem_of_list_to_set, elem_of_cons.
  pose proof (user_by_email_lookup _ _ _ Hu) as [Hrow He].
  pose proof (user_by_email_lookup _ _ _ Hcreator) as [Hrow0 He0].
  split.
  - intros [[]|[Heq|Hl]]; [|by right]. left.
    rewrite Heq in Hrow. congruence.
  - intros [[= ->]|Hl]; [|by right; right]. right. left.
    congruence.
Qed.

Lemma created_case_on_dashboards_witness :
  ∃ l, GET_mdts (λ _, 0%Z) Sample.store Sample.sessionA = Json 200 l
     ∧ "0" ∈ item_id <$> l.
Proof.
  assert (Hpost : ∃ view,
    POST_mdt Sample.empty_store Sample.sessionA Sample.case_body
      = (Sample.store, Json 200 (Some view)) ∧ view_id view = "0").
  { eexists. split; [vm_compute; reflexivity|reflexivity]. }
  destruct Hpost as (view & Hpost & Hid).
  destruct (created_case_on_dashboards (λ _, 0%Z) Sample.empty_store
              Sample.store Sample.sessionA Sample.case_body 200 view
              "amal@clinic.example" ("A", Sample.userA) Hpost)
    as (l & Hget & Hiff); [done|by vm_compute|].
  exists l. split; [done|]. rewrite <- Hid. apply Hiff. by left.
Defined.

(** ** Dashboards through a history *)

(** X13: through any history of requests an MDT stays on the dashboards it
    is on. *)
Theorem dashboards_only_grow (updatedAt updatedAt' : string → Z) (db : DB)
    (rqs : list Request) (e : string) (l : list MDTListItem) (k : string) :
  GET_mdts updatedAt db (Some e) = Json 200 l →
  k ∈ item_id <$> l →
  ∃ l', GET_mdts updatedAt' (history db rqs) (Some e) = Json 200 l'
      ∧ k ∈ item_id <$> l'.
Proof.
  intros Hget Hk.
  assert (Hkept : kept db (history db rqs)).
  { unfold history. clear. revert db.
    induction rqs as [|rq rqs IH]; intros db; simpl; [apply kept_refl|].
    eapply kept_trans; [apply kept_handle|apply IH]. }
  pose proof Hget as Hjson.
  apply GET_mdts_Json in Hjson as (e' & u & [= <-] & Hne & Hu & _ & _).
  assert (Hu' : user_by_email (history db rqs) e = Some u).
  { unfold user_by_email in *. by rewrite (kept_users _ _ Hkept). }
  eexists. split; [apply GET_mdts_Json; by exists e, u|].
  apply (GET_mdts_elem _ _ _ _ _ _ Hget Hu) in Hk
    as (m & Hm & Hmem & Hactive).
  destruct (kept_mdts _ _ Hkept _ _ Hm) as (m' & Hm' & _ & Hst & Hsub).
  rewrite <- list_fmap_compose. apply list_elem_of_fmap.
  exists (k, m'). split; [done|].
  rewrite merge_sort_Permutation. apply active_mdts_of_elem.
  split_and!; [done|by apply Hsub|congruence].
Qed.

Lemma dashboards_only_grow_witness :
  ∃ l', GET_mdts (λ _, 1%Z)
          (history Sample.store
             [ReqRespond Sample.sessionD "2" "ACCEPTED";
              ReqWithdraw Sample.sessionA "0"])
          Sample.sessionA = Json 200 l'
      ∧ "0" ∈ item_id <$> l'.
Proof.
  assert (Hget : ∃ l, GET_mdts (λ _, 0%Z) Sample.store Sample.sessionA
                      = Json 200 l ∧ item_id <$> l = ["0"]).
  { eexists. split; [vm_compute; reflexivity|reflexivity]. }
  destruct Hget as (l & Hget & Hids).
  apply (dashboards_only_grow (λ _, 0%Z) (λ _, 1%Z) Sample.store
           [ReqRespond Sample.sessionD "2" "ACCEPTED";
            ReqWithdraw Sample.sessionA "0"]
           "amal@clinic.example" l "0" Hget).
  rewrite Hids. apply list_elem_of_singleton. done.
Defined.

(** ** A direct invitation *)

(** X14: a direct invitation that has been created is on the list of its
    receiver, and while it is there no request creates another one for the
    receiver and the MDT. *)
Theorem invite_listed_once (invitedAt : string → Z) (db db' : DB)
    (session session' : option string) (mdtId receiverEmail : string)
    (st : Z) (new : string * MDTInvitation) :
  POST_invitation db session mdtId receiverEmail = (db', Json st new) →
  receiverEmail ≠ "" →
  (∃ l, GET_invitations invitedAt db' (Some receiverEmail) = Json 200 l
      ∧ new ∈ l)
  ∧ ∃ st' msg,
      POST_invitation db' session' mdtId receiverEmail
      = (db', Error st' msg).
Proof.
  intros Hpost Hne. destruct new as [id invitation].
  apply POST_invitation_created in Hpost
    as (sender & receiver & Hreceiver & Hmdt & -> & Hfresh & ->).
  assert (Hreceiver' : user_by_email
            (set_invitations (insert id
               {| inv_mdtId := mdtId; senderId := sender;
                  receiverId := receiver.1; inv_specialtyId := None;
                  inv_status := PENDING |}) db) receiverEmail
          = Some receiver) by done.
  split.
  - eexists. split; [apply GET_invitations_Json; by exists receiverEmail, receiver|].
    rewrite merge_sort_Permutation. apply pending_of_elem. simpl.
    by rewrite lookup_insert_eq.
  - unfold POST_invitation.
    destruct (require_session session') as [e|[st' msg]] eqn:He; simpl;
      [|by eexists _, _].
    destruct (require_user _ e "Sender not found") as [u|[st' msg]] eqn:Hu;
      simpl; [|by eexists _, _].
    case_bool_decide; simpl; [by eexists _, _|].
    apply require_user_pass with (msg := "Receiver not found") in Hreceiver'.
    rewrite Hreceiver'. simpl.
    destruct (findFirst_pending _ mdtId receiver.1) as [p|] eqn:Hfind;
      simpl; [by eexists _, _|].
    exfalso. rewrite findFirst_pending_None in Hfind.
    eapply (Hfind id); simpl; [by rewrite lookup_insert_eq|done..].
Qed.

Lemma invite_listed_once_witness :
  ∃ st' msg,
    POST_invitation
      (POST_invitation Sample.store Sample.sessionA "0"
         "basil@hospital.example").1
      Sample.sessionA "0" "basil@hospital.example"
    = ((POST_invitation Sample.store Sample.sessionA "0"
          "basil@hospital.example").1, Error st' msg).
Proof.
  destruct (invite_listed_once (λ _, 0%Z) Sample.store
              (POST_invitation Sample.store Sample.sessionA "0"
                 "basil@hospital.example").1
              Sample.sessionA Sample.sessionA "0" "basil@hospital.example"
              200
              ("3", {| inv_mdtId := "0"; senderId := "A"; receiverId := "B";
                       inv_specialtyId := None; inv_status := PENDING |}))
    as [_ Hsecond]; [by vm_compute|done|].
  exact Hsecond.
Defined.

(** ** One MDT *)

Lemma GET_mdt_Json (db : DB) (session : option string) (id : string)
    (st : Z) (it : MDTListItem) :
  GET_mdt db session id = Json st it ↔
  ∃ e u m, session = Some e ∧ e ≠ "" ∧ user_by_email db e = Some u
    ∧ mdts db !! id = Some m ∧ u.1 ∈ members m
    ∧ st = 200%Z ∧ it = mdt_detail db id m.
Proof.
  unfold GET_mdt. split.
  - destruct (require_session session) as [e|[st' msg]] eqn:He; simpl;
      [|discriminate].
    apply require_session_pass in He as [-> Hne].
    destruct (require_user db e "User not found") as [u|[st' msg]] eqn:Hu;
      simpl; [|discriminate].
    apply require_user_pass in Hu.
    destruct (mdts db !! id) as [m|] eqn:Hm; [|discriminate].
    unfold isMember. case_bool_decide as Hmem; [|discriminate].
    intros [= <- <-]. by exists e, u, m.
  - intros (e & u & m & -> & Hne & Hu & Hm & Hmem & -> & ->).
    unfold require_session. rewrite bool_decide_eq_false_2 by done. simpl.
    apply require_user_pass with (msg := "User not found") in Hu.
    rewrite Hu. simpl. rewrite Hm. unfold isMember.
    by rewrite bool_decide_eq_true_2.
Qed.



(** X16: an edit is accepted only from the creator of the MDT. It sets the
    name of the MDT and the age, gender, identifier, history and summary of
    its profile as far as the body gives them, and changes nothing else: not
    the creator, the status or the members of the MDT, not the medications
    of the profile, no other MDT or profile, no user, slot, invitation or
    message. A refused edit writes nothing. *)
Theorem edit_by_creator_only (db db' : DB) (session : option string)
    (id : string) (body : UpdateMDTBody) (r : response MDTListItem) :
  PUT_mdt db session id body = (db', r) →
  match r with
  | Json _ it =>
      ∃ e u m,
        session = Some e ∧ user_by_email db e = Some u
        ∧ mdts db !! id = Some m ∧ creatorId m = u.1
        ∧ mdts db' !! id
          = Some {| mdtName := default (mdtName m) (up_name body);
                    creatorId := creatorId m; mdtStatus := mdtStatus m;
                    members := members m |}
        ∧ (∀ k, k ≠ id → mdts db' !! k = mdts db !! k)
        ∧ (∀ k p, patientProfiles db !! k = Some p →
             patientProfiles db' !! k
             = Some (if bool_decide (profileMdtId p = id)
                     then edited_profile body p else p))
        ∧ dom (patientProfiles db') = dom (patientProfiles db)
        ∧ users db' = users db ∧ specialties db' = specialties db
        ∧ mdtSpecialties db' = mdtSpecialties db
        ∧ invitations db' = invitations db
        ∧ messages db' = messages db
  | Error _ _ => db' = db
  end.
Proof.
  intros Hput. apply PUT_mdt_outcome in Hput. destruct r as [st it|]; [|done].
  destruct Hput as (_ & e & u & m & -> & _ & Hu & Hm & Hcreator & _ & -> & _).
  exists e, u, m. unfold edited_store. simpl. split_and!; try done.
  - by rewrite lookup_insert_eq.
  - intros k Hk. by rewrite lookup_insert_ne.
  - intros k p Hp. by rewrite lookup_fmap, Hp.
  - apply dom_fmap_L.
Qed.

Lemma edit_by_creator_only_witness :
  (PUT_mdt Sample.store Sample.sessionC "0"
     {| up_name := Some "Case 1b"; up_age := None; up_uniqueId := None;
        up_gender := None; up_medicalHistory := None;
        up_caseSummary := None |}).1 = Sample.store.
Proof.
  apply (edit_by_creator_only Sample.store _ Sample.sessionC "0"
           {| up_name := Some "Case 1b"; up_age := None; up_uniqueId := None;
              up_gender := None; up_medicalHistory := None;
              up_caseSummary := None |}
           (Error 404
              "MDT not found or you do not have permission to edit it")).
  by vm_compute.
Defined.

(** X17: what an edit answers is what the detail route then answers the
    creator, when the creator is a member of the MDT. *)
Theorem edit_then_read (db db' : DB) (session : option string) (id : string)
    (body : UpdateMDTBody) (st : Z) (it : MDTListItem) :
  PUT_mdt db session id body = (db', Json st it) →
  (∀ m, mdts db !! id = Some m → creatorId m ∈ members m) →
  GET_mdt db' session id = Json 200 it
  ∧ mdtName (item_mdt it)
    = default (default "" (mdtName <$> mdts db !! id)) (up_name body).
Proof.
  intros Hput Hmember. apply PUT_mdt_outcome in Hput
    as (_ & e & u & m & -> & Hne & Hu & Hm & Hcreator & _ & -> & ->).
  split.
  - apply GET_mdt_Json. exists e, u, (edited_mdt body m).
    split_and!; try done.
    + unfold edited_store. simpl. by rewrite lookup_insert_eq.
    + simpl. rewrite <- Hcreator. by apply Hmember.
  - simpl. by rewrite Hm.
Qed.

Lemma edit_then_read_witness :
  ∃ it,
    GET_mdt
      (PUT_mdt Sample.store Sample.sessionA "0"
         {| up_name := Some "Case 1b"; up_age := Some 55%Z;
            up_uniqueId := None; up_gender := None;
            up_medicalHistory := None; up_caseSummary := None |}).1
      Sample.sessionA "0" = Json 200 it
    ∧ mdtName (item_mdt it) = "Case 1b"
    ∧ age ∘ snd <$> item_patientProfile it = [55%Z].
Proof.
  assert (Hput : ∃ db' it,
    PUT_mdt Sample.store Sample.sessionA "0"
      {| up_name := Some "Case 1b"; up_age := Some 55%Z;
         up_uniqueId := None; up_gender := None;
         up_medicalHistory := None; up_caseSummary := None |}
    = (db', Json 200 it)
    ∧ age ∘ snd <$> item_patientProfile it = [55%Z]).
  { eexists _, _. split; [vm_compute; reflexivity|reflexivity]. }
  destruct Hput as (db' & it & Hput & Hage).
  destruct (edit_then_read _ _ _ _ _ _ _ Hput) as [Hget Hname].
  - intros m Hm.
    assert (Hrow : mdts Sample.store !! "0"
              = Some {| mdtName := "Case 1"; creatorId := "A";
                        mdtStatus := ACTIVE; members := {["A"]} |})
      by by vm_compute.
    rewrite Hrow in Hm. injection Hm as <-. simpl.
    by apply elem_of_singleton.
  - exists it. rewrite Hput. simpl. split; [done|]. split; [|done].
    rewrite Hname. by vm_compute.
Defined.

(** ** The local doctors *)

(** X18: the route lists, for any session with an address, exactly the LOCAL
    users whose address is not the caller's, each once; it reads no user row
    of the caller. *)
Theorem local_doctors_listed (collate : string → string → bool) (db : DB)
    (e : string) :
  e ≠ "" →
  ∃ l, GET_users_local collate db (Some e) = Json 200 l
     ∧ (∀ d, d ∈ l ↔
          ∃ u, users db !! doc_id d = Some u
             ∧ userType u = LOCAL ∧ email u ≠ e
             ∧ d = {| doc_id := doc_id d;
                      doc_name := firstName u +:+ " " +:+ lastName u;
                      doc_email := email u;
                      doc_specialties := userSpecialties u |})
     ∧ NoDup (doc_id <$> l).
Proof.
  intros Hne. unfold GET_users_local, require_session.
  rewrite bool_decide_eq_false_2 by done. simpl.
  eexists. split; [done|]. split.
  - intros d. rewrite list_elem_of_fmap. split.
    + intros ([k u] & -> & Hk). rewrite merge_sort_Permutation in Hk.
      apply list_elem_of_filter in Hk as [[Hlocal Hmail] Hk].
      apply elem_of_map_to_list in Hk. simpl in *. by exists u.
    + intros (u & Hu & Hlocal & Hmail & Hd). exists (doc_id d, u).
      split; [done|]. rewrite merge_sort_Permutation.
      apply list_elem_of_filter. split; [done|].
      by apply elem_of_map_to_list.
  - rewrite <- list_fmap_compose.
    change (doc_id ∘ _) with (fst : string * User → string).
    rewrite merge_sort_Permutation.
    apply (sublist_NoDup _ (map_to_list (users db)).*1).
    + apply NoDup_fst_map_to_list.
    + apply fmap_sublist, sublist_filter.
Qed.

Lemma local_doctors_listed_witness :
  ∃ l, GET_users_local String.leb Sample.empty_store Sample.sessionB
       = Json 200 l
     ∧ doc_name <$> l = ["Amal Haddad"].
Proof.
  destruct (local_doctors_listed String.leb Sample.empty_store
              "basil@hospital.example") as (l & Hget & _); [done|].
  exists l. split; [done|].
  vm_compute in Hget. by injection Hget as <-.
Defined.

(** ** Trimming twice *)

Lemma trimStart_fixed (s : jsstring) :
  (∀ c, head s = Some c → is_js_whitespace c = false) → trimStart s = s.
Proof.
  destruct s as [|c s]; [done|]. intros H. simpl. by rewrite (H c).
Qed.

Lemma trimStart_head (s : jsstring) (c : N) :
  head (trimStart s) = Some c → is_js_whitespace c = false.
Proof.
  induction s as [|d s IH]; [done|]. simpl.
  destruct (is_js_whitespace d) eqn:Hd; [done|]. by intros [= <-].
Qed.

Lemma trimStart_suffix (s : jsstring) : trimStart s `suffix_of` s.
Proof.
  induction s as [|d s IH]; [done|]. simpl.
  destruct (is_js_whitespace d); [by apply suffix_cons_r|done].
Qed.

Lemma trimEnd_prefix (s : jsstring) : trimEnd s `prefix_of` s.
Proof.
  unfold trimEnd. rewrite <- (reverse_involutive s) at 2.
  apply suffix_prefix_reverse, trimStart_suffix.
Qed.

Lemma trimEnd_fixed (s : jsstring) :
  (∀ c, last s = Some c → is_js_whitespace c = false) → trimEnd s = s.
Proof.
  intros H. unfold trimEnd. rewrite trimStart_fixed.
  - apply reverse_involutive.
  - intros c Hc. apply H. by rewrite <- head_reverse.
Qed.

Lemma trimEnd_last (s : jsstring) (c : N) :
  last (trimEnd s) = Some c → is_js_whitespace c = false.
Proof.
  unfold trimEnd. rewrite last_reverse. apply trimStart_head.
Qed.

Lemma trim_head (s : jsstring) (c : N) :
  head (trim s) = Some c → is_js_whitespace c = false.
Proof.
  unfold trim. intros Hc.
  destruct (trimEnd_prefix (trimStart s)) as [k Hk].
  apply (trimStart_head s). rewrite Hk.
  destruct (trimEnd (trimStart s)); [done|]. done.
Qed.

(** Trimming a trimmed string changes nothing. *)
Lemma trim_trim (s : jsstring) : trim (trim s) = trim s.
Proof.
  unfold trim at 1. rewrite (trimStart_fixed (trim s)).
  - apply trimEnd_fixed. unfold trim. apply trimEnd_last.
  - apply trim_head.
Qed.

(** ** The text of a string *)

(** A code unit of the text is the unit of the string or U+FFFD. *)
Lemma toWellFormed_units (s : jsstring) :
  Forall2 (λ c c', c' = c ∨ c' = 0xFFFD%N) s (toWellFormed s).
Proof.
  assert (H : ∀ n s, (List.length s ≤ n)%nat →
            Forall2 (λ c c', c' = c ∨ c' = 0xFFFD%N) s (toWellFormed s)).
  { clear s. induction n as [|n IH]; intros s Hn.
    - destruct s; [constructor|simpl in Hn; lia].
    - destruct s as [|c s]; [constructor|]. simpl in Hn.
      cbn [toWellFormed]. destruct (is_high_surrogate c).
      + destruct s as [|d s]; [repeat constructor; by right|].
        destruct (is_low_surrogate d).
        * constructor; [by left|]. constructor; [by left|].
          apply IH. simpl in Hn. lia.
        * constructor; [by right|]. apply IH. lia.
      + destruct (is_low_surrogate c).
        * constructor; [by right|]. apply IH. lia.
        * constructor; [by left|]. apply IH. lia. }
  by apply (H (List.length s)).
Qed.

Lemma toWellFormed_length (s : jsstring) :
  List.length (toWellFormed s) = List.length s.
Proof. symmetry. eapply Forall2_length, toWellFormed_units. Qed.

Lemma Forall2_last {A B} (R : A → B → Prop) (l : list A) (k : list B)
    (y : B) :
  Forall2 R l k → last k = Some y → ∃ x, last l = Some x ∧ R x y.
Proof.
  induction 1 as [|x y' l k Hxy Hlk IH]; [done|].
  destruct Hlk as [|x2 y2 l k Hxy2 Hlk].
  - intros [= <-]. by exists x.
  - intros Hlast. apply IH. exact Hlast.
Qed.

Lemma Forall2_head {A B} (R : A → B → Prop) (l : list A) (k : list B)
    (y : B) :
  Forall2 R l k → head k = Some y → ∃ x, head l = Some x ∧ R x y.
Proof. destruct 1 as [|x y' l k Hxy _]; [done|]. intros [= <-]. by exists x. Qed.

(** The text of a trimmed string is trimmed. *)
Lemma trim_toWellFormed (s : jsstring) :
  trim (toWellFormed (trim s)) = toWellFormed (trim s).
Proof.
  pose proof (toWellFormed_units (trim s)) as Hunits.
  unfold trim at 1. rewrite trimStart_fixed.
  - apply trimEnd_fixed. intros c' Hc'.
    destruct (Forall2_last _ _ _ _ Hunits Hc') as (c & Hc & [->| ->]);
      [|done].
    apply (trimEnd_last (trimStart s)). exact Hc.
  - intros c' Hc'.
    destruct (Forall2_head _ _ _ _ Hunits Hc') as (c & Hc & [->| ->]);
      [|done].
    by apply (trim_head s).
Qed.

(** A string without a lone surrogate is its own text. *)
Lemma isWellFormed_text (s : jsstring) :
  isWellFormed s = true ↔ toWellFormed s = s.
Proof. unfold isWellFormed. apply bool_decide_eq_true. Qed.

(** A lone surrogate is stored as U+FFFD: the content ["\ud83d"] has one
    code unit, is accepted, and is listed as ["\ufffd"]. *)
Example lone_surrogate_stored_as_replacement :
  content ∘ snd
    <$> findMany_messages
          (POST_message Sample.store 3 Sample.sessionA "0"
             (JStr [0xD83D%N])).1 "0"
  = [[0xFFFD%N]].
Proof. by vm_compute. Qed.

(** ** What the case page posts *)

(** X19: what the case page posts is never refused for being empty, and what
    is stored is the text of what the page sent: the string the page sent
    itself when it has no lone surrogate. *)
Theorem page_message_stored_as_sent (newMessage : jsstring)
    (sendingMessage : bool) (v : jsvalue) (db db' : DB) (now : Z)
    (session : option string) (id : string)
    (r : response (string * Message)) :
  handleSendMessage newMessage sendingMessage = Some v →
  POST_message db now session id v = (db', r) →
  v = JStr (trim newMessage)
  ∧ match r with
    | Json _ posted =>
        content posted.2 = toWellFormed (trim newMessage)
        ∧ (isWellFormed (trim newMessage) = true →
           v = JStr (content posted.2))
    | Error _ msg => msg ≠ "Message content is required"
    end.
Proof.
  unfold handleSendMessage. intros Hsend Hpost.
  destruct (truthy (JStr (trim newMessage))) eqn:Htruthy; [|done].
  destruct sendingMessage; [done|]. injection Hsend as <-.
  split; [done|].
  assert (Hlen : (List.length (trim newMessage) =? 0)%nat = false).
  { simpl in Htruthy. by apply negb_true_iff in Htruthy. }
  unfold POST_message in Hpost.
  destruct (POST_message_checks db session id (JStr (trim newMessage)))
    as [[c uid]|[st msg]] eqn:Hchecks.
  - injection Hpost as <- <-. simpl.
    apply POST_message_checks_pass in Hchecks
      as (e & u & m & s & _ & _ & _ & [= <-] & -> & _).
    rewrite trim_trim. split; [done|].
    intros Hwf%isWellFormed_text. by rewrite Hwf.
  - injection Hpost as <- <-.
    unfold POST_message_checks, require_session, require_user, reject, pass
      in Hchecks.
    rewrite trim_trim, Htruthy, Hlen in Hchecks. simpl in Hchecks.
    repeat (case_match; simplify_eq/=; try done).
Qed.

Lemma page_message_stored_as_sent_witness :
  handleSendMessage (js "  see the scan ") false
    = Some (JStr (js "see the scan"))
  ∧ content <$> messages (POST_message Sample.store 3 Sample.sessionA "0"
                            (JStr (js "see the scan"))).1 !! "0"
    = Some (js "see the scan").
Proof.
  split; [done|].
  destruct (page_message_stored_as_sent (js "  see the scan ") false
    (JStr (js "see the scan")) Sample.store
    (POST_message Sample.store 3 Sample.sessionA "0"
       (JStr (js "see the scan"))).1
    3 Sample.sessionA "0"
    (Json 201 ("0", {| content := js "see the scan"; msg_userId := "A";
                       msg_mdtId := "0"; createdAt := 3 |})))
    as (_ & Hstored & _); [done|by vm_compute|].
  by vm_compute.
Defined.

(** ** The messages of a history *)

(** A message of the store after a request was in the store before, or is
    the one the request has posted. *)
Lemma handle_message (db : DB) (rq : Request) (k : string) (msg : Message) :
  messages (handle db rq) !! k = Some msg →
  messages db !! k = Some msg
  ∨ ∃ now session v c,
      rq = ReqPostMessage now session (msg_mdtId msg) v
      ∧ POST_message_checks db session (msg_mdtId msg) v
        = inl (c, msg_userId msg)
      ∧ content msg = toWellFormed c.
Proof.
  destruct rq as [now session id v|session body|session id body
                  |session id status
                  |session id|session mdtId receiverEmail
                  |session invitationId status]; simpl.
  - unfold POST_message.
    destruct (POST_message_checks db session id v) as [[c uid]|[st e]]
      eqn:Hchecks; simpl; [|by left].
    destruct (decide (fresh (dom (messages db)) = k)) as [<-|Hne].
    + rewrite lookup_insert_eq. intros [= <-]. right. simpl. eauto 10.
    + rewrite lookup_insert_ne by done. by left.
  - destruct (POST_mdt db session body) as [db' [st v|st e]] eqn:Hpost; simpl.
    + apply POST_mdt_json in Hpost as (creator & _ & _ & _ & Htx).
      apply create_mdt_tx_done in Htx as Hc.
      rewrite (created_messages _ _ _ _ _ _ Hc). by left.
    + apply POST_mdt_error_unchanged in Hpost as ->. by left.
  - destruct (PUT_mdt db session id body) as [db' [st it|st e]] eqn:Hput;
      simpl.
    + apply PUT_mdt_outcome in Hput
        as (_ & e & u & m & _ & _ & _ & _ & _ & _ & -> & _). by left.
    + apply PUT_mdt_outcome in Hput as ->. by left.
  - destruct (PATCH_invitation_outcome db session id status)
      as [->|[(s & _ & ->)|(s & m & sp & _ & _ & _ & ->)]]; by left.
  - destruct (DELETE_invitation db session id) as [db' [st r|st e]] eqn:Hdel;
      simpl.
    + apply DELETE_invitation_outcome in Hdel
        as (_ & e & u & inv & _ & _ & _ & _ & _ & _ & ->). by left.
    + apply DELETE_invitation_outcome in Hdel as ->. by left.
  - destruct (POST_invitation db session mdtId receiverEmail)
      as [db' [st [id i]|st e]] eqn:Hpost; simpl.
    + apply POST_invitation_created in Hpost
        as (sender & receiver & _ & _ & _ & _ & ->). by left.
    + unfold POST_invitation in Hpost.
      destruct (_ : guard MDTInvitation) as [i|[st' msg']];
        injection Hpost as <-; [done|by left].
  - unfold PATCH_invitations.
    destruct (require_session session) as [e|[st e]]; simpl; [|by left].
    destruct (require_user db e "User not found") as [u|[st e']]; simpl;
      [|by left].
    destruct (invitations db !! invitationId) as [i|]; [|by left].
    destruct (parse_status status) as [st|]; [|by left].
    case_bool_decide; simpl; [|by left].
    case_bool_decide; [|by left].
    unfold tx_connect_members. simpl.
    destruct (mdts db !! inv_mdtId i); simpl; [|by left].
    destruct (bool_decide (is_Some (users db !! u.1))); by left.
Qed.

(** X20: through any history of requests every message of the store stays
    one that a member of its MDT has written, with a trimmed content of 1 to
    2000 code units. *)
Theorem history_messages_ok (db : DB) (rqs : list Request) :
  messages_ok db → messages_ok (history db rqs).
Proof.
  unfold history. revert db.
  induction rqs as [|rq rqs IH]; intros db Hok; [done|].
  simpl. apply IH. intros k msg Hk.
  apply handle_message in Hk
    as [Hk|(now & session & v & c & -> & Hchecks & Hcontent)].
  - destruct (Hok k msg Hk) as ((m & Hm & Hmem) & Hlen & Htrim).
    split; [|done].
    destruct (kept_mdts _ _ (kept_handle db rq) _ _ Hm)
      as (m' & Hm' & _ & _ & Hsub).
    exists m'. split; [done|]. by apply Hsub.
  - apply POST_message_checks_pass in Hchecks
      as (e & u & m & s & _ & _ & _ & -> & -> & Hu & Hlen & Hm & Hmem).
    rewrite Hcontent. split_and!.
    + destruct (kept_mdts _ _ (kept_handle db
                  (ReqPostMessage now session (msg_mdtId msg) (JStr s)))
                  _ _ Hm) as (m' & Hm' & _ & _ & Hsub).
      exists m'. split; [done|]. by apply Hsub.
    + rewrite toWellFormed_length. lia.
    + rewrite toWellFormed_length. lia.
    + apply trim_toWellFormed.
Qed.

Lemma history_messages_ok_witness :
  let db' := history Sample.store
    [ReqPostMessage 5 Sample.sessionA "0" (JStr (js " first "));
     ReqPostMessage 6 Sample.sessionD "0" (JStr (js "not a member yet"));
     ReqRespond Sample.sessionD "2" "ACCEPTED";
     ReqPostMessage 7 Sample.sessionD "0" (JStr (js "second"))] in
  messages_ok db'
  ∧ (content ∘ snd) <$> map_to_list (messages db')
    ≡ₚ [js "first"; js "second"].
Proof.
  intros db'. split.
  - apply history_messages_ok. intros k msg Hk.
    assert (Hempty : messages Sample.store = ∅) by by vm_compute.
    by rewrite Hempty, lookup_empty in Hk.
  - vm_compute. apply perm_swap || reflexivity.
Defined.

(** ** The user directory *)

Lemma user_by_email_None (db : DB) (e : string) :
  user_by_email db e = None
  ↔ ∀ k u, users db !! k = Some u → email u ≠ e.
Proof.
  unfold user_by_email. rewrite fmap_None, list_find_None, Forall_forall.
  split.
  - intros H k u Hk. apply (H (k, u)). by apply elem_of_map_to_list.
  - intros H [k u] Hk. apply elem_of_map_to_list in Hk. by eapply H.
Qed.

Lemma user_by_referralCode_None (dir : Directory) (code : string) :
  user_by_referralCode dir code = None
  ↔ ∀ k c, credentials dir !! k = Some c → referralCode c ≠ Some code.
Proof.
  unfold user_by_referralCode.
  rewrite fmap_None, list_find_None, Forall_forall. split.
  - intros H k c Hk. apply (H (k, c)). by apply elem_of_map_to_list.
  - intros H [k c] Hk. apply elem_of_map_to_list in Hk. by eapply H.
Qed.

Lemma user_by_referralCode_Some (dir : Directory) (code : string)
    (r : string * Credentials) :
  user_by_referralCode dir code = Some r →
  credentials dir !! r.1 = Some r.2 ∧ referralCode r.2 = Some code.
Proof.
  unfold user_by_referralCode. intros H.
  apply fmap_Some in H as ([i p] & Hfind & ->). simpl.
  apply list_find_Some in Hfind as (Hl & Hc & _).
  apply list_elem_of_lookup_2 in Hl. destruct p as [k c].
  by apply elem_of_map_to_list in Hl.
Qed.

Lemma external_referrer_Some (dir : Directory) (code r : string) :
  external_referrer dir code = Some r ↔
  ∃ c u, user_by_referralCode dir code = Some (r, c)
       ∧ users (dir_db dir) !! r = Some u ∧ userType u = EXTERNAL.
Proof.
  unfold external_referrer. split.
  - destruct (user_by_referralCode dir code) as [[r' c]|]; [|done]. simpl.
    destruct (users (dir_db dir) !! r') as [u|] eqn:Hu; [|done].
    case_bool_decide; [|done]. intros [= <-]. by exists c, u.
  - intros (c & u & -> & Hu & Hext). simpl. rewrite Hu.
    by rewrite bool_decide_eq_true_2.
Qed.

(** ** The referral code of a new external user *)

Lemma charAt_chars (i : nat) :
  (i < 36)%nat →
  ∃ c, charAt chars i = String c EmptyString
     ∧ String.get i chars = Some c.
Proof.
  intros Hi. unfold charAt.
  do 36 (destruct i as [|i]; [by eexists|]). lia.
Qed.

Lemma code_of_length (indexes : list nat) :
  Forall (λ i, (i < 36)%nat) indexes →
  String.length (code_of indexes) = List.length indexes.
Proof.
  induction 1 as [|i l Hi _ IH]; [done|].
  change (code_of (i :: l)) with (charAt chars i +:+ code_of l).
  destruct (charAt_chars i Hi) as (c & -> & _).
  change (String c "" +:+ code_of l) with (String c (code_of l)).
  cbn [String.length]. by rewrite IH.
Qed.

Lemma generateUniqueReferralCode_Some (fuel : nat) (dir : Directory)
    (rand : list nat) (code : string) :
  generateUniqueReferralCode fuel dir rand = Some code →
  user_by_referralCode dir code = None
  ∧ ∃ n, (8 * (n + 1) ≤ List.length rand)%nat
       ∧ code = code_of (take 8 (drop (8 * n) rand)).
Proof.
  revert rand. induction fuel as [|fuel IH]; intros rand; [done|]. simpl.
  destruct (Nat.ltb_spec (List.length rand) 8) as [|Hlen]; [done|].
  destruct (user_by_referralCode dir (code_of (take 8 rand))) eqn:Hfind.
  - intros H. apply IH in H as (Hnone & n & Hn & ->). split; [done|].
    exists (S n). rewrite length_drop in Hn. split; [lia|].
    rewrite drop_drop. do 3 f_equal. lia.
  - intros [= <-]. split; [done|]. exists 0%nat. split; [simpl; lia|done].
Qed.

(** X21: the code of a new external user is one that no user has, and is
    made of eight characters of the alphabet drawn in one round. *)
Theorem generated_code_fresh (fuel : nat) (dir : Directory)
    (rand : list nat) (code : string) :
  Forall (λ i, (i < 36)%nat) rand →
  generateUniqueReferralCode fuel dir rand = Some code →
  (∀ k c, credentials dir !! k = Some c → referralCode c ≠ Some code)
  ∧ String.length code = 8%nat
  ∧ ∀ i c, String.get i code = Some c → ∃ j, String.get j chars = Some c.
Proof.
  intros Hrand Hgen.
  apply generateUniqueReferralCode_Some in Hgen as (Hnone & n & Hn & ->).
  split; [by apply user_by_referralCode_None|].
  assert (Hround : Forall (λ i, (i < 36)%nat) (take 8 (drop (8 * n) rand))).
  { apply Forall_take, Forall_drop, Hrand. }
  split.
  - rewrite code_of_length by done. rewrite length_take, length_drop. lia.
  - clear Hn Hnone. induction Hround as [|j l Hj _ IH]; [done|].
    change (code_of (j :: l)) with (charAt chars j +:+ code_of l).
    destruct (charAt_chars j Hj) as (c' & -> & Hc').
    change (String c' "" +:+ code_of l) with (String c' (code_of l)).
    intros [|i] c.
    + intros [= <-]. by exists j.
    + apply IH.
Qed.


Lemma generated_code_fresh_witness :
  String.length "BCD019AB" = 8%nat.
Proof.
  apply (generated_code_fresh 2
           SampleDirectory.one_external
           [0; 0; 0; 0; 0; 0; 0; 0; 1; 2; 3; 26; 27; 35; 0; 1]%nat
           "BCD019AB").
  - repeat constructor.
  - by vm_compute.
Defined.

(** ** Signup *)

Lemma POST_signup_parse_inl (email_ok : jsstring → bool) (b b' : SignUpBody) :
  POST_signup_parse email_ok b = inl b' → b' = b.
Proof.
  unfold POST_signup_parse, pass, reject. intros H.
  repeat case_match; by simplify_eq.
Qed.

Lemma POST_signup_parse_inr (email_ok : jsstring → bool) (b : SignUpBody)
    (st : Z) (msg : string) :
  POST_signup_parse email_ok b = inr (st, msg) →
  st = 400%Z ∧ msg = "Invalid data".
Proof.
  unfold POST_signup_parse, pass, reject. intros H.
  repeat case_match; by simplify_eq.
Qed.

(** A signup that is answered with the new user. *)
Lemma POST_signup_json (env : SignupEnv) (dir dir' : Directory)
    (b : SignUpBody) (st : Z) (new : string * User) :
  POST_signup env dir b = Some (dir', Json st new) →
  ∃ c,
    st = 201%Z
    ∧ new.1 = fresh (dom (users (dir_db dir)) ∪ dom (credentials dir))
    ∧ dir' = with_user dir new.1 new.2 c
    ∧ POST_signup_parse (env_email_ok env) b = inl b
    ∧ email new.2 = env_text env (field_string (b_email b))
    ∧ user_by_email (dir_db dir) (email new.2) = None
    ∧ z_enum_userType (b_userType b) = Some (userType new.2)
    ∧ Forall (λ sid, is_Some (specialties (dir_db dir) !! sid))
             (userSpecialties new.2)
    ∧ password c = env_hash env (field_string (b_password b))
    ∧ match userType new.2 with
      | LOCAL =>
          referralCode c = None
          ∧ ∃ r, referredBy c = Some r
               ∧ external_referrer dir
                   (env_text env (field_string (b_referralCode b))) = Some r
      | EXTERNAL =>
          referredBy c = None
          ∧ ∃ code, referralCode c = Some code
                  ∧ generateUniqueReferralCode (List.length (env_rand env))
                      dir (env_rand env) = Some code
      end.
Proof.
  unfold POST_signup, POST_signup_checks. intros H.
  destruct (POST_signup_parse (env_email_ok env) b) as [b'|[st' msg]] eqn:Hparse;
    [|discriminate].
  apply POST_signup_parse_inl in Hparse as Hb. subst b'.
  destruct (user_by_email (dir_db dir) _) as [existing|] eqn:Hmail;
    [discriminate|].
  destruct (z_enum_userType (b_userType b)) as [ut|] eqn:Hut; [|discriminate].
  unfold signup_role, signup_create in H.
  assert (Hids : ∀ ids,
    forallb (λ sid, bool_decide (is_Some (specialties (dir_db dir) !! sid)))
      ids = true →
    Forall (λ sid, is_Some (specialties (dir_db dir) !! sid))
      (remove_dups ids)).
  { intros ids Hall. apply Forall_forall. intros sid Hsid.
    rewrite forallb_forall in Hall. rewrite elem_of_remove_dups in Hsid.
    eapply bool_decide_eq_true_1, Hall. by apply list_elem_of_In. }
  destruct ut; simpl in H.
  - destruct (external_referrer dir _) as [r|] eqn:Href; [|discriminate].
    simpl in H.
    destruct (specialtyIds env b) as [ids|]; [|discriminate].
    destruct (forallb _ ids) eqn:Hall; [|discriminate].
    simpl in H. injection H as <- <- <-.
    eexists. split_and!; try done.
    + by apply Hids.
    + simpl. split; [done|]. by exists r.
  - destruct (generateUniqueReferralCode _ dir _) as [code|] eqn:Hgen;
      [|discriminate].
    simpl in H.
    destruct (specialtyIds env b) as [ids|]; [|discriminate].
    destruct (forallb _ ids) eqn:Hall; [|discriminate].
    simpl in H. injection H as <- <- <-.
    eexists. split_and!; try done.
    + by apply Hids.
    + simpl. split; [done|]. by exists code.
Qed.

(** A signup that is answered with an error has written nothing. *)
Lemma POST_signup_error (env : SignupEnv) (dir dir' : Directory)
    (b : SignUpBody) (st : Z) (msg : string) :
  POST_signup env dir b = Some (dir', Error st msg) → dir' = dir.
Proof.
  unfold POST_signup.
  destruct (POST_signup_checks env dir b) as [[[u c]|[st' msg']]|];
    [discriminate| |discriminate]. by intros [= <- _ _].
Qed.

Lemma directory_ok_with_user (dir : Directory) (id : string) (u : User)
    (c : Credentials) :
  directory_ok dir →
  users (dir_db dir) !! id = None →
  credentials dir !! id = None →
  user_by_email (dir_db dir) (email u) = None →
  Forall (λ sid, is_Some (specialties (dir_db dir) !! sid))
         (userSpecialties u) →
  match userType u with
  | LOCAL =>
      referralCode c = None
      ∧ ∃ r ru, referredBy c = Some r
              ∧ users (dir_db dir) !! r = Some ru ∧ userType ru = EXTERNAL
  | EXTERNAL =>
      ∃ code, referralCode c = Some code
            ∧ user_by_referralCode dir code = None
  end →
  directory_ok (with_user dir id u c).
Proof.
  intros [Hemails Hcodes Hlocal Hexternal Hspec] Hid Hcid Hmail Hids Hrole.
  rewrite user_by_email_None in Hmail.
  split; simpl.
  - intros i j a b0 Hi Hj Heq.
    destruct (decide (id = i)) as [<-|Hni], (decide (id = j)) as [<-|Hnj];
      [done| | |].
    + rewrite lookup_insert_eq in Hi. rewrite lookup_insert_ne in Hj by done.
      injection Hi as <-. exfalso. by eapply Hmail.
    + rewrite lookup_insert_eq in Hj. rewrite lookup_insert_ne in Hi by done.
      injection Hj as <-. exfalso. by eapply Hmail.
    + rewrite lookup_insert_ne in Hi, Hj by done. eauto.
  - intros i j a b0 code Hi Hj Ha Hb.
    assert (Hnew : ∀ k d, credentials dir !! k = Some d →
              referralCode c = Some code → referralCode d ≠ Some code).
    { intros k d Hk Hc. destruct (userType u).
      - destruct Hrole as [Hnone _]. congruence.
      - destruct Hrole as (code' & Hcode' & Hfree).
        rewrite user_by_referralCode_None in Hfree.
        assert (code' = code) as -> by congruence. by eapply Hfree. }
    destruct (decide (id = i)) as [<-|Hni], (decide (id = j)) as [<-|Hnj];
      [done| | |].
    + rewrite lookup_insert_eq in Hi. rewrite lookup_insert_ne in Hj by done.
      injection Hi as <-. exfalso. by eapply Hnew.
    + rewrite lookup_insert_eq in Hj. rewrite lookup_insert_ne in Hi by done.
      injection Hj as <-. exfalso. by eapply Hnew.
    + rewrite lookup_insert_ne in Hi, Hj by done. eauto.
  - intros i a Hi Ha.
    assert (Hold : ∀ r ru, users (dir_db dir) !! r = Some ru →
              <[id:=u]> (users (dir_db dir)) !! r = Some ru).
    { intros r ru Hr. rewrite lookup_insert_ne; [done|]. congruence. }
    destruct (decide (id = i)) as [<-|Hni].
    + rewrite lookup_insert_eq in Hi. injection Hi as <-. rewrite Ha in Hrole.
      destruct Hrole as (_ & r & ru & Hr & Hru & Hext).
      exists c, r, ru. rewrite lookup_insert_eq. eauto.
    + rewrite lookup_insert_ne in Hi by done.
      destruct (Hlocal i a Hi Ha) as (c' & r & ru & Hc' & Hr & Hru & Hext).
      exists c', r, ru. rewrite lookup_insert_ne by done. eauto.
  - intros i a Hi Ha. destruct (decide (id = i)) as [<-|Hni].
    + rewrite lookup_insert_eq in Hi. injection Hi as <-. rewrite Ha in Hrole.
      destruct Hrole as (code & Hcode & _).
      exists c, code. by rewrite lookup_insert_eq.
    + rewrite lookup_insert_ne in Hi by done.
      destruct (Hexternal i a Hi Ha) as (c' & code & Hc' & Hcode).
      exists c', code. by rewrite lookup_insert_ne.
  - intros i a Hi. destruct (decide (id = i)) as [<-|Hni].
    + rewrite lookup_insert_eq in Hi. by injection Hi as <-.
    + rewrite lookup_insert_ne in Hi by done. eauto.
Qed.

(** X22: an answered signup leaves the directory in order: an address and a
    referral code belong to one user each, a local user is referred by an
    external user, an external user has a referral code, and the specialties
    of a user are rows of the catalogue. *)
Theorem signup_keeps_directory (env : SignupEnv) (dir dir' : Directory)
    (b : SignUpBody) (r : response (string * User)) :
  directory_ok dir →
  POST_signup env dir b = Some (dir', r) →
  directory_ok dir'.
Proof.
  intros Hok Hpost. destruct r as [st [id u]|st msg].
  - apply POST_signup_json in Hpost
      as (c & _ & Hid & -> & _ & _ & Hmail & _ & Hids & _ & Hrole).
    simpl in *.
    pose proof (is_fresh (dom (users (dir_db dir)) ∪ dom (credentials dir)))
      as Hfresh.
    rewrite <- Hid in Hfresh. apply not_elem_of_union in Hfresh as [Hu Hc].
    apply directory_ok_with_user; try done.
    + by apply not_elem_of_dom.
    + by apply not_elem_of_dom.
    + destruct (userType u).
      * destruct Hrole as (Hnone & r & Hr & Href).
        apply external_referrer_Some in Href as (c' & ru & _ & Hru & Hext).
        split; [done|]. by exists r, ru.
      * destruct Hrole as (_ & code & Hcode & Hgen).
        apply generateUniqueReferralCode_Some in Hgen as [Hfree _].
        by exists code.
  - by apply POST_signup_error in Hpost as ->.
Qed.

Lemma no_users_ok : directory_ok SampleDirectory.no_users.
Proof.
  split; simpl.
  - intros i j u v Hi. by rewrite lookup_empty in Hi.
  - intros i j c d code Hi. by rewrite lookup_empty in Hi.
  - intros i u Hi. by rewrite lookup_empty in Hi.
  - intros i u Hi. by rewrite lookup_empty in Hi.
  - intros i u Hi. by rewrite lookup_empty in Hi.
Qed.

Lemma signup_keeps_directory_witness :
  directory_ok SampleDirectory.one_external
  ∧ referralCode <$> credentials SampleDirectory.one_external !! "0"
    = Some (Some "AAAAAAAA").
Proof.
  split; [|by vm_compute].
  apply (signup_keeps_directory SampleDirectory.env SampleDirectory.no_users
           SampleDirectory.one_external
           (SampleDirectory.external_signup "Farid" "farid@hospital.example")
           (Json 201 ("0", {| firstName := "Farid"; lastName := "Aziz";
                              email := "farid@hospital.example";
                              userType := EXTERNAL;
                              userSpecialties := [1%Z] |}))).
  - apply no_users_ok.
  - by vm_compute.
Defined.

(** X23: after a signup at an address, a signup at the same address is
    refused and writes nothing. *)
Theorem signup_email_taken (env env' : SignupEnv) (dir dir' : Directory)
    (b b' : SignUpBody) (st : Z) (new : string * User) :
  POST_signup env dir b = Some (dir', Json st new) →
  env_text env' (field_string (b_email b')) = email new.2 →
  POST_signup_parse (env_email_ok env') b' = inl b' →
  POST_signup env' dir' b'
  = Some (dir', Error 400 "Email already registered").
Proof.
  intros Hpost Hmail Hparse.
  apply POST_signup_json in Hpost as (c & _ & _ & -> & _).
  assert (Hsome : is_Some (user_by_email
                    (dir_db (with_user dir new.1 new.2 c)) (email new.2))).
  { apply not_eq_None_Some. rewrite user_by_email_None. intros H.
    apply (H new.1 new.2); [|done]. simpl. by rewrite lookup_insert_eq. }
  destruct Hsome as [existing Hexisting].
  unfold POST_signup, POST_signup_checks. rewrite Hparse, Hmail.
  by rewrite Hexisting.
Qed.

Lemma signup_email_taken_witness :
  POST_signup SampleDirectory.env SampleDirectory.two_externals
    (SampleDirectory.external_signup "Fadia" "fadi@hospital.example")
  = Some (SampleDirectory.two_externals,
          Error 400 "Email already registered").
Proof.
  apply (signup_email_taken SampleDirectory.env SampleDirectory.env
           SampleDirectory.one_external SampleDirectory.two_externals
           (SampleDirectory.external_signup "Fadi" "fadi@hospital.example")
           (SampleDirectory.external_signup "Fadia" "fadi@hospital.example")
           201
           ("1", {| firstName := "Fadi"; lastName := "Aziz";
                    email := "fadi@hospital.example"; userType := EXTERNAL;
                    userSpecialties := [1%Z] |})).
  - by vm_compute.
  - by vm_compute.
  - by vm_compute.
Defined.

Lemma GET_validate_referral_valid (dir : Directory) (code : string) :
  GET_validate_referral dir (Some code) = Json 200 true
  ↔ code ≠ "" ∧ is_Some (external_referrer dir code).
Proof.
  unfold GET_validate_referral, external_referrer.
  case_bool_decide as Hcode.
  { split; [done|]. by intros [? _]. }
  destruct (user_by_referralCode dir code) as [r|].
  - destruct (users (dir_db dir) !! r.1) as [u|].
    + destruct (decide (userType u = EXTERNAL)) as [Hext|Hext].
      * rewrite bool_decide_eq_false_2 by auto.
        rewrite bool_decide_eq_true_2 by done. split; [|done].
        intros _. split; [done|]. by eexists.
      * rewrite bool_decide_eq_true_2 by done.
        rewrite bool_decide_eq_false_2 by done. split; [done|].
        by intros [_ [? ?]].
    + split; [done|]. by intros [_ [? ?]].
  - split; [done|]. by intros [_ [? ?]].
Qed.

(** X24: the signup of a local user is always answered, and it agrees with
    the validation route on the referral code: it succeeds only with a code
    the route reports as valid, and it is not refused for its code when the
    route reports the code as valid. *)
Theorem local_signup_follows_validation (env : SignupEnv) (dir : Directory)
    (b : SignUpBody) :
  b_userType b = JStr (js "LOCAL") →
  env_text env (field_string (b_referralCode b)) ≠ "" →
  let code := env_text env (field_string (b_referralCode b)) in
  ∃ dir' r,
    POST_signup env dir b = Some (dir', r)
    ∧ (is_json r = true →
       GET_validate_referral dir (Some code) = Json 200 true)
    ∧ (GET_validate_referral dir (Some code) = Json 200 true →
       r ≠ Error 400 "Invalid referral code").
Proof.
  intros Hlocal Hcode code.
  setoid_rewrite GET_validate_referral_valid.
  unfold POST_signup, POST_signup_checks.
  destruct (POST_signup_parse (env_email_ok env) b) as [b'|[st' msg]]
    eqn:Hparse.
  - apply POST_signup_parse_inl in Hparse as Hb. subst b'.
    destruct (user_by_email (dir_db dir) _) as [existing|].
    { eexists _, _. split; [done|]. split; [done|]. done. }
    rewrite Hlocal.
    change (z_enum_userType (JStr (js "LOCAL"))) with (Some LOCAL).
    unfold signup_role, signup_create.
    rewrite bool_decide_eq_true_2 by done. fold code.
    destruct (external_referrer dir code) as [referrer|] eqn:Href; simpl.
    + destruct (specialtyIds env b) as [ids|]; simpl.
      * destruct (forallb _ ids); simpl; eexists _, _;
          (split; [done|]); split; try done; intros _; split; eauto.
      * eexists _, _. split; [done|]. split; done.
    + eexists _, _. split; [done|]. split; [done|].
      by intros [_ [? ?]].
  - apply POST_signup_parse_inr in Hparse as [-> ->].
    eexists _, _. split; [done|]. split; done.
Qed.

Lemma local_signup_follows_validation_witness :
  GET_validate_referral SampleDirectory.two_externals (Some "BCD019AB")
  = Json 200 true
  ∧ is_json
      (default (Error 0 "")
         (snd <$> POST_signup SampleDirectory.env
                    SampleDirectory.two_externals
                    (SampleDirectory.local_signup "BCD019AB"))) = true.
Proof.
  destruct (local_signup_follows_validation SampleDirectory.env
              SampleDirectory.two_externals
              (SampleDirectory.local_signup "BCD019AB"))
    as (dir' & r & Hpost & Hvalid & _); [done|by vm_compute|].
  assert (Hjson : is_json r = true).
  { vm_compute in Hpost. by injection Hpost as _ <-. }
  split; [by apply Hvalid|]. rewrite Hpost. done.
Defined.




(** A request that lists the specialty 1 twice links the user to it once. *)
Example signup_links_a_specialty_once :
  ∃ dir id u,
    POST_signup SampleDirectory.env SampleDirectory.no_users
      {| b_firstName := JStr (js "Farid");
         b_lastName := JStr (js "Aziz");
         b_email := JStr (js "farid@hospital.example");
         b_password := JStr (js "Passw0rd");
         b_specialties := Some [JStr (js "1"); JStr (js "1")];
         b_userType := JStr (js "EXTERNAL");
         b_hospital := JUndefined;
         b_referralCode := JUndefined;
         b_professionalRegistrationNumber := JStr (js "REG-2041") |}
    = Some (dir, Json 201 (id, u))
    ∧ userSpecialties u = [1%Z].
Proof. eexists _, _, _. split; by vm_compute. Qed.

(** ** The seed *)

Lemma upsert_specialty_present (c : Catalog) (specialtyName : string) :
  has_name c specialtyName → upsert_specialty c specialtyName = Some c.
Proof.
  intros [k Hk]. unfold upsert_specialty.
  destruct (list_find _ _) as [p|] eqn:Hfind; [done|].
  apply list_find_None in Hfind. rewrite Forall_forall in Hfind.
  exfalso. apply (Hfind (k, specialtyName)); [|done].
  by apply elem_of_map_to_list.
Qed.

Lemma upsert_specialty_absent (c : Catalog) (specialtyName : string) :
  catalog_ok c →
  ¬ has_name c specialtyName →
  upsert_specialty c specialtyName
  = Some {| cat_specialties :=
              <[cat_nextval c := specialtyName]> (cat_specialties c);
            cat_nextval := (cat_nextval c + 1)%Z |}.
Proof.
  intros (_ & Hids & _) Hno. unfold upsert_specialty.
  destruct (list_find _ _) as [[i [k n]]|] eqn:Hfind.
  - apply list_find_Some in Hfind as (Hl & Hn & _). simpl in Hn. subst n.
    apply list_elem_of_lookup_2, elem_of_map_to_list in Hl.
    exfalso. apply Hno. by exists k.
  - destruct (cat_specialties c !! cat_nextval c) as [n|] eqn:Hnext; [|done].
    apply Hids in Hnext. lia.
Qed.

Lemma has_name_dec (c : Catalog) (specialtyName : string) :
  has_name c specialtyName ∨ ¬ has_name c specialtyName.
Proof.
  destruct (list_find (λ p, p.2 = specialtyName)
              (map_to_list (cat_specialties c))) as [[i [k n]]|] eqn:Hfind.
  - left. apply list_find_Some in Hfind as (Hl & Hn & _). simpl in Hn.
    subst n. apply list_elem_of_lookup_2, elem_of_map_to_list in Hl.
    by exists k.
  - right. intros [k Hk]. apply list_find_None in Hfind.
    rewrite Forall_forall in Hfind. apply (Hfind (k, specialtyName)); [|done].
    by apply elem_of_map_to_list.
Qed.

(** An upsert on a catalogue in order succeeds and leaves a catalogue in
    order that keeps every row and has the name. *)
Lemma upsert_specialty_ok (c : Catalog) (specialtyName : string) :
  catalog_ok c →
  ∃ c', upsert_specialty c specialtyName = Some c'
      ∧ catalog_ok c'
      ∧ (∀ k n, cat_specialties c !! k = Some n →
                cat_specialties c' !! k = Some n)
      ∧ (∀ n, has_name c' n ↔ has_name c n ∨ n = specialtyName).
Proof.
  intros Hok. destruct (has_name_dec c specialtyName) as [Hhas|Hhas].
  - exists c. split; [by apply upsert_specialty_present|].
    split; [done|]. split; [done|].
    intros n. split; [by left|]. by intros [?| ->].
  - eexists. split; [by apply upsert_specialty_absent|].
    destruct Hok as (Hpos & Hids & Hnames).
    assert (Hfree : cat_specialties c !! cat_nextval c = None).
    { destruct (cat_specialties c !! cat_nextval c) as [n|] eqn:Hn; [|done].
      apply Hids in Hn. lia. }
    unfold catalog_ok. split_and!; simpl.
    + lia.
    + intros k n. destruct (decide (cat_nextval c = k)) as [<-|Hne].
      * intros _. lia.
      * rewrite lookup_insert_ne by done. intros Hk. apply Hids in Hk. lia.
    + intros i j n.
      destruct (decide (cat_nextval c = i)) as [<-|Hni],
        (decide (cat_nextval c = j)) as [<-|Hnj]; [done| | |].
      * rewrite lookup_insert_eq, lookup_insert_ne by done.
        intros [= <-] Hj. exfalso. apply Hhas. by exists j.
      * rewrite lookup_insert_eq, lookup_insert_ne by done.
        intros Hi [= <-]. exfalso. apply Hhas. by exists i.
      * rewrite !lookup_insert_ne by done. apply Hnames.
    + intros k n Hk. rewrite lookup_insert_ne; [done|]. congruence.
    + intros n. split.
      * intros [k Hk]. simpl in Hk.
        destruct (decide (cat_nextval c = k)) as [<-|Hne].
        -- rewrite lookup_insert_eq in Hk. right. congruence.
        -- rewrite lookup_insert_ne in Hk by done. left. by exists k.
      * intros [[k Hk]| ->].
        -- exists k. simpl. rewrite lookup_insert_ne; [done|]. congruence.
        -- exists (cat_nextval c). simpl. by rewrite lookup_insert_eq.
Qed.

Lemma seed_loop_ok (names : list string) (c : Catalog) :
  catalog_ok c →
  ∃ c', seed_loop names c = (c', true)
      ∧ catalog_ok c'
      ∧ (∀ k n, cat_specialties c !! k = Some n →
                cat_specialties c' !! k = Some n)
      ∧ (∀ n, has_name c' n ↔ has_name c n ∨ n ∈ names).
Proof.
  revert c. induction names as [|specialtyName names IH]; intros c Hok.
  - exists c. split_and!; try done. intros n. split; [by left|].
    intros [|H]; [done|]. by apply elem_of_nil in H.
  - destruct (upsert_specialty_ok c specialtyName Hok)
      as (c1 & Hup & Hok1 & Hkept1 & Hnames1).
    destruct (IH c1 Hok1) as (c' & Hloop & Hok' & Hkept & Hnames).
    exists c'. simpl. rewrite Hup. split_and!; try done.
    + eauto.
    + intros n. rewrite Hnames, Hnames1, elem_of_cons. tauto.
Qed.

Lemma seed_loop_present (names : list string) (c : Catalog) :
  Forall (has_name c) names → seed_loop names c = (c, true).
Proof.
  induction 1 as [|specialtyName names Hhas _ IH]; [done|]. simpl.
  by rewrite upsert_specialty_present.
Qed.

(** X26: on a catalogue in order the seed runs to its end: it keeps every
    row, adds the names of its list that are missing, each once, and leaves
    a catalogue on which a second run changes nothing. *)
Theorem seed_completes_and_repeats (c : Catalog) :
  catalog_ok c →
  ∃ c', main c = (c', true)
      ∧ catalog_ok c'
      ∧ (∀ k n, cat_specialties c !! k = Some n →
                cat_specialties c' !! k = Some n)
      ∧ (∀ n, has_name c' n ↔ has_name c n ∨ n ∈ seed_specialties)
      ∧ main c' = (c', true).
Proof.
  intros Hok. unfold main.
  destruct (seed_loop_ok seed_specialties c Hok)
    as (c' & Hloop & Hok' & Hkept & Hnames).
  exists c'. split_and!; try done.
  apply seed_loop_present, Forall_forall. intros n Hn.
  apply Hnames. by right.
Qed.

Lemma seed_completes_and_repeats_witness :
  ∃ c', main {| cat_specialties := {[1%Z := "Oncology"]};
                cat_nextval := 2 |} = (c', true)
      ∧ cat_specialties c' !! 1%Z = Some "Oncology"
      ∧ cat_specialties c' !! 2%Z = Some "Cardiology"
      ∧ cat_nextval c' = 13%Z.
Proof.
  destruct (seed_completes_and_repeats
              {| cat_specialties := {[1%Z := "Oncology"]};
                 cat_nextval := 2 |})
    as (c' & Hmain & _).
  - unfold catalog_ok. simpl. split_and!.
    + lia.
    + intros k n Hk. apply lookup_singleton_Some in Hk as [<- _]. lia.
    + intros i j n Hi Hj. apply lookup_singleton_Some in Hi as [<- _].
      by apply lookup_singleton_Some in Hj as [<- _].
  - exists c'. split; [done|].
    vm_compute in Hmain. injection Hmain as <-. by vm_compute.
Defined.

(** ** The route guard *)

Lemma startsWith_app (pathname p : string) :
  startsWith pathname p = true ↔ ∃ rest, pathname = p +:+ rest.
Proof.
  unfold startsWith. revert pathname.
  induction p as [|c p IH]; intros pathname.
  - split; [intros _; by exists pathname|]. intros _. by destruct pathname.
  - destruct pathname as [|d pathname]; simpl.
    + split; [done|]. by intros [rest ?].
    + destruct (Ascii.ascii_dec c d) as [<-|Hne].
      * rewrite IH. split; intros [rest Hrest]; exists rest.
        -- by rewrite Hrest.
        -- by injection Hrest.
      * split; [done|]. intros [rest Hrest]. by injection Hrest as -> _.
Qed.

(** X27: a request without a token is let through exactly when its path
    starts with none of [/dashboard], [/mdt] and [/api/mdt]; a request with
    a token always is. *)
Theorem authorized_paths (token : bool) (pathname : string) :
  authorized token pathname = true
  ↔ token = true
    ∨ ¬ ∃ rest, pathname = "/dashboard" +:+ rest
              ∨ pathname = "/mdt" +:+ rest
              ∨ pathname = "/api/mdt" +:+ rest.
Proof.
  unfold authorized.
  assert (Hsub : startsWith pathname "/api/mdts" = true →
                 startsWith pathname "/api/mdt" = true).
  { rewrite !startsWith_app. intros [rest ->]. by exists ("s" +:+ rest). }
  pose proof (startsWith_app pathname "/dashboard") as H1.
  pose proof (startsWith_app pathname "/mdt") as H2.
  pose proof (startsWith_app pathname "/api/mdt") as H3.
  destruct (startsWith pathname "/dashboard"),
    (startsWith pathname "/mdt"),
    (startsWith pathname "/api/mdts"),
    (startsWith pathname "/api/mdt"), token; simpl;
    try (split; [by left|done]);
    try (by specialize (Hsub eq_refl));
    try (split; [done|]; intros [?|Hno]; [done|]; exfalso; apply Hno;
         first [ destruct H1 as [[rest ->] _]; [done|]; exists rest; tauto
               | destruct H2 as [[rest ->] _]; [done|]; exists rest; tauto
               | destruct H3 as [[rest ->] _]; [done|]; exists rest; tauto ]).
  split; [|done]. intros _. right. intros [rest [Hr|[Hr|Hr]]].
  - by destruct H1 as [_ H1]; discriminate H1; exists rest.
  - by destruct H2 as [_ H2]; discriminate H2; exists rest.
  - by destruct H3 as [_ H3]; discriminate H3; exists rest.
Qed.

(** ** The selections of the pages *)

(** X28: a toggle flips whether the option is selected, leaves the other
    options as they are and keeps a selection without duplicates so; a
    second toggle of the option restores the selection up to its order. *)
Theorem option_toggle_flips (selectedValues : list string)
    (optionId : string) :
  NoDup selectedValues →
  NoDup (handleOptionToggle selectedValues optionId)
  ∧ (optionId ∈ handleOptionToggle selectedValues optionId
     ↔ optionId ∉ selectedValues)
  ∧ (∀ x, x ≠ optionId →
       x ∈ handleOptionToggle selectedValues optionId ↔ x ∈ selectedValues)
  ∧ handleOptionToggle (handleOptionToggle selectedValues optionId) optionId
    ≡ₚ selectedValues.
Proof.
  intros Hnd.
  assert (Hflip : ∀ l, NoDup l →
    NoDup (handleOptionToggle l optionId)
    ∧ (optionId ∈ handleOptionToggle l optionId ↔ optionId ∉ l)
    ∧ (∀ x, x ≠ optionId → x ∈ handleOptionToggle l optionId ↔ x ∈ l)).
  { intros l Hl. unfold handleOptionToggle. case_bool_decide as Hin.
    - split_and!.
      + by apply NoDup_filter.
      + rewrite list_elem_of_filter. tauto.
      + intros x Hx. rewrite list_elem_of_filter. tauto.
    - split_and!.
      + apply NoDup_app. split_and!; [done| |apply NoDup_singleton].
        intros x Hx ->%list_elem_of_singleton. done.
      + rewrite elem_of_app, list_elem_of_singleton. tauto.
      + intros x Hx. rewrite elem_of_app, list_elem_of_singleton. tauto. }
  destruct (Hflip selectedValues Hnd) as (Hnd1 & Hin1 & Hother1).
  destruct (Hflip _ Hnd1) as (Hnd2 & Hin2 & Hother2).
  split_and!; try done.
  apply NoDup_Permutation; [done|done|]. intros x.
  destruct (decide (x = optionId)) as [->|Hne].
  - rewrite Hin2, Hin1. split; [|tauto].
    intros H. by destruct (decide (optionId ∈ selectedValues)).
  - by rewrite Hother2, Hother1.
Qed.

Lemma option_toggle_flips_witness :
  handleOptionToggle (handleOptionToggle ["1"; "2"; "3"] "2") "2"
  ≡ₚ ["1"; "2"; "3"].
Proof.
  apply (option_toggle_flips ["1"; "2"; "3"] "2").
  apply (bool_decide_unpack _). by vm_compute.
Defined.

(** A change of a specialty box leaves the specialty selected exactly when
    the box is checked and the other specialties as they are; the selection
    stays without duplicates when a box is checked only for a specialty
    that is not selected. *)
Lemma specialty_change_selects (prev : list Z) (specialtyId : Z)
    (checked : bool) :
  NoDup prev →
  (checked = true → specialtyId ∉ prev) →
  NoDup (handleSpecialtyChange prev specialtyId checked)
  ∧ (specialtyId ∈ handleSpecialtyChange prev specialtyId checked
     ↔ checked = true)
  ∧ (∀ x, x ≠ specialtyId →
       x ∈ handleSpecialtyChange prev specialtyId checked ↔ x ∈ prev).
Proof.
  intros Hnd Hbox. unfold handleSpecialtyChange. destruct checked.
  - split_and!.
    + apply NoDup_app. split_and!; [done| |apply NoDup_singleton].
      intros x Hx ->%list_elem_of_singleton. by apply Hbox.
    + rewrite elem_of_app, list_elem_of_singleton. tauto.
    + intros x Hx. rewrite elem_of_app, list_elem_of_singleton. tauto.
  - split_and!.
    + by apply NoDup_filter.
    + rewrite list_elem_of_filter. split; [tauto|done].
    + intros x Hx. rewrite list_elem_of_filter. tauto.
Qed.

(** ** When a creation succeeds *)

Lemma tx_forM_create_mdtSpecialty_runs (id : string) (required : list Z)
    (db : DB) :
  NoDup required →
  Forall (λ sid, is_Some (specialties db !! sid)) required →
  (∀ sid, sid ∈ required → mdtSpecialties db !! (id, sid) = None) →
  ∃ db', tx_forM (tx_create_mdtSpecialty id) required db = Done db' ().
Proof.
  revert db. induction required as [|sid required IH]; intros db Hnd Hcat Hfree.
  - by exists db.
  - apply NoDup_cons in Hnd as [Hsid Hnd].
    apply Forall_cons in Hcat as [[nm Hnm] Hcat].
    simpl. unfold tx_bind at 1. unfold tx_create_mdtSpecialty at 1.
    rewrite Hnm. rewrite (Hfree sid) by left.
    apply IH; [done|done|].
    intros sid' Hin. simpl. rewrite lookup_insert_ne.
    + apply Hfree. by right.
    + intros [= ->]. done.
Qed.

Lemma tx_forM_create_invitation_runs {A} (f : A → MDTInvitation)
    (ds : list A) (db : DB) :
  (∀ d, d ∈ ds → is_Some (mdts db !! inv_mdtId (f d))) →
  ∃ db', tx_forM (λ d, tx_create_invitation (f d)) ds db = Done db' ().
Proof.
  revert db. induction ds as [|d ds IH]; intros db Hmdt.
  - by exists db.
  - simpl. unfold tx_bind at 1. unfold tx_create_invitation at 1.
    destruct (Hmdt d) as [m Hm]; [by left|]. rewrite Hm.
    apply IH. intros d' Hd'. simpl. apply Hmdt. by right.
Qed.

Lemma create_mdt_tx_runs (creator : string) (body : CreateMDTBody) (db : DB) :
  is_Some (users db !! creator) →
  Forall (λ u, is_Some (users db !! u)) (localDoctors body) →
  NoDup (requiredSpecialties body) →
  Forall (λ sid, is_Some (specialties db !! sid)) (requiredSpecialties body) →
  (∀ sid, sid ∈ requiredSpecialties body →
     mdtSpecialties db !! (fresh (dom (mdts db)), sid) = None) →
  ∃ db' v, create_mdt_tx creator body db = Done db' v.
Proof.
  intros [c Hcreator] Hlocals Hnd Hcat Hfree.
  unfold create_mdt_tx. set (id := fresh (dom (mdts db))) in *.
  unfold tx_bind at 1. unfold tx_create_mdt. fold id. rewrite Hcreator.
  unfold tx_bind at 1. unfold tx_connect_members. simpl.
  rewrite lookup_insert_eq.
  rewrite (bool_decide_eq_true_2 (is_Some (users db !! creator)))
    by (by rewrite Hcreator).
  simpl.
  assert (Hall : forallb (λ u, bool_decide (is_Some (users db !! u)))
                   (localDoctors body) = true).
  { apply forallb_forall. intros u Hu. apply bool_decide_eq_true_2.
    rewrite Forall_forall in Hlocals. by apply Hlocals, list_elem_of_In. }
  rewrite Hall.
  unfold tx_bind at 1. unfold tx_create_patientProfile. simpl.
  rewrite lookup_insert_eq.
  unfold tx_bind at 1.
  match goal with
  | |- context [tx_forM (tx_create_mdtSpecialty id) _ ?d] =>
      destruct (tx_forM_create_mdtSpecialty_runs id
                  (requiredSpecialties body) d) as [db4 Hslots];
        [exact Hnd|exact Hcat|intros sid Hsid; by apply (Hfree sid)|]
  end.
  rewrite Hslots.
  apply tx_forM_create_mdtSpecialty in Hslots as (_ & _ & Hm4 & _).
  unfold tx_bind at 1. unfold tx_get. unfold tx_bind at 1.
  destruct (tx_forM_create_invitation_runs
              (invitation_for id creator (requiredSpecialties body))
              (findMany_externalDoctors db4 (requiredSpecialties body)) db4)
    as [db5 Hinvs].
  { intros d _. simpl. rewrite Hm4. simpl. by rewrite lookup_insert_eq. }
  rewrite Hinvs. unfold tx_findUnique_mdt. eauto.
Qed.

(** X29: a local user's creation succeeds exactly when every listed local
    doctor is a user and the required specialties are rows of the catalogue,
    each listed once; the store is one whose slots are of MDTs of the store. *)
Theorem creation_succeeds_exactly (db : DB) (e : string)
    (creator : string * User) (body : CreateMDTBody) :
  e ≠ "" →
  user_by_email db e = Some creator →
  userType creator.2 = LOCAL →
  (∀ k, is_Some (mdtSpecialties db !! k) → is_Some (mdts db !! k.1)) →
  is_json (POST_mdt db (Some e) body).2 = true
  ↔ Forall (λ u, is_Some (users db !! u)) (localDoctors body)
    ∧ NoDup (requiredSpecialties body)
    ∧ Forall (λ sid, is_Some (specialties db !! sid))
             (requiredSpecialties body).
Proof.
  intros Hne Hu Hlocal Hslots. split.
  - destruct (POST_mdt db (Some e) body) as [db' [st v|st msg]] eqn:Hpost;
      [|done].
    intros _. apply POST_mdt_json in Hpost as (c & _ & _ & _ & Htx).
    apply create_mdt_tx_done in Htx as Hc. split_and!.
    + exact (created_locals _ _ _ _ _ _ Hc).
    + exact (created_required_nodup _ _ _ _ _ _ Hc).
    + apply Forall_forall. intros sid Hsid.
      by destruct (created_slots _ _ _ _ _ _ Hc sid Hsid).
  - intros (Hlocals & Hnd & Hcat).
    destruct (create_mdt_tx_runs creator.1 body db) as (db' & v & Htx);
      try done.
    + apply user_by_email_lookup in Hu as [Hrow _]. by rewrite Hrow.
    + intros sid _.
      destruct (mdtSpecialties db !! (fresh (dom (mdts db)), sid)) as [b|]
        eqn:Hrow; [|done].
      destruct (Hslots (fresh (dom (mdts db)), sid)) as [m Hm];
        [by rewrite Hrow|].
      simpl in Hm. pose proof (is_fresh (dom (mdts db))) as Hfresh.
      apply not_elem_of_dom in Hfresh. congruence.
    + unfold POST_mdt, require_session.
      rewrite bool_decide_eq_false_2 by done. simpl.
      apply require_user_pass with (msg := "User not found") in Hu.
      rewrite Hu. simpl. rewrite bool_decide_eq_false_2 by auto. simpl.
      unfold transaction. by rewrite Htx.
Qed.

Lemma creation_succeeds_exactly_witness :
  is_json (POST_mdt Sample.empty_store Sample.sessionA Sample.case_body).2
    = true
  ∧ is_json
      (POST_mdt Sample.empty_store Sample.sessionA Sample.duplicate_body).2
    = false.
Proof.
  split.
  - apply (creation_succeeds_exactly Sample.empty_store
             "amal@clinic.example" ("A", Sample.userA) Sample.case_body).
    + done.
    + by vm_compute.
    + done.
    + intros k [b Hk]. simpl in Hk. by rewrite lookup_empty in Hk.
    + split_and!.
      * by apply Forall_nil.
      * apply (bool_decide_unpack _). by vm_compute.
      * repeat constructor; by vm_compute; eexists.
  - by vm_compute.
Defined.

(** ** The rules of the creation form *)

(** X30: the route does not apply the rules of the creation form: a local
    user's request with no local doctor and no required specialty, which the
    form refuses, creates an MDT whose only member is the creator and which
    has no slot and no invitation. *)
Theorem creation_without_form_rules (db : DB) (e : string)
    (creator : string * User) (body : CreateMDTBody) :
  e ≠ "" →
  user_by_email db e = Some creator →
  userType creator.2 = LOCAL →
  localDoctors body = [] →
  requiredSpecialties body = [] →
  createMDTSchema body = false
  ∧ ∃ db' view,
      POST_mdt db (Some e) body = (db', Json 200 (Some view))
      ∧ (∀ u, u ∈ members (view_mdt view) ↔ u = creator.1)
      ∧ mdtSpecialties db' = mdtSpecialties db
      ∧ invitations db' = invitations db.
Proof.
  intros Hne Hu Hlocal Hdoctors Hrequired. split.
  { unfold createMDTSchema. rewrite Hdoctors. simpl.
    by rewrite andb_false_r. }
  destruct (user_by_email_lookup _ _ _ Hu) as [Hrow _].
  destruct (create_mdt_tx_runs creator.1 body db) as (db' & v & Htx).
  - by rewrite Hrow.
  - by rewrite Hdoctors.
  - rewrite Hrequired. apply NoDup_nil_2.
  - by rewrite Hrequired.
  - rewrite Hrequired. intros sid Hsid. by apply elem_of_nil in Hsid.
  - apply create_mdt_tx_done in Htx as Hc.
    pose proof (created_view _ _ _ _ _ _ Hc) as ->.
    eexists db', _. split; [|split_and!].
    + unfold POST_mdt, require_session.
      rewrite bool_decide_eq_false_2 by done. simpl.
      apply require_user_pass with (msg := "User not found") in Hu.
      rewrite Hu. simpl. rewrite bool_decide_eq_false_2 by auto. simpl.
      unfold transaction. by rewrite Htx.
    + intros u. unfold new_mdt. cbn [members view_mdt]. rewrite Hdoctors.
      rewrite elem_of_union, elem_of_empty, elem_of_list_to_set,
        list_elem_of_singleton. tauto.
    + apply map_eq. intros k.
      destruct (mdtSpecialties db !! k) as [b|] eqn:Hk.
      * rewrite (created_slots_old _ _ _ _ _ _ Hc) by (by rewrite Hk). done.
      * destruct (mdtSpecialties db' !! k) as [b|] eqn:Hk'; [|done].
        destruct (created_slots_only _ _ _ _ _ _ Hc k) as [[b' Hb']|[_ Hin]].
        -- by rewrite Hk'.
        -- congruence.
        -- rewrite Hrequired in Hin. by apply elem_of_nil in Hin.
    + destruct (created_invitations _ _ _ _ _ _ Hc)
        as (ids & Hlen & _ & Hperm).
      assert (Hnone : findMany_externalDoctors db (requiredSpecialties body)
                      = []).
      { unfold findMany_externalDoctors. apply filter_none.
        intros [k u] _. simpl. rewrite Hrequired. unfold matches_required.
        assert (Hex : existsb (λ s, bool_decide (s ∈ ([] : list Z)))
                        (userSpecialties u) = false).
        { induction (userSpecialties u) as [|s l IH]; [done|].
          cbn [existsb]. rewrite IH.
          rewrite bool_decide_eq_false_2; [done|]. apply not_elem_of_nil. }
        rewrite Hex. by rewrite andb_false_r. }
      rewrite Hnone in Hperm, Hlen. destruct ids; [|done]. simpl in Hperm.
      by apply map_to_list_inj.
Qed.

Lemma creation_without_form_rules_witness :
  createMDTSchema
    {| name := "Case 3";
       patientProfile := patientProfile Sample.case_body;
       localDoctors := []; requiredSpecialties := [] |} = false
  ∧ is_json
      (POST_mdt Sample.empty_store Sample.sessionA
         {| name := "Case 3";
            patientProfile := patientProfile Sample.case_body;
            localDoctors := []; requiredSpecialties := [] |}).2 = true.
Proof.
  destruct (creation_without_form_rules Sample.empty_store
              "amal@clinic.example" ("A", Sample.userA)
              {| name := "Case 3";
                 patientProfile := patientProfile Sample.case_body;
                 localDoctors := []; requiredSpecialties := [] |})
    as (Hform & db' & view & Hpost & _);
    [done|by vm_compute|done|done|done|].
  split; [exact Hform|]. unfold Sample.sessionA. by rewrite Hpost.
Defined.
